(** * cap-height: the pixel-scan measurement of a glyph run

    A shallow embedding of the two published variants of the cap-height
    module and the properties of its specification.

    - [Legacy] is the CommonJS module (exact black test, no device pixel
      ratio, result key [cap-height]).
    - [Primary] is the ES6 module (threshold test, device pixel ratio,
      result key [--cap-height]).

    The browser is not part of the repository.  What it contributes, the
    device pixel ratio and the read-back of rendered pixels, is a [Host]
    record the embedded functions take as an argument. *)

From Stdlib Require Import ZArith QArith Qround Lia Lqa String Ascii DecimalString
  DecimalPos.
From Stdlib Require SpecFloat.
From stdpp Require Import gmap strings list.

Local Open Scope Z_scope.

(** ** JavaScript numbers

    Numbers are exact rationals extended with the three special values
    the code can observe ([isNaN], division by zero).  Rounding, overflow
    and the sign of zero are not modelled: the operations below are those
    of the host's doubles where the doubles are exact, which is on the
    integers up to 2^53 (indices, rows, sizes of a raster) and on
    quotients that come out as such.  Where rounding decides a property,
    it is stated on the doubles of [Double] below, or under bounds that
    keep the numbers in the exact range. *)

Inductive number : Type :=
  | Fin (q : Q)
  | PInf
  | NInf
  | NaN.

Definition of_Z (z : Z) : number := Fin (inject_Z z).

Definition Qsign (q : Q) : comparison := (Qnum q ?= 0)%Z.

Definition flip_inf (n : number) : number :=
  match n with
  | PInf => NInf
  | NInf => PInf
  | other => other
  end.

Definition num_neg (a : number) : number :=
  match a with
  | Fin q => Fin (- q)
  | other => flip_inf other
  end.

Definition num_add (a b : number) : number :=
  match a, b with
  | NaN, _ | _, NaN => NaN
  | Fin p, Fin q => Fin (p + q)
  | Fin _, inf => inf
  | inf, Fin _ => inf
  | PInf, PInf => PInf
  | NInf, NInf => NInf
  | _, _ => NaN
  end.

Definition num_sub (a b : number) : number := num_add a (num_neg b).

(** An infinity times a finite number. *)
Definition inf_times (inf : number) (q : Q) : number :=
  match Qsign q with
  | Eq => NaN
  | Gt => inf
  | Lt => flip_inf inf
  end.

Definition num_mul (a b : number) : number :=
  match a, b with
  | NaN, _ | _, NaN => NaN
  | Fin p, Fin q => Fin (p * q)
  | Fin p, inf => inf_times inf p
  | inf, Fin q => inf_times inf q
  | PInf, PInf | NInf, NInf => PInf
  | _, _ => NInf
  end.

Definition num_div (a b : number) : number :=
  match a, b with
  | NaN, _ | _, NaN => NaN
  | Fin p, Fin q =>
      match Qsign q with
      | Eq => match Qsign p with Eq => NaN | Gt => PInf | Lt => NInf end
      | _ => Fin (p / q)
      end
  | Fin _, _ => Fin 0
  | inf, Fin q => match Qsign q with Lt => flip_inf inf | _ => inf end
  | _, _ => NaN
  end.

(** [Math.floor], which lodash's [_.floor] calls when given no precision. *)
Definition num_floor (a : number) : number :=
  match a with
  | Fin q => Fin (inject_Z (Qfloor q))
  | other => other
  end.

(** The [<] operator. *)
Definition num_ltb (a b : number) : bool :=
  match a, b with
  | NaN, _ | _, NaN => false
  | Fin p, Fin q => match (p ?= q)%Q with Lt => true | _ => false end
  | _, NInf => false
  | NInf, _ => true
  | PInf, _ => false
  | _, PInf => true
  end.

Definition isNaN (a : number) : bool :=
  match a with NaN => true | _ => false end.

(** [a === 0]. *)
Definition is_zero (a : number) : bool :=
  match a with Fin q => Qeq_bool q 0 | _ => false end.

(** The same number: rationals up to [Qeq], special values by name. *)
Definition num_equiv (a b : number) : Prop :=
  match a, b with
  | Fin p, Fin q => (p == q)%Q
  | PInf, PInf | NInf, NInf | NaN, NaN => True
  | _, _ => False
  end.

Infix "≈" := num_equiv (at level 70, no associativity).

(** ** JavaScript strings

    A string is its sequence of UTF-16 code units; [js] reads an ASCII
    literal. *)

Definition jsstring : Type := list N.

Definition js (s : string) : jsstring := N_of_ascii <$> list_ascii_of_string s.

(** The class [\s] of the regular expressions. *)
Definition is_whitespace (c : N) : bool :=
  ((9 <=? c) && (c <=? 13) || (c =? 32) || (c =? 160) || (c =? 5760)
   || (8192 <=? c) && (c <=? 8202) || (c =? 8232) || (c =? 8233)
   || (c =? 8239) || (c =? 8287) || (c =? 12288) || (c =? 65279))%N.

(** [/\s/.test(text)] *)
Definition test_whitespace (text : jsstring) : bool := existsb is_whitespace text.

(** The class [\d]; [\D] is its complement. *)
Definition is_digit (c : N) : bool := ((48 <=? c) && (c <=? 57))%N.

(** [s.replace(/\D/g, '')] *)
Definition strip_non_digits (s : jsstring) : jsstring := List.filter is_digit s.

(** The value of a string of decimal digits, most significant first.
    The host reads a value above 2^53 as the nearest double, and as
    [Infinity] from 309 digits; the value is the number read up to
    2^53. *)
Definition digits_value (s : jsstring) : Z :=
  fold_left (fun acc c => 10 * acc + (Z.of_N c - 48)) s 0.

(** [parseFloat] on a string of decimal digits, the only strings it is
    given here: the empty string has no number in it. *)
Definition parseFloat (s : jsstring) : number :=
  match s with
  | [] => NaN
  | _ => of_Z (digits_value s)
  end.

(** [_.toNumber] on a string of decimal digits: the unary plus it ends
    in reads the empty string as zero. *)
Definition toNumber (s : jsstring) : number := of_Z (digits_value s).

(** Decimal digits of the fraction [r / d], [0 <= r < d]. *)
Fixpoint frac_digits (fuel : nat) (r d : Z) : jsstring :=
  match fuel with
  | O => []
  | S k =>
      if r =? 0 then []
      else Z.to_N (48 + (10 * r) / d) :: frac_digits k ((10 * r) mod d) d
  end.

(** A number as a string.  Integers print as the host prints them below
    10^21, where the host changes to exponent notation; other rationals
    print their decimal expansion, cut after twenty places, which is not
    the host's shortest round-trip form. *)
Definition number_to_string (n : number) : jsstring :=
  match n with
  | NaN => js "NaN"
  | PInf => js "Infinity"
  | NInf => js "-Infinity"
  | Fin q =>
      let n := Qnum q in
      let d := Z.pos (Qden q) in
      let r := Z.abs n mod d in
      (if n <? 0 then js "-" else [])
        ++ js (NilZero.string_of_int (Z.to_int (Z.abs n / d)))
        ++ (if r =? 0 then [] else js "." ++ frac_digits 20 r d)
  end.

(** ** Property records

    The value of a font property is a string or a number. *)

Inductive value : Type :=
  | VStr (s : jsstring)
  | VNum (n : number).

(** lodash's [toString] on the values of a font record. *)
Definition to_string (v : value) : jsstring :=
  match v with
  | VStr s => s
  | VNum n => number_to_string n
  end.

(** A record of font properties: a JavaScript object with string or number
    values. *)
Abbreviation object := (gmap string value).

(** The default font properties of both variants. *)
Definition defaults : object :=
  <["font-style" := VStr (js "normal")]>
    (<["font-weight" := VNum (of_Z 400)]>
       (<["font-size" := VStr (js "100px")]>
          (<["font-family" := VStr (js "serif")]> ∅))).

(** [_.get(properties, key, fallback)] *)
Definition get (o : object) (key : string) (fallback : value) : value :=
  default fallback (o !! key).

(** ** Scanning a pixel buffer *)

Fixpoint findIndex_from {A} (p : A -> bool) (l : list A) (i : Z) : Z :=
  match l with
  | [] => -1
  | x :: rest => if p x then i else findIndex_from p rest (i + 1)
  end.

(** [_.findIndex(array, predicate)]: the first index from the left, or -1. *)
Definition findIndex {A} (p : A -> bool) (l : list A) : Z := findIndex_from p l 0.

(** [_.findLastIndex(array, predicate)]: the same scan from the right end. *)
Definition findLastIndex {A} (p : A -> bool) (l : list A) : Z :=
  let k := findIndex p (reverse l) in
  if k =? -1 then -1 else Z.of_nat (length l) - 1 - k.

(** ** The host: canvas, store and exceptions *)

(** What the code asks of a 2D drawing context, in call order. *)
Inductive draw_op : Type :=
  | Scale (x y : number)
  | SetFillStyle (style : string)
  | FillRect (x y w h : number)
  | SetFont (font : jsstring)
  | SetTextAlign (align : string)
  | SetTextBaseline (baseline : string)
  | FillText (text : jsstring) (x y : number).

(** A canvas element: its backing-store size, its CSS style and the
    drawing calls made on its context so far. *)
Record canvas : Type := Canvas {
  canvas_width : number;
  canvas_height : number;
  canvas_style : object;
  canvas_ops : list draw_op
}.

Definition draw (op : draw_op) (c : canvas) : canvas :=
  Canvas (canvas_width c) (canvas_height c) (canvas_style c) (canvas_ops c ++ [op]).

(** The browser.  [getImageData c w h] is
    [context.getImageData(0, 0, w, h).data] on the canvas as drawn so far:
    one channel value per entry, or [None] when the browser raises. *)
Record Host : Type := {
  devicePixelRatio : number;
  getImageData : canvas -> number -> number -> option (list Z)
}.

Definition loc : Type := nat.

(** The objects reachable by reference, and the module-level [container]:
    [Some children] when it holds a DOM element. *)
Record state : Type := State {
  heap : gmap loc object;
  container : option (list canvas)
}.

(** The three [RangeError]s of the module, by message, and what the
    browser may raise. *)
Inductive error : Type :=
  | InvalidFontSize
  | ZeroFontSize
  | WhitespaceText
  | HostFailure.

(** Both font-size errors are the specification's InvalidFontSize. *)
Definition is_invalid_font_size (e : error) : bool :=
  match e with
  | InvalidFontSize | ZeroFontSize => true
  | _ => false
  end.

(** A computation that may read and write the store and may throw; what
    was written before a throw stays written. *)
Definition M (A : Type) : Type := state -> state * (error + A).

#[global] Instance M_ret : MRet M := fun A a s => (s, inr a).

#[global] Instance M_bind : MBind M := fun A B f m s =>
  match m s with
  | (s', inl e) => (s', inl e)
  | (s', inr a) => f a s'
  end.

Definition throw {A} (e : error) : M A := fun s => (s, inl e).

Definition lift {A} (r : error + A) : M A := fun s => (s, r).

(** Dereference; every reference a caller holds is to a live object, a
    dangling one is answered like a host failure. *)
Definition read (l : loc) : M object := fun s =>
  match heap s !! l with
  | Some o => (s, inr o)
  | None => (s, inl HostFailure)
  end.

Definition write (l : loc) (o : object) : M unit := fun s =>
  (State (<[l := o]> (heap s)) (container s), inr tt).

(** A new object. *)
Definition alloc (o : object) : M loc := fun s =>
  let l := fresh (dom (heap s)) in
  (State (<[l := o]> (heap s)) (container s), inr l).

(** [container.appendChild(canvas)] when a container element is set. *)
Definition displayCanvas (c : canvas) : M unit := fun s =>
  match container s with
  | Some children => (State (heap s) (Some (children ++ [c])), inr tt)
  | None => (s, inr tt)
  end.

(** The container after [displayCanvas]. *)
Definition displayed (c : canvas) (container : option (list canvas))
  : option (list canvas) :=
  (fun children => children ++ [c]) <$> container.

Definition setContainer (element : option (list canvas)) : M unit := fun s =>
  (State (heap s) element, inr tt).

(** [context.getImageData(0, 0, width, height).data] *)
Definition getPixelData (host : Host) (context : canvas) (width height : number)
  : M (list Z) :=
  match getImageData host context width height with
  | Some data => mret data
  | None => throw HostFailure
  end.

(** The four font keys, in the order of the font shorthand. *)
Definition font_keys : list string :=
  ["font-style"; "font-weight"; "font-size"; "font-family"]%string.

(** [parts.join(' ')] *)
Fixpoint join_space (parts : list jsstring) : jsstring :=
  match parts with
  | [] => []
  | [s] => s
  | s :: rest => s ++ js " " ++ join_space rest
  end.

(** ** The CommonJS variant *)

Module Legacy.

(** [isBlack] *)
Definition isBlack (value : Z) : bool := value =? 0.

(** [getYPosition]: [_.floor(i / (width * 4))] *)
Definition getYPosition (i width : number) : number :=
  num_floor (num_div i (num_mul width (of_Z 4))).

Definition getAscent (pixelData : list Z) (width : number) : number :=
  let i := findIndex isBlack pixelData in
  getYPosition (of_Z i) width.

Definition getDescent (pixelData : list Z) (width : number) : number :=
  let i := findLastIndex isBlack pixelData in
  getYPosition (of_Z i) width.

(** [getHeight]: [descent + 1 - ascent] *)
Definition getHeight (descent ascent : number) : number :=
  num_sub (num_add descent (of_Z 1)) ascent.

(** [getFontSize]: [parseFloat] of the digits of the font size. *)
Definition getFontSize (properties : object) : error + number :=
  let fontSize :=
    parseFloat (strip_non_digits
                  (to_string (get properties "font-size" (VNum (of_Z 0))))) in
  if isNaN fontSize then inl InvalidFontSize
  else if is_zero fontSize then inl ZeroFontSize
  else inr fontSize.

(** [mergeWithDefaults]: [_.merge] copies the given properties over a
    new object holding the defaults, and returns that object. *)
Definition mergeWithDefaults (properties : loc) : M loc :=
  given ← read properties;
  alloc (given ∪ defaults).

Definition createCanvas (width height : number) : canvas :=
  Canvas width height ∅ [].

(** [composeFontProperty]: [format] prints a key the record lacks as the
    empty string; after [mergeWithDefaults] the four keys are present. *)
Definition composeFontProperty (properties : object) : jsstring :=
  join_space ((fun k => from_option to_string [] (properties !! k)) <$> font_keys).

Definition drawContext (context : canvas) (properties : object)
    (width height : number) (text : jsstring) : canvas :=
  foldl (fun c op => draw op c) context
    [ SetFont (composeFontProperty properties);
      SetTextAlign "center";
      SetTextBaseline "middle";
      SetFillStyle "white";
      FillRect (of_Z 0) (of_Z 0) width height;
      SetFillStyle "black";
      FillText text (num_div width (of_Z 2)) (num_div height (of_Z 2)) ].

(** [text || "H"]: an absent and an empty text are both falsy. *)
Definition text_or_H (text : option jsstring) : jsstring :=
  match text with
  | None | Some [] => js "H"
  | Some t => t
  end.

Section WithHost.
Variable host : Host.

(** The logical width and height of the raster. *)
Definition rasterWidth (fontSize : number) (text : jsstring) : number :=
  num_mul (num_mul (of_Z 2) fontSize) (of_Z (Z.of_nat (length text))).

Definition rasterHeight (fontSize : number) : number :=
  num_mul (of_Z 2) fontSize.

(** The canvas as drawn when its pixels are read back. *)
Definition raster (props : object) (fontSize : number) (text : jsstring) : canvas :=
  let width := rasterWidth fontSize text in
  let height := rasterHeight fontSize in
  drawContext (createCanvas width height) props width height text.

(** [measureTextHeight] *)
Definition measureTextHeight (properties : loc) (text : option jsstring)
  : M number :=
  props ← read properties;
  fontSize ← lift (getFontSize props);
  let text := text_or_H text in
  if test_whitespace text then throw WhitespaceText
  else
    let multiplier := of_Z 2 in
    let width :=
      num_mul (num_mul multiplier fontSize) (of_Z (Z.of_nat (length text))) in
    let height := num_mul multiplier fontSize in
    let canvas := createCanvas width height in
    let ctx := drawContext canvas props width height text in
    pixelData ← getPixelData host ctx width height;
    let ascent := getAscent pixelData width in
    let descent := getDescent pixelData width in
    _ ← displayCanvas ctx;
    mret (getHeight descent ascent).

(** [calculate] *)
Definition calculate (properties : loc) (text : option jsstring) : M loc :=
  properties ← mergeWithDefaults properties;
  height ← measureTextHeight properties text;
  props ← read properties;
  fontSize ← lift (getFontSize props);
  let capHeight := num_div height fontSize in
  _ ← write properties (<["cap-height" := VNum capHeight]> props);
  mret properties.

(** [setContainer]: [return container = element]. *)
Definition setContainer (element : option (list canvas))
  : M (option (list canvas)) := fun s =>
  (State (heap s) element, inr element).

(** [calculate(null, text)]: [_.merge(defaults, null)] has no source to
    copy from and returns the new defaults object; the rest is
    [calculate]. *)
Definition calculateNull (text : option jsstring) : M loc :=
  properties ← alloc defaults;
  height ← measureTextHeight properties text;
  props ← read properties;
  fontSize ← lift (getFontSize props);
  let capHeight := num_div height fontSize in
  _ ← write properties (<["cap-height" := VNum capHeight]> props);
  mret properties.

(** [_fvd.parse], of the fvd package: the font properties an fvd string
    stands for, as a new object, or [null] for a string that is not an
    fvd. *)
Variable fvd_parse : jsstring -> option object.

(** The listener [fontActive(callback, text)] returns, applied to a
    family name and an fvd string.  On [null], [_.set] sets nothing and
    returns [null], which is then what [calculate] is given. *)
Definition fontActive {A} (callback : loc -> M A) (text : option jsstring)
    (familyName fvd : jsstring) : M A :=
  match fvd_parse fvd with
  | Some described =>
      parsed ← alloc described;
      described ← read parsed;
      _ ← write parsed (<["font-family" := VStr familyName]> described);
      properties ← calculate parsed text;
      callback properties
  | None =>
      properties ← calculateNull text;
      callback properties
  end.

End WithHost.

End Legacy.

(** ** The ES6 variant *)

Module Primary.

(** 0.75 *)
Definition THRESHOLD : number := Fin (3 # 4).
Definition CANVAS_MARGIN : number := of_Z 10.
Definition MULTIPLIER : number := of_Z 2.

Record dimensions : Type := Dimensions { width : number; height : number }.

Record metrics : Type := Metrics { ascent : number; descent : number }.

(** [isNotWhite]: [value < 255 * THRESHOLD] *)
Definition isNotWhite (value : Z) : bool :=
  num_ltb (of_Z value) (num_mul (of_Z 255) THRESHOLD).

(** [getYPosition]: [_.floor((index / 4) / width)] *)
Definition getYPosition (index width : number) : number :=
  num_floor (num_div (num_div index (of_Z 4)) width).

Definition getAscent (pixelData : list Z) (width : number) : number :=
  let index := findIndex isNotWhite pixelData in
  getYPosition (of_Z index) width.

Definition getDescent (pixelData : list Z) (width : number) : number :=
  let index := findLastIndex isNotWhite pixelData in
  getYPosition (of_Z index) width.

(** [getHeight]: [descent - ascent + 1] *)
Definition getHeight (m : metrics) : number :=
  num_add (num_sub (descent m) (ascent m)) (of_Z 1).

(** [getFontSize]: [_.toNumber] of the digits of the font size.  The
    source builds a lodash chain, which runs when the number is used;
    this is what it evaluates to, or throws, at each use. *)
Definition getFontSize (properties : object) : error + number :=
  let fontSize :=
    toNumber (strip_non_digits
                (to_string (get properties "font-size" (VNum (of_Z 0))))) in
  if isNaN fontSize then inl InvalidFontSize
  else if is_zero fontSize then inl ZeroFontSize
  else inr fontSize.

(** [composeFontProperty]: [_.at] reads the four keys and [join] prints
    an absent value as the empty string. *)
Definition composeFontProperty (properties : object) : jsstring :=
  join_space ((fun k => from_option to_string [] (properties !! k)) <$> font_keys).

Definition px (n : number) : value := VStr (number_to_string n ++ js "px").

(** [createCanvas]: the CSS size is the logical size, with a margin; the
    backing store has the physical size. *)
Definition createCanvas (dims physicalDimensions : dimensions) : canvas :=
  let style : object :=
    <["width" := px (width dims)]>
      (<["height" := px (height dims)]> (<["margin" := px CANVAS_MARGIN]> ∅)) in
  Canvas (width physicalDimensions) (height physicalDimensions) style [].

Definition drawContext (context : canvas) (properties : object)
    (dims : dimensions) (text : jsstring) : canvas :=
  foldl (fun c op => draw op c) context
    [ SetFillStyle "white";
      FillRect (of_Z 0) (of_Z 0) (width dims) (height dims);
      SetFont (composeFontProperty properties);
      SetFillStyle "black";
      SetTextAlign "center";
      SetTextBaseline "middle";
      FillText text (num_div (width dims) (of_Z 2)) (num_div (height dims) (of_Z 2)) ].

Section WithHost.
Variable host : Host.

Definition DPR : number := devicePixelRatio host.

(** [toPx]: physical to CSS pixels. *)
Definition toPx (value : number) : number := num_div value DPR.

(** [toDot]: CSS to physical pixels. *)
Definition toDot (value : number) : number := num_mul value DPR.

(** The logical size of the raster for a font size and a text. *)
Definition logicalDimensions (fontSize : number) (text : jsstring) : dimensions :=
  let base := num_mul MULTIPLIER fontSize in
  Dimensions (num_mul base (of_Z (Z.of_nat (length text)))) base.

(** [_.mapValues(dimensions, toDot)] *)
Definition toPhysical (dims : dimensions) : dimensions :=
  Dimensions (toDot (width dims)) (toDot (height dims)).

(** [getContext]: the context, scaled by the device pixel ratio. *)
Definition getContext (c : canvas) : canvas := draw (Scale DPR DPR) c.

(** [getMetrics] *)
Definition getMetrics (context : canvas) (physicalDimensions : dimensions)
  : M metrics :=
  pixelData ← getPixelData host context
                (width physicalDimensions) (height physicalDimensions);
  mret (Metrics (getAscent pixelData (width physicalDimensions))
                (getDescent pixelData (width physicalDimensions))).

(** The canvas as drawn when its pixels are read back. *)
Definition raster (props : object) (fontSize : number) (text : jsstring) : canvas :=
  let dims := logicalDimensions fontSize text in
  drawContext (getContext (createCanvas dims (toPhysical dims))) props dims text.

(** The metrics scanned from a pixel buffer of the given physical size. *)
Definition scan (pixelData : list Z) (physicalDimensions : dimensions) : metrics :=
  Metrics (getAscent pixelData (width physicalDimensions))
          (getDescent pixelData (width physicalDimensions)).

(** The canvas as displayed: the raster with the cap-height bounds
    marked. *)
Definition marked (context : canvas) (m : metrics) (physicalDimensions : dimensions)
  : canvas :=
  draw (FillRect (of_Z 0) (toPx (ascent m))
                 (toPx (width physicalDimensions)) (toPx (getHeight m)))
       (draw (SetFillStyle "rgba(255, 85, 51, .1)") context).

(** [measureTextHeight]; an absent text is ['H'].  The font size is
    used, and so the chain of [getFontSize] run, twice: for the base
    size on the first lines and for the ratio at the end. *)
Definition measureTextHeight (text : option jsstring) (properties : loc)
  : M loc :=
  let text := default (js "H") text in
  props ← read properties;
  fontSize ← lift (getFontSize props);
  if test_whitespace text then throw WhitespaceText
  else
    let dims := logicalDimensions fontSize text in
    let physicalDimensions := toPhysical dims in
    let canvas := createCanvas dims physicalDimensions in
    let context := getContext canvas in
    let context := drawContext context props dims text in
    metrics ← getMetrics context physicalDimensions;
    let capHeight := getHeight metrics in
    let context :=
      draw (FillRect (of_Z 0) (toPx (ascent metrics))
                     (toPx (width physicalDimensions)) (toPx capHeight))
           (draw (SetFillStyle "rgba(255, 85, 51, .1)") context) in
    _ ← displayCanvas context;
    props ← read properties;
    fontSize ← lift (getFontSize props);
    _ ← write properties
          (<["--cap-height" := VNum (num_div (toPx capHeight) fontSize)]> props);
    mret properties.

(** [calculate]: [_.defaults] writes the missing defaults into the
    given object, which [measureTextHeight] then extends and returns. *)
Definition calculate (properties : loc) (text : option jsstring) : M loc :=
  let text := default (js "H") text in
  given ← read properties;
  _ ← write properties (given ∪ defaults);
  measureTextHeight (Some text) properties.

(** [calculate(null, text)]: [_.defaults] turns [null] into a new empty
    object, [Object(null)], and fills it; the rest is [calculate]. *)
Definition calculateNull (text : option jsstring) : M loc :=
  properties ← alloc (∅ : object);
  calculate properties text.

(** [_fvd.parse], of the fvd package: the font properties an fvd string
    stands for, as a new object, or [null] for a string that is not an
    fvd. *)
Variable fvd_parse : jsstring -> option object.

(** The listener [fontActive(callback, text)] returns, applied to a
    family name and an fvd string; what the chain it commits holds is the
    result of the callback.  On [null], [_.set] sets nothing and returns
    [null], which is then what [calculate] is given. *)
Definition fontActive {A} (callback : loc -> M A) (text : option jsstring)
    (familyName fvd : jsstring) : M A :=
  match fvd_parse fvd with
  | Some described =>
      parsed ← alloc described;
      described ← read parsed;
      _ ← write parsed (<["font-family" := VStr familyName]> described);
      properties ← calculate parsed text;
      callback properties
  | None =>
      properties ← calculateNull text;
      callback properties
  end.

(** [_.pick(object, paths)]: a new object with the paths the given one
    has. *)
Definition pick (o : object) (paths : list string) : object :=
  foldl (fun picked k =>
           match o !! k with
           | Some v => <[k := v]> picked
           | None => picked
           end) ∅ paths.

(** [window.getComputedStyle], on the elements of the page. *)
Variable Element : Type.
Variable getComputedStyle : Element -> object.

(** [inspect(element, text)]: [calculate] on the font properties of the
    computed style of an element. *)
Definition inspect (element : Element) (text : option jsstring) : M loc :=
  picked ← alloc (pick (getComputedStyle element) font_keys);
  calculate picked text.

End WithHost.

End Primary.

(** ** The first variant

    The scan of the first published module, which truncates where the
    later ones floor. *)

Module Original.

(** [x | 0]: the integer part, wrapped to 32 bits; 0 for NaN and the
    infinities. *)
Definition toInt32 (a : number) : number :=
  match a with
  | Fin q =>
      let t := Z.quot (Qnum q) (Z.pos (Qden q)) in
      of_Z ((t + 2 ^ 31) mod 2 ^ 32 - 2 ^ 31)
  | _ => of_Z 0
  end.

(** [isBlack] *)
Definition isBlack (value : Z) : bool := value =? 0.

(** [getYPosition]: [i / (width * 4) | 0] *)
Definition getYPosition (i width : number) : number :=
  toInt32 (num_div i (num_mul width (of_Z 4))).

Definition getAscent (pixelData : list Z) (width : number) : number :=
  let i := findIndex isBlack pixelData in
  getYPosition (of_Z i) width.

Definition getDescent (pixelData : list Z) (width : number) : number :=
  let i := findLastIndex isBlack pixelData in
  getYPosition (of_Z i) width.

(** [getHeight]: [descent + 1 - ascent] *)
Definition getHeight (descent ascent : number) : number :=
  num_sub (num_add descent (of_Z 1)) ascent.

End Original.

(** ** Doubles

    The height formulas and the pixel conversions over IEEE 754 binary64,
    the numbers of the host, with the operations of [SpecFloat]: every
    result is rounded to the nearest double, ties to even. *)

Module Double.

Definition prec : Z := 53.
Definition emax : Z := 1024.

Definition double : Type := SpecFloat.spec_float.

(** The double nearest to an integer. *)
Definition of_Z (z : Z) : double := SpecFloat.binary_normalize prec emax z 0 false.

Definition add (a b : double) : double := SpecFloat.SFadd prec emax a b.
Definition sub (a b : double) : double := SpecFloat.SFsub prec emax a b.
Definition mul (a b : double) : double := SpecFloat.SFmul prec emax a b.
Definition div (a b : double) : double := SpecFloat.SFdiv prec emax a b.

(** The double of sign [s] and magnitude [v], for [v] of at most 53
    digits: the mantissa is [v] shifted up to 53 digits. *)
Definition normal (s : bool) (v : positive) : double :=
  let d := Z.pos (SpecFloat.digits2_pos v) in
  SpecFloat.S754_finite s (Z.to_pos (Z.pos v * 2 ^ (53 - d))) (d - 53).

(** A mantissa on its way through the rounding, with nothing shifted out
    of it. *)
Definition unrounded (m : Z) : SpecFloat.shr_record :=
  SpecFloat.Build_shr_record m false false.

Module Legacy.

(** [getHeight]: [descent + 1 - ascent] *)
Definition getHeight (descent ascent : double) : double :=
  sub (add descent (of_Z 1)) ascent.

End Legacy.

Module Primary.

(** [getHeight]: [descent - ascent + 1], on the two metrics. *)
Definition getHeight (ascent descent : double) : double :=
  add (sub descent ascent) (of_Z 1).

(** [toPx] and [toDot], for a device pixel ratio [DPR]. *)
Definition toPx (DPR value : double) : double := div value DPR.
Definition toDot (DPR value : double) : double := mul value DPR.

End Primary.

End Double.

(** ** Synthetic hosts

    Buffers and hosts to run the embedded code on: a band of foreground
    rows on a background page. *)

(** One row of [W] pixels with every channel [v]. *)
Definition solid_row (W : nat) (v : Z) : list Z := replicate (4 * W) v.

(** [H] rows of width [W]: rows [r0..r1] hold [fg], the others [bg]. *)
Definition band_buffer (W H r0 r1 : nat) (fg bg : Z) : list Z :=
  mjoin ((fun r => solid_row W (if (r0 <=? r)%nat && (r <=? r1)%nat then fg else bg))
           <$> seq 0 H).

(** The integer part of a size, as a count. *)
Definition pixels (n : number) : nat :=
  match n with
  | Fin q => Z.to_nat (Qfloor q)
  | _ => O
  end.

(** A host of the given pixel ratio that renders any text as a band of
    black rows [r0..r1] on white, and raises on an empty rectangle. *)
Definition band_host (dpr : number) (r0 r1 : nat) : Host :=
  {| devicePixelRatio := dpr;
     getImageData := fun _ w h =>
       if ((pixels w =? 0) || (pixels h =? 0))%nat then None
       else Some (band_buffer (pixels w) (pixels h) r0 r1 0 255) |}.

(** A host that renders nothing: every page stays white. *)
Definition blank_host (dpr : number) : Host :=
  {| devicePixelRatio := dpr;
     getImageData := fun _ w h =>
       if ((pixels w =? 0) || (pixels h =? 0))%nat then None
       else Some (replicate (4 * pixels w * pixels h) 255) |}.

(** A store with one object, at reference 0, and no container. *)
Definition store_of (o : object) : state := State {[ 0%nat := o ]} None.

(** A record that gives a font size of two pixels only. *)
Definition two_px : object := {[ "font-size" := VStr (js "2px") ]}.

(** The object a computation returns, looked up in the store it leaves. *)
Definition result_object (r : state * (error + loc)) : option object :=
  match r with
  | (s, inr l) => heap s !! l
  | (_, inl _) => None
  end.

(** ** Rows of a pixel buffer

    The buffer is row-major with four channel values per pixel: row [r] of
    a buffer of width [W] is the slice of [4 * W] values from [4 * W * r]. *)

Definition buffer_row (data : list Z) (W r : nat) : list Z :=
  take (4 * W) (drop (4 * W * r) data).

Definition row_has_foreground (fg : Z -> bool) (data : list Z) (W r : nat) : bool :=
  existsb fg (buffer_row data W r).

(** Exactly the rows [r0..r1] hold a foreground channel value. *)
Definition foreground_rows (fg : Z -> bool) (data : list Z) (W r0 r1 : nat) : Prop :=
  forall r, row_has_foreground fg data W r = true <-> (r0 <= r <= r1)%nat.

(** The same, decided on a buffer of [H] rows. *)
Definition foreground_rows_dec (fg : Z -> bool) (data : list Z) (W H r0 r1 : nat)
  : bool :=
  (length data =? 4 * W * H)%nat && (r1 <? H)%nat
  && forallb (fun r => Bool.eqb (row_has_foreground fg data W r)
                                ((r0 <=? r)%nat && (r <=? r1)%nat))
             (seq 0 H).

(** No channel value of the buffer is foreground. *)
Definition no_foreground (fg : Z -> bool) (data : list Z) : Prop :=
  forall x, x ∈ data -> fg x = false.

(** A text that trimming leaves empty: it holds whitespace only. *)
Definition empty_after_trim (text : jsstring) : bool := forallb is_whitespace text.

(** A size of at least one pixel. *)
Definition at_least_one_pixel (n : number) : Prop :=
  exists w : Q, n = Fin w /\ (1 <= w)%Q.

(** What a scan returns: -1 when nothing matches, otherwise the index of a
    match with no match before it ([first_hit]) or after it ([last_hit]). *)
Inductive first_hit {A} (p : A -> bool) (l : list A) : Z -> Prop :=
  | first_none : (forall x, x ∈ l -> p x = false) -> first_hit p l (-1)
  | first_at k x :
      l !! k = Some x -> p x = true ->
      (forall j y, (j < k)%nat -> l !! j = Some y -> p y = false) ->
      first_hit p l (Z.of_nat k).

Inductive last_hit {A} (p : A -> bool) (l : list A) : Z -> Prop :=
  | last_none : (forall x, x ∈ l -> p x = false) -> last_hit p l (-1)
  | last_at k x :
      l !! k = Some x -> p x = true ->
      (forall j y, (k < j)%nat -> l !! j = Some y -> p y = false) ->
      last_hit p l (Z.of_nat k).

(** * Properties *)

(** ** Scans *)

Section Scan.
Context {A : Type} (p : A -> bool).

Lemma findIndex_from_spec (l : list A) (i : Z) :
  (findIndex_from p l i = -1 /\ forall x, x ∈ l -> p x = false)
  \/ (exists k x,
        findIndex_from p l i = i + Z.of_nat k /\ l !! k = Some x /\ p x = true
        /\ forall j y, (j < k)%nat -> l !! j = Some y -> p y = false).
Proof.
  revert i. induction l as [|a l IH]; intros i; simpl.
  - left. split; [reflexivity|]. intros x Hx. by apply elem_of_nil in Hx.
  - destruct (p a) eqn:Ha.
    + right. exists 0%nat, a. repeat split; [lia|done|]. intros j y Hj. lia.
    + destruct (IH (i + 1)) as [[Hr Hall]|(k & x & Hr & Hk & Hx & Hbefore)].
      * left. split; [done|]. intros x [->|Hx]%elem_of_cons; auto.
      * right. exists (S k), x. repeat split; [lia|done|done|].
        intros [|j] y Hj Hy; simpl in Hy; [by simplify_eq|].
        apply (Hbefore j); [lia|done].
Qed.

Lemma findIndex_spec (l : list A) : first_hit p l (findIndex p l).
Proof.
  unfold findIndex.
  destruct (findIndex_from_spec l 0) as [[-> Hall]|(k & x & -> & Hk & Hx & Hb)].
  - by constructor.
  - rewrite Z.add_0_l. by econstructor.
Qed.

Lemma findLastIndex_spec (l : list A) : last_hit p l (findLastIndex p l).
Proof.
  unfold findLastIndex.
  destruct (findIndex_spec (reverse l)) as [Hall|k x Hk Hx Hbefore].
  - simpl. constructor. intros x Hx. apply Hall. by apply elem_of_reverse.
  - pose proof (lookup_lt_Some _ _ _ Hk) as Hlt. rewrite length_reverse in Hlt.
    rewrite reverse_lookup in Hk by done.
    replace (Z.of_nat k =? -1) with false by (symmetry; apply Z.eqb_neq; lia).
    replace (Z.of_nat (length l) - 1 - Z.of_nat k)
      with (Z.of_nat (length l - S k)) by lia.
    econstructor; [done|done|].
    intros j y Hj Hy. pose proof (lookup_lt_Some _ _ _ Hy) as Hjl.
    apply (Hbefore (length l - S j)%nat); [lia|].
    rewrite reverse_lookup by lia.
    by replace (length l - S (length l - S j))%nat with j by lia.
Qed.

(** A match anywhere in the list bounds both scans. *)
Lemma scans_bracket (l : list A) (k : nat) (x : A) :
  l !! k = Some x -> p x = true ->
  0 <= findIndex p l <= Z.of_nat k
  /\ Z.of_nat k <= findLastIndex p l < Z.of_nat (length l).
Proof.
  intros Hk Hx. split.
  - destruct (findIndex_spec l) as [Hall|k' x' Hk' Hx' Hb].
    + rewrite (Hall x) in Hx; [done|]. by eapply list_elem_of_lookup_2.
    + split; [lia|]. destruct (decide (k' <= k)%nat); [lia|].
      rewrite (Hb k x) in Hx; [done|lia|done].
  - destruct (findLastIndex_spec l) as [Hall|k' x' Hk' Hx' Hb].
    + rewrite (Hall x) in Hx; [done|]. by eapply list_elem_of_lookup_2.
    + apply lookup_lt_Some in Hk'. split; [|lia].
      destruct (decide (k <= k')%nat); [lia|].
      rewrite (Hb k x) in Hx; [done|lia|done].
Qed.

Lemma findIndex_none (l : list A) :
  (forall x, x ∈ l -> p x = false) -> findIndex p l = -1.
Proof.
  intros Hall. destruct (findIndex_spec l) as [_|k x Hk Hx _]; [done|].
  rewrite (Hall x) in Hx; [done|]. by eapply list_elem_of_lookup_2.
Qed.

Lemma findLastIndex_none (l : list A) :
  (forall x, x ∈ l -> p x = false) -> findLastIndex p l = -1.
Proof.
  intros Hall. destruct (findLastIndex_spec l) as [_|k x Hk Hx _]; [done|].
  rewrite (Hall x) in Hx; [done|]. by eapply list_elem_of_lookup_2.
Qed.

End Scan.

(** ** Rows *)

Section Rows.
Variable fg : Z -> bool.

Lemma row_has_foreground_true (data : list Z) (W r : nat) :
  row_has_foreground fg data W r = true
  <-> exists x, x ∈ buffer_row data W r /\ fg x = true.
Proof.
  unfold row_has_foreground. rewrite existsb_exists.
  by setoid_rewrite list_elem_of_In.
Qed.

(** The value at flat index [k] lies in row [k / (4 * W)]. *)
Lemma buffer_row_of_index (data : list Z) (W k : nat) (x : Z) :
  (0 < W)%nat -> data !! k = Some x ->
  x ∈ buffer_row data W (k / (4 * W)).
Proof.
  intros HW Hk. apply list_elem_of_lookup. exists (k mod (4 * W))%nat.
  unfold buffer_row. rewrite lookup_take_lt by (apply Nat.mod_upper_bound; lia).
  rewrite lookup_drop. by rewrite <- Nat.div_mod_eq.
Qed.

(** A value of row [r] sits at a flat index of that row. *)
Lemma buffer_row_index (data : list Z) (W r : nat) (x : Z) :
  x ∈ buffer_row data W r ->
  exists k, data !! k = Some x /\ (4 * W * r <= k < 4 * W * (r + 1))%nat.
Proof.
  intros [i Hi]%list_elem_of_lookup. unfold buffer_row in Hi.
  apply lookup_take_Some in Hi as [Hi Hlt]. rewrite lookup_drop in Hi.
  exists (4 * W * r + i)%nat. split; [done|lia].
Qed.

Lemma row_of_index_bounds (W r k : nat) :
  (0 < W)%nat -> (4 * W * r <= k < 4 * W * (r + 1))%nat -> (k / (4 * W) = r)%nat.
Proof.
  intros HW [Hlo Hhi]. symmetry. apply (Nat.div_unique k (4 * W) r (k - 4 * W * r)); lia.
Qed.

(** On a buffer whose foreground rows are exactly [r0..r1], the forward
    scan stops in row [r0] and the backward scan in row [r1]. *)
Lemma band_scans (data : list Z) (W r0 r1 : nat) :
  (0 < W)%nat -> (r0 <= r1)%nat -> foreground_rows fg data W r0 r1 ->
  exists i j : nat,
    findIndex fg data = Z.of_nat i /\ findLastIndex fg data = Z.of_nat j
    /\ (i / (4 * W) = r0)%nat /\ (j / (4 * W) = r1)%nat.
Proof.
  intros HW Hr Hrows.
  assert (Hin : forall k x, data !! k = Some x -> fg x = true ->
                            (r0 <= k / (4 * W) <= r1)%nat).
  { intros k x Hk Hx. apply Hrows, row_has_foreground_true.
    exists x. split; [by apply buffer_row_of_index|done]. }
  assert (Hrow : forall r, (r0 <= r <= r1)%nat ->
                 exists k x, data !! k = Some x /\ fg x = true
                             /\ (k / (4 * W) = r)%nat).
  { intros r Hb. apply Hrows, row_has_foreground_true in Hb as (x & Hx & Hfg).
    apply buffer_row_index in Hx as (k & Hk & Hbounds).
    exists k, x. repeat split; [done|done|by apply row_of_index_bounds]. }
  destruct (Hrow r0) as (k0 & x0 & Hk0 & Hx0 & Hq0); [lia|].
  destruct (Hrow r1) as (k1 & x1 & Hk1 & Hx1 & Hq1); [lia|].
  destruct (scans_bracket fg data k0 x0 Hk0 Hx0) as [[Hlo Hhi] _].
  destruct (scans_bracket fg data k1 x1 Hk1 Hx1) as [_ [Hlo' Hhi']].
  destruct (findIndex_spec fg data) as [|i x Hi Hx _]; [lia|].
  destruct (findLastIndex_spec fg data) as [|j y Hj Hy _]; [lia|].
  exists i, j. repeat split.
  - pose proof (Hin i x Hi Hx).
    assert (i / (4 * W) <= k0 / (4 * W))%nat by (apply Nat.Div0.div_le_mono; lia).
    lia.
  - pose proof (Hin j y Hj Hy).
    assert (k1 / (4 * W) <= j / (4 * W))%nat by (apply Nat.Div0.div_le_mono; lia).
    lia.
Qed.

(** The decision procedure is sound. *)
Lemma foreground_rows_dec_sound (data : list Z) (W H r0 r1 : nat) :
  foreground_rows_dec fg data W H r0 r1 = true ->
  foreground_rows fg data W r0 r1.
Proof.
  unfold foreground_rows_dec. intros Hdec.
  apply andb_prop in Hdec as [Hdec Hall]. apply andb_prop in Hdec as [Hlen Hr1].
  apply Nat.eqb_eq in Hlen. apply Nat.ltb_lt in Hr1.
  rewrite forallb_forall in Hall. intros r.
  destruct (decide (r < H)%nat) as [Hlt|Hge].
  - specialize (Hall r). rewrite in_seq in Hall.
    specialize (Hall ltac:(lia)). apply Bool.eqb_prop in Hall. rewrite Hall.
    rewrite andb_true_iff, Nat.leb_le, Nat.leb_le. done.
  - split; [|lia]. intros (x & Hx & _)%row_has_foreground_true.
    apply buffer_row_index in Hx as (k & Hk & Hb).
    apply lookup_lt_Some in Hk. nia.
Qed.

End Rows.

(** ** Row arithmetic *)

Lemma Qsign_inject_Z_pos (z : Z) : 0 < z -> Qsign (inject_Z z) = Gt.
Proof. intros Hz. unfold Qsign. simpl. by apply Z.compare_gt_iff. Qed.

Lemma num_div_pos (p q : Q) :
  Qsign q = Gt -> num_div (Fin p) (Fin q) = Fin (p / q).
Proof. intros Hq. unfold num_div. by rewrite Hq. Qed.

(** The primary row formula is integer division by [4 * W]. *)
Lemma primary_row_is_div (i W : Z) :
  0 < W -> Primary.getYPosition (of_Z i) (of_Z W) = of_Z (i / (4 * W)).
Proof.
  intros HW. unfold Primary.getYPosition, of_Z.
  rewrite !num_div_pos by (apply Qsign_inject_Z_pos; lia).
  unfold num_floor. do 2 f_equal.
  rewrite Zdiv_Qdiv. apply Qfloor_comp. rewrite inject_Z_mult.
  assert (~ inject_Z W == 0)%Q by (rewrite (inject_Z_injective W 0); lia).
  field. done.
Qed.

(** The legacy row formula is the same division. *)
Lemma legacy_row_is_div (i W : Z) :
  0 < W -> Legacy.getYPosition (of_Z i) (of_Z W) = of_Z (i / (4 * W)).
Proof.
  intros HW. unfold Legacy.getYPosition, of_Z.
  change (num_mul (Fin (inject_Z W)) (Fin (inject_Z 4)))
    with (Fin (inject_Z W * inject_Z 4)).
  rewrite <- inject_Z_mult.
  rewrite num_div_pos by (apply Qsign_inject_Z_pos; lia).
  unfold num_floor. do 2 f_equal. rewrite Zdiv_Qdiv. by rewrite (Z.mul_comm 4 W).
Qed.

(** Both height formulas on integer rows. *)
Lemma primary_height_of_rows (a d : Z) :
  Primary.getHeight (Primary.Metrics (of_Z a) (of_Z d)) = of_Z (d - a + 1).
Proof.
  unfold Primary.getHeight, of_Z, num_sub, num_add, num_neg, inject_Z,
    Qplus, Qopp, Qnum, Qden. simpl. do 2 f_equal. lia.
Qed.

Lemma legacy_height_of_rows (a d : Z) :
  Legacy.getHeight (of_Z d) (of_Z a) = of_Z (d - a + 1).
Proof.
  unfold Legacy.getHeight, of_Z, num_sub, num_add, num_neg, inject_Z,
    Qplus, Qopp, Qnum, Qden. simpl. do 2 f_equal. lia.
Qed.

(** C1 — Row-mapping round trip: on a pixel buffer of width [W] whose
    foreground rows are exactly [r0..r1], the forward scan mapped through
    the row formula gives ascent [r0], the backward scan gives descent
    [r1], and the height is [r1 - r0 + 1].  This holds for the threshold
    scanner with [floor((index / 4) / W)] and for the exact-match scanner
    with [floor(i / (W * 4))]. *)
Theorem row_mapping_round_trip (data : list Z) (W r0 r1 : nat) :
  (0 < W)%nat -> (r0 <= r1)%nat ->
  (foreground_rows Primary.isNotWhite data W r0 r1 ->
   let ascent := Primary.getAscent data (of_Z (Z.of_nat W)) in
   let descent := Primary.getDescent data (of_Z (Z.of_nat W)) in
   ascent = of_Z (Z.of_nat r0) /\ descent = of_Z (Z.of_nat r1)
   /\ Primary.getHeight (Primary.Metrics ascent descent)
      = of_Z (Z.of_nat r1 - Z.of_nat r0 + 1))
  /\ (foreground_rows Legacy.isBlack data W r0 r1 ->
      let ascent := Legacy.getAscent data (of_Z (Z.of_nat W)) in
      let descent := Legacy.getDescent data (of_Z (Z.of_nat W)) in
      ascent = of_Z (Z.of_nat r0) /\ descent = of_Z (Z.of_nat r1)
      /\ Legacy.getHeight descent ascent = of_Z (Z.of_nat r1 - Z.of_nat r0 + 1)).
Proof.
  intros HW Hr.
  assert (Hdiv : forall k r : nat, (k / (4 * W))%nat = r ->
                 Z.of_nat k / (4 * Z.of_nat W) = Z.of_nat r).
  { intros k r <-. rewrite Nat2Z.inj_div. f_equal. lia. }
  split; intros Hrows;
    destruct (band_scans _ data W r0 r1 HW Hr Hrows) as (i & j & Hi & Hj & Hri & Hrj);
    cbv zeta.
  - unfold Primary.getAscent, Primary.getDescent. rewrite Hi, Hj.
    rewrite !primary_row_is_div by lia.
    rewrite (Hdiv i r0 Hri), (Hdiv j r1 Hrj).
    by rewrite primary_height_of_rows.
  - unfold Legacy.getAscent, Legacy.getDescent. rewrite Hi, Hj.
    rewrite !legacy_row_is_div by lia.
    rewrite (Hdiv i r0 Hri), (Hdiv j r1 Hrj).
    by rewrite legacy_height_of_rows.
Qed.

Lemma row_mapping_round_trip_witness :
  let data := band_buffer 2 4 1 2 0 255 in
  (Primary.getAscent data (of_Z 2) = of_Z 1 /\ Primary.getDescent data (of_Z 2) = of_Z 2
   /\ Primary.getHeight
        (Primary.Metrics (Primary.getAscent data (of_Z 2))
                         (Primary.getDescent data (of_Z 2))) = of_Z 2)
  /\ (Legacy.getAscent data (of_Z 2) = of_Z 1 /\ Legacy.getDescent data (of_Z 2) = of_Z 2
      /\ Legacy.getHeight (Legacy.getDescent data (of_Z 2))
                          (Legacy.getAscent data (of_Z 2)) = of_Z 2).
Proof.
  pose proof (row_mapping_round_trip (band_buffer 2 4 1 2 0 255) 2 1 2
                ltac:(lia) ltac:(lia)) as [Hp Hl].
  split.
  - apply Hp. apply (foreground_rows_dec_sound _ _ 2 4). reflexivity.
  - apply Hl. apply (foreground_rows_dec_sound _ _ 2 4). reflexivity.
Defined.

(** ** Runs of [calculate] *)

Lemma displayCanvas_run (c : canvas) (s : state) :
  displayCanvas c s = (State (heap s) (displayed c (container s)), inr tt).
Proof. unfold displayCanvas, displayed. by destruct s as [h [ch|]]. Qed.

(** The pure parts stay folded while a run is stepped through. *)
#[local] Opaque js test_whitespace num_div num_mul num_add num_sub num_floor.
#[local] Opaque Primary.getFontSize Primary.logicalDimensions Primary.toPhysical
  Primary.drawContext Primary.getContext Primary.createCanvas Primary.getHeight
  Primary.getAscent Primary.getDescent Primary.toPx.
#[local] Opaque Legacy.getFontSize Legacy.drawContext Legacy.createCanvas
  Legacy.getHeight Legacy.getAscent Legacy.getDescent Legacy.text_or_H.

Section PrimaryRuns.
Variable host : Host.
Variables (s : state) (p : loc) (given : object).
Hypothesis Hgiven : heap s !! p = Some given.

Let props : object := given ∪ defaults.

(** A font-size error leaves the defaults written and returns nothing. *)
Lemma primary_calculate_font_error (text : option jsstring) (e : error) :
  Primary.getFontSize props = inl e ->
  Primary.calculate host p text s
  = (State (<[p := props]> (heap s)) (container s), inl e).
Proof.
  intros He. unfold Primary.calculate, Primary.measureTextHeight.
  unfold mbind, M_bind, read, write, lift. rewrite Hgiven. cbn.
  rewrite lookup_insert_eq. fold props. by rewrite He.
Qed.

(** So does a text with whitespace in it. *)
Lemma primary_calculate_whitespace (text : option jsstring) (fontSize : number) :
  Primary.getFontSize props = inr fontSize ->
  test_whitespace (default (js "H") text) = true ->
  Primary.calculate host p text s
  = (State (<[p := props]> (heap s)) (container s), inl WhitespaceText).
Proof.
  intros Hf Hws. unfold Primary.calculate, Primary.measureTextHeight.
  unfold mbind, M_bind, read, write, lift. rewrite Hgiven. cbn.
  rewrite lookup_insert_eq. fold props. rewrite Hf. cbn. by rewrite Hws.
Qed.

(** A run that gets its pixels returns the given reference, with the
    ratio stored under [--cap-height]. *)
Lemma primary_calculate_run (text : option jsstring) (fontSize : number)
    (data : list Z) :
  let t := default (js "H") text in
  let phys := Primary.toPhysical host (Primary.logicalDimensions fontSize t) in
  let context := Primary.raster host props fontSize t in
  let m := Primary.scan data phys in
  Primary.getFontSize props = inr fontSize ->
  test_whitespace t = false ->
  getImageData host context (Primary.width phys) (Primary.height phys) = Some data ->
  Primary.calculate host p text s
  = (State (<[p := <["--cap-height" :=
                       VNum (num_div (Primary.toPx host (Primary.getHeight m)) fontSize)]>
                    props]> (heap s))
           (displayed (Primary.marked host context m phys) (container s)),
     inr p).
Proof.
  intros t phys context m Hf Hws Hdata. subst t phys context m.
  unfold Primary.raster, Primary.scan, Primary.marked in *.
  unfold Primary.calculate, Primary.measureTextHeight, Primary.getMetrics.
  unfold mbind, M_bind, read, write, lift, getPixelData. rewrite Hgiven. cbn.
  rewrite lookup_insert_eq. fold props. rewrite Hf. cbn. rewrite Hws.
  rewrite Hdata. unfold mret, M_ret. cbn. rewrite displayCanvas_run. cbn.
  rewrite lookup_insert_eq. fold props. rewrite Hf.
  cbn [heap container]. by rewrite insert_insert_eq.
Qed.

(** When the host raises, nothing but the defaults is written. *)
Lemma primary_calculate_host_failure (text : option jsstring) (fontSize : number) :
  let t := default (js "H") text in
  let phys := Primary.toPhysical host (Primary.logicalDimensions fontSize t) in
  Primary.getFontSize props = inr fontSize ->
  test_whitespace t = false ->
  getImageData host (Primary.raster host props fontSize t)
    (Primary.width phys) (Primary.height phys) = None ->
  Primary.calculate host p text s
  = (State (<[p := props]> (heap s)) (container s), inl HostFailure).
Proof.
  intros t phys Hf Hws Hdata. subst t phys. unfold Primary.raster in *.
  unfold Primary.calculate, Primary.measureTextHeight, Primary.getMetrics.
  unfold mbind, M_bind, read, write, lift, getPixelData. rewrite Hgiven. cbn.
  rewrite lookup_insert_eq. fold props. rewrite Hf. cbn. rewrite Hws.
  by rewrite Hdata.
Qed.

(** Every successful run is of that kind. *)
Lemma primary_calculate_inv (text : option jsstring) (s' : state) (l : loc) :
  Primary.calculate host p text s = (s', inr l) ->
  let t := default (js "H") text in
  exists fontSize data,
    let phys := Primary.toPhysical host (Primary.logicalDimensions fontSize t) in
    Primary.getFontSize props = inr fontSize
    /\ test_whitespace t = false
    /\ getImageData host (Primary.raster host props fontSize t)
         (Primary.width phys) (Primary.height phys) = Some data.
Proof.
  intros Hrun t.
  destruct (Primary.getFontSize props) as [e|fontSize] eqn:Hf.
  { rewrite (primary_calculate_font_error text e Hf) in Hrun. by simplify_eq. }
  destruct (test_whitespace t) eqn:Hws.
  { rewrite (primary_calculate_whitespace text fontSize Hf Hws) in Hrun.
    by simplify_eq. }
  exists fontSize.
  destruct (getImageData host (Primary.raster host props fontSize t)
              (Primary.width (Primary.toPhysical host
                                (Primary.logicalDimensions fontSize t)))
              (Primary.height (Primary.toPhysical host
                                 (Primary.logicalDimensions fontSize t))))
    as [data|] eqn:Hdata.
  { by exists data. }
  rewrite (primary_calculate_host_failure text fontSize Hf Hws Hdata) in Hrun.
  by simplify_eq.
Qed.

End PrimaryRuns.

Section LegacyRuns.
Variable host : Host.
Variables (s : state) (p : loc) (given : object).
Hypothesis Hgiven : heap s !! p = Some given.

Let merged : object := given ∪ defaults.

(** The reference of the object [mergeWithDefaults] creates. *)
Let l : loc := fresh (dom (heap s)).

Lemma legacy_merge_run :
  Legacy.mergeWithDefaults p s
  = (State (<[l := merged]> (heap s)) (container s), inr l).
Proof.
  unfold Legacy.mergeWithDefaults, mbind, M_bind, read, alloc.
  by rewrite Hgiven.
Qed.

(** The new object is not the given one. *)
Lemma legacy_merge_fresh : l <> p /\ heap s !! l = None.
Proof.
  assert (l ∉ dom (heap s)) as Hfresh by apply is_fresh.
  split.
  - intros ->. apply Hfresh, elem_of_dom. by eexists.
  - by apply not_elem_of_dom.
Qed.

Lemma legacy_calculate_font_error (text : option jsstring) (e : error) :
  Legacy.getFontSize merged = inl e ->
  Legacy.calculate host p text s
  = (State (<[l := merged]> (heap s)) (container s), inl e).
Proof.
  intros He. unfold Legacy.calculate. unfold mbind at 1. unfold M_bind.
  rewrite legacy_merge_run. unfold Legacy.measureTextHeight.
  unfold mbind, M_bind, read, lift. cbn.
  rewrite lookup_insert_eq. fold merged. by rewrite He.
Qed.

Lemma legacy_calculate_whitespace (text : option jsstring) (fontSize : number) :
  Legacy.getFontSize merged = inr fontSize ->
  test_whitespace (Legacy.text_or_H text) = true ->
  Legacy.calculate host p text s
  = (State (<[l := merged]> (heap s)) (container s), inl WhitespaceText).
Proof.
  intros Hf Hws. unfold Legacy.calculate. unfold mbind at 1. unfold M_bind.
  rewrite legacy_merge_run. unfold Legacy.measureTextHeight.
  unfold mbind, M_bind, read, lift. cbn.
  rewrite lookup_insert_eq. fold merged. rewrite Hf. cbn. by rewrite Hws.
Qed.

(** A run that gets its pixels returns the new object, with the ratio
    stored under [cap-height]; the given object is left as it was. *)
Lemma legacy_calculate_run (text : option jsstring) (fontSize : number)
    (data : list Z) :
  let t := Legacy.text_or_H text in
  let width := Legacy.rasterWidth fontSize t in
  let context := Legacy.raster merged fontSize t in
  let height :=
    Legacy.getHeight (Legacy.getDescent data width) (Legacy.getAscent data width) in
  Legacy.getFontSize merged = inr fontSize ->
  test_whitespace t = false ->
  getImageData host context width (Legacy.rasterHeight fontSize) = Some data ->
  Legacy.calculate host p text s
  = (State (<[l := <["cap-height" := VNum (num_div height fontSize)]> merged]> (heap s))
           (displayed context (container s)),
     inr l).
Proof.
  intros t width context height Hf Hws Hdata. subst t width context height.
  unfold Legacy.raster, Legacy.rasterWidth, Legacy.rasterHeight in *.
  unfold Legacy.calculate. unfold mbind at 1. unfold M_bind.
  rewrite legacy_merge_run. unfold Legacy.measureTextHeight.
  unfold mbind, M_bind, read, write, lift, getPixelData. cbn.
  rewrite lookup_insert_eq. fold merged. rewrite Hf. cbn. rewrite Hws.
  rewrite Hdata. unfold mret, M_ret. cbn. rewrite displayCanvas_run. cbn.
  rewrite lookup_insert_eq. rewrite Hf. cbn. by rewrite insert_insert_eq.
Qed.

(** When the host raises, only the merged object has been created. *)
Lemma legacy_calculate_host_failure (text : option jsstring) (fontSize : number) :
  let t := Legacy.text_or_H text in
  Legacy.getFontSize merged = inr fontSize ->
  test_whitespace t = false ->
  getImageData host (Legacy.raster merged fontSize t)
    (Legacy.rasterWidth fontSize t) (Legacy.rasterHeight fontSize) = None ->
  Legacy.calculate host p text s
  = (State (<[l := merged]> (heap s)) (container s), inl HostFailure).
Proof.
  intros t Hf Hws Hdata. subst t.
  unfold Legacy.raster, Legacy.rasterWidth, Legacy.rasterHeight in *.
  unfold Legacy.calculate. unfold mbind at 1. unfold M_bind.
  rewrite legacy_merge_run. unfold Legacy.measureTextHeight.
  unfold mbind, M_bind, read, write, lift, getPixelData. cbn.
  rewrite lookup_insert_eq. fold merged. rewrite Hf. cbn. rewrite Hws.
  by rewrite Hdata.
Qed.

(** Every successful run is of that kind. *)
Lemma legacy_calculate_inv (text : option jsstring) (s' : state) (r : loc) :
  Legacy.calculate host p text s = (s', inr r) ->
  let t := Legacy.text_or_H text in
  exists fontSize data,
    Legacy.getFontSize merged = inr fontSize
    /\ test_whitespace t = false
    /\ getImageData host (Legacy.raster merged fontSize t)
         (Legacy.rasterWidth fontSize t) (Legacy.rasterHeight fontSize) = Some data.
Proof.
  intros Hrun t.
  destruct (Legacy.getFontSize merged) as [e|fontSize] eqn:Hf.
  { rewrite (legacy_calculate_font_error text e Hf) in Hrun. by simplify_eq. }
  destruct (test_whitespace t) eqn:Hws.
  { rewrite (legacy_calculate_whitespace text fontSize Hf Hws) in Hrun.
    by simplify_eq. }
  exists fontSize.
  destruct (getImageData host (Legacy.raster merged fontSize t)
              (Legacy.rasterWidth fontSize t) (Legacy.rasterHeight fontSize))
    as [data|] eqn:Hdata.
  { by exists data. }
  rewrite (legacy_calculate_host_failure text fontSize Hf Hws Hdata) in Hrun.
  by simplify_eq.
Qed.

End LegacyRuns.

(** [calculateNull] of the CommonJS variant as a table, on the defaults
    object it creates. *)
Lemma legacy_calculate_null_cases (host : Host) (s : state)
    (text : option jsstring) :
  let l := fresh (dom (heap s)) in
  let t := Legacy.text_or_H text in
  let failed := State (<[l := defaults]> (heap s)) (container s) in
  Legacy.calculateNull host text s
  = match Legacy.getFontSize defaults with
    | inl e => (failed, inl e)
    | inr fontSize =>
        if test_whitespace t then (failed, inl WhitespaceText)
        else
          let width := Legacy.rasterWidth fontSize t in
          let context := Legacy.raster defaults fontSize t in
          match getImageData host context width (Legacy.rasterHeight fontSize) with
          | None => (failed, inl HostFailure)
          | Some data =>
              let height := Legacy.getHeight (Legacy.getDescent data width)
                                             (Legacy.getAscent data width) in
              (State (<[l := <["cap-height" := VNum (num_div height fontSize)]>
                               defaults]> (heap s))
                     (displayed context (container s)),
               inr l)
          end
    end.
Proof.
  intros l t failed. subst t failed.
  unfold Legacy.raster, Legacy.rasterWidth, Legacy.rasterHeight.
  unfold Legacy.calculateNull, Legacy.measureTextHeight.
  unfold mbind, M_bind, alloc, read, write, lift, getPixelData.
  cbn [heap container]. fold l. rewrite lookup_insert_eq.
  destruct (Legacy.getFontSize defaults) as [e|fontSize] eqn:Hf; [done|].
  destruct (test_whitespace (Legacy.text_or_H text)); [done|].
  cbv zeta. cbn [heap container].
  destruct (getImageData host _ _ _) as [data|]; [|done].
  unfold mret, M_ret. rewrite displayCanvas_run. cbn [heap container].
  rewrite lookup_insert_eq, Hf. cbn [heap container]. by rewrite insert_insert_eq.
Qed.

#[local] Transparent js test_whitespace num_div num_mul num_add num_sub num_floor.
#[local] Transparent Primary.getFontSize Primary.logicalDimensions Primary.toPhysical
  Primary.drawContext Primary.getContext Primary.createCanvas Primary.getHeight
  Primary.getAscent Primary.getDescent Primary.toPx.
#[local] Transparent Legacy.getFontSize Legacy.drawContext Legacy.createCanvas
  Legacy.getHeight Legacy.getAscent Legacy.getDescent Legacy.text_or_H.

(** ** Numbers *)

#[global] Instance num_equiv_equivalence : Equivalence num_equiv.
Proof.
  split.
  - intros [q| | |]; simpl; done.
  - intros [p| | |] [q| | |]; simpl; try tauto. apply Qeq_sym.
  - intros [p| | |] [q| | |] [r| | |]; simpl; try tauto. apply Qeq_trans.
Qed.

Lemma Qsign_Gt (q : Q) : Qsign q = Gt <-> (0 < q)%Q.
Proof.
  unfold Qsign, Qlt. simpl. rewrite Z.mul_1_r. apply Z.compare_gt_iff.
Qed.

Lemma Qsign_Eq (q : Q) : Qsign q = Eq <-> (q == 0)%Q.
Proof.
  unfold Qsign, Qeq. simpl. rewrite Z.mul_1_r. apply Z.compare_eq_iff.
Qed.

Lemma Qsign_Lt (q : Q) : Qsign q = Lt <-> (q < 0)%Q.
Proof.
  unfold Qsign, Qlt. simpl. rewrite Z.mul_1_r. apply Z.compare_lt_iff.
Qed.

(** The sign is a property of the number, not of its representation. *)
Lemma Qsign_proper (p q : Q) : (p == q)%Q -> Qsign p = Qsign q.
Proof.
  intros Hpq. destruct (Qsign q) eqn:Hq.
  - apply Qsign_Eq. apply Qsign_Eq in Hq. by rewrite Hpq.
  - apply Qsign_Lt. apply Qsign_Lt in Hq. by rewrite Hpq.
  - apply Qsign_Gt. apply Qsign_Gt in Hq. by rewrite Hpq.
Qed.

(** Division respects the sameness of its dividend. *)
Lemma num_div_proper_l (a a' b : number) : a ≈ a' -> num_div a b ≈ num_div a' b.
Proof.
  destruct a as [p| | |], a' as [p'| | |]; simpl; try tauto; intros Hp;
    try reflexivity.
  destruct b as [q| | |]; simpl; try done.
  rewrite (Qsign_proper p p' Hp).
  destruct (Qsign q) eqn:Hq; simpl.
  - by destruct (Qsign p').
  - by rewrite Hp.
  - by rewrite Hp.
Qed.

(** Dividing by one changes nothing. *)
Lemma num_div_one (a : number) : num_div a (of_Z 1) ≈ a.
Proof.
  destruct a as [p| | |]; simpl; try done. field.
Qed.

(** Division of positive rationals is their quotient. *)
Lemma ratio_of_positive (h d f : Q) :
  (0 < d)%Q -> (0 < f)%Q ->
  num_div (num_div (Fin h) (Fin d)) (Fin f) = Fin (h / d / f).
Proof.
  intros Hd Hf. by rewrite !num_div_pos by (by apply Qsign_Gt).
Qed.

(** ** The published ratio *)

(** C2 — The published cap-height is [(height / devicePixelRatio) /
    fontSize].  For positive rationals the code's [toPx(h) / f] is the
    quotient [(h / d) / f]; a successful [calculate] of the ES6 variant
    stores exactly that number, for the height scanned from the pixels,
    under [--cap-height]; the CommonJS variant, which has no pixel ratio,
    stores [height / fontSize] under [cap-height], the same ratio at pixel
    ratio one. *)
Theorem cap_height_is_ratio (host : Host) (s : state) (p : loc) (given : object)
    (text : option jsstring) :
  heap s !! p = Some given ->
  (forall h d f : Q,
      (0 < d)%Q -> (0 < f)%Q -> devicePixelRatio host = Fin d ->
      num_div (Primary.toPx host (Fin h)) (Fin f) = Fin (h / d / f))
  /\ (forall s' l,
        Primary.calculate host p text s = (s', inr l) ->
        exists fontSize data o,
          let t := default (js "H") text in
          let phys := Primary.toPhysical host (Primary.logicalDimensions fontSize t) in
          let h := Primary.getHeight (Primary.scan data phys) in
          Primary.getFontSize (given ∪ defaults) = inr fontSize
          /\ getImageData host (Primary.raster host (given ∪ defaults) fontSize t)
               (Primary.width phys) (Primary.height phys) = Some data
          /\ heap s' !! l = Some o
          /\ o !! "--cap-height"
             = Some (VNum (num_div (num_div h (devicePixelRatio host)) fontSize)))
  /\ (forall s' l,
        Legacy.calculate host p text s = (s', inr l) ->
        exists fontSize data o,
          let t := Legacy.text_or_H text in
          let width := Legacy.rasterWidth fontSize t in
          let h := Legacy.getHeight (Legacy.getDescent data width)
                                    (Legacy.getAscent data width) in
          Legacy.getFontSize (given ∪ defaults) = inr fontSize
          /\ getImageData host (Legacy.raster (given ∪ defaults) fontSize t)
               width (Legacy.rasterHeight fontSize) = Some data
          /\ heap s' !! l = Some o
          /\ o !! "cap-height" = Some (VNum (num_div h fontSize))
          /\ num_div h fontSize ≈ num_div (num_div h (of_Z 1)) fontSize).
Proof.
  intros Hgiven. split; [|split].
  - intros h d f Hd Hf Hdpr. unfold Primary.toPx, Primary.DPR. rewrite Hdpr.
    by apply ratio_of_positive.
  - intros s' l Hrun.
    destruct (primary_calculate_inv host s p given Hgiven text s' l Hrun)
      as (fontSize & data & Hf & Hws & Hdata).
    rewrite (primary_calculate_run host s p given Hgiven text fontSize data Hf Hws Hdata)
      in Hrun.
    injection Hrun as <- <-. eexists fontSize, data, _. cbv zeta.
    split; [done|]. split; [done|]. split.
    + cbn [heap]. apply lookup_insert_eq.
    + by rewrite lookup_insert_eq.
  - intros s' l Hrun.
    destruct (legacy_calculate_inv host s p given Hgiven text s' l Hrun)
      as (fontSize & data & Hf & Hws & Hdata).
    rewrite (legacy_calculate_run host s p given Hgiven text fontSize data Hf Hws Hdata)
      in Hrun.
    injection Hrun as <- <-. eexists fontSize, data, _. cbv zeta.
    split; [done|]. split; [done|]. split; [|split].
    + cbn [heap]. apply lookup_insert_eq.
    + by rewrite lookup_insert_eq.
    + symmetry. apply num_div_proper_l, num_div_one.
Qed.

Lemma cap_height_is_ratio_witness :
  let host := band_host (of_Z 2) 3 5 in
  num_div (Primary.toPx host (Fin 3)) (Fin 2) = Fin (3 / 2 / 2)
  /\ (exists o, result_object (Primary.calculate host 0%nat None (store_of two_px)) = Some o
                /\ o !! "--cap-height" = Some (VNum (Fin (3 # 4))))
  /\ (exists o, result_object (Legacy.calculate host 0%nat None (store_of two_px)) = Some o
                /\ o !! "cap-height" = Some (VNum (Fin (1 # 2)))).
Proof.
  intros host.
  destruct (cap_height_is_ratio host (store_of two_px) 0%nat two_px None eq_refl)
    as (Hratio & Hprimary & Hlegacy).
  split; [|split].
  - apply Hratio; reflexivity.
  - destruct (Hprimary (fst (Primary.calculate host 0%nat None (store_of two_px))) 0%nat)
      as (fontSize & data & o & Hf & Hdata & Ho & Hcap); [vm_compute; reflexivity|].
    exists o. split; [vm_compute in Ho |- *; exact Ho|].
    rewrite Hcap. vm_compute in Hf. injection Hf as <-.
    vm_compute in Hdata. injection Hdata as <-. vm_compute. reflexivity.
  - destruct (Hlegacy (fst (Legacy.calculate host 0%nat None (store_of two_px))) 1%nat)
      as (fontSize & data & o & Hf & Hdata & Ho & Hcap & _); [vm_compute; reflexivity|].
    exists o. split; [vm_compute in Ho |- *; exact Ho|].
    rewrite Hcap. vm_compute in Hf. injection Hf as <-.
    vm_compute in Hdata. injection Hdata as <-. vm_compute. reflexivity.
Defined.

(** ** Font size *)

Lemma strip_non_digits_spec (s : jsstring) (c : N) :
  c ∈ strip_non_digits s <-> c ∈ s /\ (48 <= c <= 57)%N.
Proof.
  unfold strip_non_digits, is_digit.
  rewrite !list_elem_of_In, filter_In, andb_true_iff, !N.leb_le. done.
Qed.

Lemma is_zero_of_Z (z : Z) : is_zero (of_Z z) = true <-> z = 0.
Proof.
  unfold is_zero, of_Z. rewrite Qeq_bool_iff.
  apply (inject_Z_injective z 0).
Qed.

(** C3 — Font-size extraction keeps the decimal digits of the font-size
    value and reads them as a number; it fails, with one of the two
    font-size errors, exactly when that number is not a number or is zero,
    and otherwise returns it.  A font size of ["0px"], of ["abcpx"] and a
    missing font size fail; ["100px"] gives 100.  Both variants. *)
Theorem font_size_extraction (properties : object) :
  let digits :=
    strip_non_digits (to_string (get properties "font-size" (VNum (of_Z 0)))) in
  (forall c, c ∈ digits <->
             c ∈ to_string (get properties "font-size" (VNum (of_Z 0)))
             /\ (48 <= c <= 57)%N)
  /\ ((exists e, Primary.getFontSize properties = inl e /\ is_invalid_font_size e = true)
      <-> isNaN (toNumber digits) = true \/ is_zero (toNumber digits) = true)
  /\ (forall e, Primary.getFontSize properties = inl e -> is_invalid_font_size e = true)
  /\ (forall n, Primary.getFontSize properties = inr n -> n = toNumber digits)
  /\ ((exists e, Legacy.getFontSize properties = inl e /\ is_invalid_font_size e = true)
      <-> isNaN (parseFloat digits) = true \/ is_zero (parseFloat digits) = true)
  /\ (forall e, Legacy.getFontSize properties = inl e -> is_invalid_font_size e = true)
  /\ (forall n, Legacy.getFontSize properties = inr n -> n = parseFloat digits)
  /\ (Primary.getFontSize {[ "font-size" := VStr (js "0px") ]} = inl ZeroFontSize
      /\ Primary.getFontSize {[ "font-size" := VStr (js "abcpx") ]} = inl ZeroFontSize
      /\ Primary.getFontSize ∅ = inl ZeroFontSize
      /\ Primary.getFontSize {[ "font-size" := VStr (js "100px") ]} = inr (of_Z 100))
  /\ (Legacy.getFontSize {[ "font-size" := VStr (js "0px") ]} = inl ZeroFontSize
      /\ Legacy.getFontSize {[ "font-size" := VStr (js "abcpx") ]} = inl InvalidFontSize
      /\ Legacy.getFontSize ∅ = inl ZeroFontSize
      /\ Legacy.getFontSize {[ "font-size" := VStr (js "100px") ]} = inr (of_Z 100)).
Proof.
  intros digits. split; [intros c; apply strip_non_digits_spec|].
  unfold Primary.getFontSize, Legacy.getFontSize. fold digits.
  repeat split.
  - intros (e & He & _).
    destruct (isNaN (toNumber digits)); [by left|].
    destruct (is_zero (toNumber digits)); [by right|done].
  - intros [H|H]; rewrite H.
    + by exists InvalidFontSize.
    + destruct (isNaN (toNumber digits)); by eexists.
  - intros e He.
    destruct (isNaN (toNumber digits)); [by simplify_eq|].
    destruct (is_zero (toNumber digits)); by simplify_eq.
  - intros n Hn.
    destruct (isNaN (toNumber digits)); [done|].
    destruct (is_zero (toNumber digits)); by simplify_eq.
  - intros (e & He & _).
    destruct (isNaN (parseFloat digits)); [by left|].
    destruct (is_zero (parseFloat digits)); [by right|done].
  - intros [H|H]; rewrite H.
    + by exists InvalidFontSize.
    + destruct (isNaN (parseFloat digits)); by eexists.
  - intros e He.
    destruct (isNaN (parseFloat digits)); [by simplify_eq|].
    destruct (is_zero (parseFloat digits)); by simplify_eq.
  - intros n Hn.
    destruct (isNaN (parseFloat digits)); [done|].
    destruct (is_zero (parseFloat digits)); by simplify_eq.
Qed.

(** ** Whitespace *)

(** A non-empty text of whitespace only contains whitespace. *)
Lemma empty_after_trim_has_whitespace (text : jsstring) :
  text <> [] -> empty_after_trim text = true -> test_whitespace text = true.
Proof.
  destruct text as [|c text]; [done|]. intros _.
  unfold empty_after_trim, test_whitespace. simpl.
  intros [-> _]%andb_prop. done.
Qed.

Lemma primary_measure_whitespace (host : Host) (s : state) (p : loc)
    (props : object) (text : jsstring) (fontSize : number) :
  heap s !! p = Some props ->
  Primary.getFontSize props = inr fontSize ->
  test_whitespace text = true ->
  Primary.measureTextHeight host (Some text) p s = (s, inl WhitespaceText).
Proof.
  intros Hp Hf Hws. unfold Primary.measureTextHeight.
  change (default (js "H") (Some text)) with text.
  unfold mbind, M_bind, read, lift. by rewrite Hp, Hf, Hws.
Qed.

Lemma legacy_measure_whitespace (host : Host) (s : state) (p : loc)
    (props : object) (text : jsstring) (fontSize : number) :
  heap s !! p = Some props ->
  Legacy.getFontSize props = inr fontSize ->
  test_whitespace text = true ->
  Legacy.measureTextHeight host p (Some text) s = (s, inl WhitespaceText).
Proof.
  intros Hp Hf Hws. unfold Legacy.measureTextHeight.
  unfold mbind, M_bind, read, lift. rewrite Hp, Hf.
  replace (Legacy.text_or_H (Some text)) with text; [by rewrite Hws|].
  by destruct text.
Qed.

(** C4, as amended — Rasterization fails with the whitespace error
    whenever the text is not empty and holds a whitespace character or
    only whitespace: [measureTextHeight] on properties with a valid font
    size throws it and changes nothing, and [calculate] throws it and
    returns no record.  Both variants. *)
Theorem whitespace_text_rejected (host : Host) (s : state) (p : loc)
    (props : object) (text : jsstring) :
  heap s !! p = Some props ->
  text <> [] ->
  empty_after_trim text = true \/ test_whitespace text = true ->
  (forall f, Primary.getFontSize props = inr f ->
             Primary.measureTextHeight host (Some text) p s = (s, inl WhitespaceText))
  /\ (forall f, Primary.getFontSize (props ∪ defaults) = inr f ->
                snd (Primary.calculate host p (Some text) s) = inl WhitespaceText)
  /\ (forall f, Legacy.getFontSize props = inr f ->
                Legacy.measureTextHeight host p (Some text) s = (s, inl WhitespaceText))
  /\ (forall f, Legacy.getFontSize (props ∪ defaults) = inr f ->
                snd (Legacy.calculate host p (Some text) s) = inl WhitespaceText).
Proof.
  intros Hp Hne Hws.
  assert (test_whitespace text = true) as Hw.
  { destruct Hws; [by apply empty_after_trim_has_whitespace|done]. }
  repeat split; intros f Hf.
  - by eapply primary_measure_whitespace.
  - by erewrite primary_calculate_whitespace.
  - by eapply legacy_measure_whitespace.
  - erewrite legacy_calculate_whitespace; [done|done|done|].
    by destruct text.
Qed.

Lemma whitespace_text_rejected_witness :
  let host := band_host (of_Z 1) 1 2 in
  snd (Primary.calculate host 0%nat (Some (js " ")) (store_of defaults))
  = inl WhitespaceText
  /\ snd (Primary.calculate host 0%nat (Some (js "a b")) (store_of defaults))
     = inl WhitespaceText
  /\ snd (Legacy.calculate host 0%nat (Some (js " ")) (store_of defaults))
     = inl WhitespaceText
  /\ snd (Legacy.calculate host 0%nat (Some (js "a b")) (store_of defaults))
     = inl WhitespaceText.
Proof.
  intros host.
  destruct (whitespace_text_rejected host (store_of defaults) 0%nat defaults (js " "))
    as (_ & Hp1 & _ & Hl1); [reflexivity|discriminate|by left|].
  destruct (whitespace_text_rejected host (store_of defaults) 0%nat defaults (js "a b"))
    as (_ & Hp2 & _ & Hl2); [reflexivity|discriminate|by right|].
  split; [|split; [|split]].
  - by apply (Hp1 (of_Z 100)).
  - by apply (Hp2 (of_Z 100)).
  - by apply (Hl1 (of_Z 100)).
  - by apply (Hl2 (of_Z 100)).
Defined.

(** C4, as stated, fails on the empty text: it is empty after trimming and
    the font size is valid, yet no whitespace error is raised.  The ES6
    variant asks the host for an empty rectangle; the CommonJS variant
    measures ["H"] and returns a record. *)
Lemma empty_text_not_rejected :
  let host := band_host (of_Z 1) 1 2 in
  empty_after_trim [] = true
  /\ Primary.getFontSize (two_px ∪ defaults) = inr (of_Z 2)
  /\ snd (Primary.calculate host 0%nat (Some []) (store_of two_px)) = inl HostFailure
  /\ snd (Primary.calculate host 0%nat (Some []) (store_of two_px)) <> inl WhitespaceText
  /\ Legacy.getFontSize (two_px ∪ defaults) = inr (of_Z 2)
  /\ snd (Legacy.calculate host 0%nat (Some []) (store_of two_px)) = inr 1%nat
  /\ snd (Legacy.calculate host 0%nat (Some []) (store_of two_px)) <> inl WhitespaceText.
Proof.
  intros host. repeat split; try (vm_compute; reflexivity); by vm_compute.
Qed.

(** ** Raster geometry *)

Lemma digits_value_from_nonneg (s : jsstring) (acc : Z) :
  Forall (fun c => is_digit c = true) s -> 0 <= acc ->
  0 <= fold_left (fun acc c => 10 * acc + (Z.of_N c - 48)) s acc.
Proof.
  intros Hs. revert acc. induction Hs as [|c s Hc _ IH]; intros acc Hacc; simpl.
  - done.
  - apply IH. unfold is_digit in Hc. apply andb_prop in Hc as [Hlo _].
    apply N.leb_le in Hlo. lia.
Qed.

Lemma strip_non_digits_digits (s : jsstring) :
  Forall (fun c => is_digit c = true) (strip_non_digits s).
Proof.
  apply Forall_forall. intros c Hc. apply list_elem_of_In in Hc.
  unfold strip_non_digits in Hc. by apply filter_In in Hc as [_ Hc].
Qed.

(** An extracted font size is a positive integer. *)
Lemma primary_font_size_positive (props : object) (n : number) :
  Primary.getFontSize props = inr n -> exists z, n = of_Z z /\ 0 < z.
Proof.
  unfold Primary.getFontSize, toNumber.
  set (digits := strip_non_digits _). intros Hn.
  destruct (isNaN (of_Z (digits_value digits))); [done|].
  destruct (is_zero (of_Z (digits_value digits))) eqn:Hz; [done|].
  injection Hn as <-. exists (digits_value digits). split; [done|].
  assert (0 <= digits_value digits)
    by (apply digits_value_from_nonneg; [apply strip_non_digits_digits|done]).
  assert (digits_value digits <> 0)
    by (intros H0; apply is_zero_of_Z in H0; congruence).
  lia.
Qed.

Lemma legacy_font_size_positive (props : object) (n : number) :
  Legacy.getFontSize props = inr n -> exists z, n = of_Z z /\ 0 < z.
Proof.
  unfold Legacy.getFontSize.
  set (digits := strip_non_digits _).
  assert (parseFloat digits = NaN \/ parseFloat digits = of_Z (digits_value digits))
    as [->| ->] by (destruct digits; [by left|by right]); [done|].
  intros Hn.
  destruct (isNaN (of_Z (digits_value digits))); [done|].
  destruct (is_zero (of_Z (digits_value digits))) eqn:Hz; [done|].
  injection Hn as <-. exists (digits_value digits). split; [done|].
  assert (0 <= digits_value digits)
    by (apply digits_value_from_nonneg; [apply strip_non_digits_digits|done]).
  assert (digits_value digits <> 0)
    by (intros H0; apply is_zero_of_Z in H0; congruence).
  lia.
Qed.

(** C5 — Raster geometry.  In every successful run, for the positive font
    size [f] extracted and the text [t]: the logical width is
    [2 * f * length t] and the logical height [2 * f]; the ES6 variant
    multiplies both by the device pixel ratio for the backing store of the
    canvas and for the rectangle it reads back, and paints the background
    over the logical rectangle; the CommonJS variant, which has no pixel
    ratio, uses the logical size for all three. *)
Theorem raster_geometry (host : Host) (s : state) (p : loc) (given : object)
    (text : jsstring) :
  heap s !! p = Some given ->
  (forall s' l,
      Primary.calculate host p (Some text) s = (s', inr l) ->
      exists (z : Z) (data : list Z),
        let f := inject_Z z in
        let n := inject_Z (Z.of_nat (length text)) in
        let dims := Primary.logicalDimensions (Fin f) text in
        let phys := Primary.toPhysical host dims in
        let c := Primary.raster host (given ∪ defaults) (Fin f) text in
        0 < z
        /\ Primary.getFontSize (given ∪ defaults) = inr (Fin f)
        /\ test_whitespace text = false
        /\ Primary.width dims = Fin (2 * f * n)
        /\ Primary.height dims = Fin (2 * f)
        /\ Primary.width phys = num_mul (Fin (2 * f * n)) (devicePixelRatio host)
        /\ Primary.height phys = num_mul (Fin (2 * f)) (devicePixelRatio host)
        /\ (forall d, devicePixelRatio host = Fin d ->
                      Primary.width phys = Fin (2 * f * n * d)
                      /\ Primary.height phys = Fin (2 * f * d))
        /\ canvas_width c = Primary.width phys
        /\ canvas_height c = Primary.height phys
        /\ canvas_ops c
           = [ Scale (devicePixelRatio host) (devicePixelRatio host);
               SetFillStyle "white";
               FillRect (of_Z 0) (of_Z 0) (Fin (2 * f * n)) (Fin (2 * f));
               SetFont (Primary.composeFontProperty (given ∪ defaults));
               SetFillStyle "black";
               SetTextAlign "center";
               SetTextBaseline "middle";
               FillText text (num_div (Fin (2 * f * n)) (of_Z 2))
                             (num_div (Fin (2 * f)) (of_Z 2)) ]
        /\ getImageData host c (Primary.width phys) (Primary.height phys) = Some data)
  /\ (forall s' l,
        text <> [] ->
        Legacy.calculate host p (Some text) s = (s', inr l) ->
        exists (z : Z) (data : list Z),
          let f := inject_Z z in
          let n := inject_Z (Z.of_nat (length text)) in
          let c := Legacy.raster (given ∪ defaults) (Fin f) text in
          0 < z
          /\ Legacy.getFontSize (given ∪ defaults) = inr (Fin f)
          /\ test_whitespace text = false
          /\ canvas_width c = Fin (2 * f * n)
          /\ canvas_height c = Fin (2 * f)
          /\ In (FillRect (of_Z 0) (of_Z 0) (Fin (2 * f * n)) (Fin (2 * f)))
                (canvas_ops c)
          /\ getImageData host c (Fin (2 * f * n)) (Fin (2 * f)) = Some data).
Proof.
  intros Hgiven. split.
  - intros s' l Hrun.
    destruct (primary_calculate_inv host s p given Hgiven _ s' l Hrun)
      as (fontSize & data & Hf & Hws & Hdata).
    destruct (primary_font_size_positive _ _ Hf) as (z & -> & Hz).
    exists z, data. cbv zeta. simpl in Hws.
    split; [done|]. split; [done|]. split; [done|].
    split; [reflexivity|]. split; [reflexivity|].
    split; [reflexivity|]. split; [reflexivity|].
    split.
    { intros d Hd. unfold Primary.toPhysical, Primary.toDot, Primary.DPR.
      rewrite Hd. split; reflexivity. }
    split; [reflexivity|]. split; [reflexivity|]. split; [reflexivity|].
    exact Hdata.
  - intros s' l Hne Hrun.
    destruct (legacy_calculate_inv host s p given Hgiven _ s' l Hrun)
      as (fontSize & data & Hf & Hws & Hdata).
    destruct (legacy_font_size_positive _ _ Hf) as (z & -> & Hz).
    replace (Legacy.text_or_H (Some text)) with text in * by (by destruct text).
    exists z, data. cbv zeta.
    split; [done|]. split; [done|]. split; [done|].
    split; [reflexivity|]. split; [reflexivity|].
    split; [|exact Hdata].
    simpl. tauto.
Qed.

Lemma raster_geometry_witness :
  let host := band_host (of_Z 2) 3 5 in
  (exists data,
      getImageData host (Primary.raster host (two_px ∪ defaults) (of_Z 2) (js "H"))
        (of_Z 8) (of_Z 8) = Some data)
  /\ (exists data,
        getImageData host (Legacy.raster (two_px ∪ defaults) (of_Z 2) (js "H"))
          (of_Z 4) (of_Z 4) = Some data).
Proof.
  intros host.
  destruct (raster_geometry host (store_of two_px) 0%nat two_px (js "H") eq_refl)
    as [Hprimary Hlegacy].
  split.
  - destruct (Hprimary (fst (Primary.calculate host 0%nat (Some (js "H")) (store_of two_px)))
                0%nat) as (z & data & _ & Hf & _ & _ & _ & _ & _ & _ & _ & _ & _ & Hdata);
      [vm_compute; reflexivity|].
    vm_compute in Hf. injection Hf as <-. exists data. exact Hdata.
  - destruct (Hlegacy (fst (Legacy.calculate host 0%nat (Some (js "H")) (store_of two_px)))
                1%nat) as (z & data & _ & Hf & _ & _ & _ & _ & Hdata);
      [discriminate|vm_compute; reflexivity|].
    vm_compute in Hf. injection Hf as <-. exists data. exact Hdata.
Defined.

(** ** Foreground policies *)

(** C6 — The exact-match policy takes a channel value for foreground iff
    it is 0; the threshold policy iff it is below [255 * 0.75 = 191.25],
    that is, at most 191.  Each scan tests every channel value of the
    buffer with its policy: what it returns is the first, or last, index
    of the whole buffer at which the policy holds, or -1. *)
Theorem foreground_policies (v : Z) :
  (Legacy.isBlack v = true <-> v = 0)
  /\ (Primary.isNotWhite v = true <-> (inject_Z v < 255 * (3 # 4))%Q)
  /\ (255 * (3 # 4) == 191 + (1 # 4))%Q
  /\ (Primary.isNotWhite v = true <-> v <= 191)
  /\ (forall data w,
        first_hit Primary.isNotWhite data (findIndex Primary.isNotWhite data)
        /\ last_hit Primary.isNotWhite data (findLastIndex Primary.isNotWhite data)
        /\ Primary.getAscent data w
           = Primary.getYPosition (of_Z (findIndex Primary.isNotWhite data)) w
        /\ Primary.getDescent data w
           = Primary.getYPosition (of_Z (findLastIndex Primary.isNotWhite data)) w)
  /\ (forall data w,
        first_hit Legacy.isBlack data (findIndex Legacy.isBlack data)
        /\ last_hit Legacy.isBlack data (findLastIndex Legacy.isBlack data)
        /\ Legacy.getAscent data w
           = Legacy.getYPosition (of_Z (findIndex Legacy.isBlack data)) w
        /\ Legacy.getDescent data w
           = Legacy.getYPosition (of_Z (findLastIndex Legacy.isBlack data)) w).
Proof.
  assert (Hlt : Primary.isNotWhite v = true <-> (inject_Z v < 255 * (3 # 4))%Q).
  { unfold Primary.isNotWhite, Primary.THRESHOLD, of_Z, num_mul, num_ltb.
    rewrite Qlt_alt.
    change (inject_Z 255) with 255%Q.
    destruct (inject_Z v ?= 255 * (3 # 4))%Q; split; congruence. }
  split; [apply Z.eqb_eq|]. split; [exact Hlt|]. split; [reflexivity|].
  split.
  { rewrite Hlt. unfold Qlt. simpl. lia. }
  split; intros data w.
  - split; [apply findIndex_spec|]. split; [apply findLastIndex_spec|]. done.
  - split; [apply findIndex_spec|]. split; [apply findLastIndex_spec|]. done.
Qed.

(** ** Defaults *)

(** Filling keeps what is given and takes the rest from the defaults. *)
Lemma defaults_fill_lookup (given : object) (k : string) :
  (given ∪ defaults) !! k
  = match given !! k with Some v => Some v | None => defaults !! k end.
Proof.
  rewrite lookup_union. destruct (given !! k), (defaults !! k); done.
Qed.

Lemma defaults_fill_defaults : defaults ∪ defaults = defaults /\ ∅ ∪ defaults = defaults.
Proof. split; [apply (idemp_L (∪))|apply (left_id_L ∅ (∪))]. Qed.

(** C7 — Default fill.  Every key the given record lacks is taken from
    the defaults (normal, 400, 100px, serif) and every key it has is kept;
    the filled record is the one a successful [calculate] returns, with
    the ratio added; and [calculate] on the empty record with no text does
    what [calculate] on the spelled-out defaults with the text ["H"] does:
    the same outcome, the same returned record and the same display. *)
Theorem default_fill (host : Host) (h : gmap loc object)
    (c : option (list canvas)) (p : loc) :
  (forall (given : object) (k : string),
      (given ∪ defaults) !! k
      = match given !! k with Some v => Some v | None => defaults !! k end)
  /\ (defaults !! "font-style" = Some (VStr (js "normal"))
      /\ defaults !! "font-weight" = Some (VNum (of_Z 400))
      /\ defaults !! "font-size" = Some (VStr (js "100px"))
      /\ defaults !! "font-family" = Some (VStr (js "serif"))
      /\ size defaults = 4%nat)
  /\ (forall given text s' l,
        h !! p = Some given ->
        Primary.calculate host p text (State h c) = (s', inr l) ->
        exists ratio,
          heap s' !! l = Some (<["--cap-height" := ratio]> (given ∪ defaults)))
  /\ (forall given text s' l,
        h !! p = Some given ->
        Legacy.calculate host p text (State h c) = (s', inr l) ->
        exists ratio,
          heap s' !! l = Some (<["cap-height" := ratio]> (given ∪ defaults)))
  /\ Primary.calculate host p None (State (<[p := ∅]> h) c)
     = Primary.calculate host p (Some (js "H")) (State (<[p := defaults]> h) c)
  /\ (let r1 := Legacy.calculate host p None (State (<[p := ∅]> h) c) in
      let r2 := Legacy.calculate host p (Some (js "H")) (State (<[p := defaults]> h) c) in
      snd r1 = snd r2 /\ result_object r1 = result_object r2
      /\ container (fst r1) = container (fst r2)).
Proof.
  destruct defaults_fill_defaults as [Hdd Hed].
  split; [apply defaults_fill_lookup|]. split; [by repeat split|].
  split; [|split; [|split]].
  - intros given text s' l Hgiven Hrun.
    destruct (primary_calculate_inv host (State h c) p given Hgiven text s' l Hrun)
      as (fontSize & data & Hf & Hws & Hdata).
    rewrite (primary_calculate_run host (State h c) p given Hgiven text fontSize data
               Hf Hws Hdata) in Hrun.
    injection Hrun as <- <-. eexists. cbn [heap]. apply lookup_insert_eq.
  - intros given text s' l Hgiven Hrun.
    destruct (legacy_calculate_inv host (State h c) p given Hgiven text s' l Hrun)
      as (fontSize & data & Hf & Hws & Hdata).
    rewrite (legacy_calculate_run host (State h c) p given Hgiven text fontSize data
               Hf Hws Hdata) in Hrun.
    injection Hrun as <- <-. eexists. cbn [heap]. apply lookup_insert_eq.
  - unfold Primary.calculate, mbind, M_bind, read, write. cbn [heap container].
    rewrite !lookup_insert_eq. cbn [heap container].
    rewrite Hdd, Hed, !insert_insert_eq. done.
  - assert (Hfresh : fresh (dom (<[p := (∅ : object)]> h))
                     = fresh (dom (<[p := defaults]> h)))
      by (by rewrite !dom_insert_L).
    assert (Hf : Legacy.getFontSize defaults = inr (of_Z 100)) by reflexivity.
    assert (Hws : test_whitespace (js "H") = false) by reflexivity.
    pose proof (lookup_insert_eq h p (∅ : object)) as H1.
    pose proof (lookup_insert_eq h p defaults) as H2.
    destruct (getImageData host (Legacy.raster defaults (of_Z 100) (js "H"))
                (Legacy.rasterWidth (of_Z 100) (js "H"))
                (Legacy.rasterHeight (of_Z 100))) as [data|] eqn:Hdata.
    + rewrite (legacy_calculate_run host (State _ c) p ∅ H1 None (of_Z 100) data);
        [|rewrite ?Hed; first [exact Hf|exact Hws|exact Hdata]..].
      rewrite (legacy_calculate_run host (State _ c) p defaults H2 (Some (js "H"))
                 (of_Z 100) data); [|rewrite ?Hdd; first [exact Hf|exact Hws|exact Hdata]..].
      cbv zeta. cbn [fst snd heap container result_object].
      rewrite Hfresh, !lookup_insert_eq, Hdd, Hed. done.
    + rewrite (legacy_calculate_host_failure host (State _ c) p ∅ H1 None (of_Z 100));
        [|rewrite ?Hed; first [exact Hf|exact Hws|exact Hdata]..].
      rewrite (legacy_calculate_host_failure host (State _ c) p defaults H2
                 (Some (js "H")) (of_Z 100)); [|rewrite ?Hdd; first [exact Hf|exact Hws|exact Hdata]..].
      done.
Qed.

Lemma default_fill_witness :
  let host := band_host (of_Z 1) 1 2 in
  (exists ratio,
      result_object (Primary.calculate host 0%nat None (store_of two_px))
      = Some (<["--cap-height" := ratio]> (two_px ∪ defaults)))
  /\ (exists ratio,
        result_object (Legacy.calculate host 0%nat None (store_of two_px))
        = Some (<["cap-height" := ratio]> (two_px ∪ defaults))).
Proof.
  intros host.
  destruct (default_fill host {[ 0%nat := two_px ]} None 0%nat)
    as (_ & _ & Hprimary & Hlegacy & _).
  split.
  - assert (Hrun : Primary.calculate host 0%nat None (store_of two_px)
                   = (fst (Primary.calculate host 0%nat None (store_of two_px)),
                      inr 0%nat)) by (vm_compute; reflexivity).
    destruct (Hprimary two_px None _ _ eq_refl Hrun) as [ratio Hr].
    exists ratio. unfold result_object. rewrite Hrun. exact Hr.
  - assert (Hrun : Legacy.calculate host 0%nat None (store_of two_px)
                   = (fst (Legacy.calculate host 0%nat None (store_of two_px)),
                      inr 1%nat)) by (vm_compute; reflexivity).
    destruct (Hlegacy two_px None _ _ eq_refl Hrun) as [ratio Hr].
    exists ratio. unfold result_object. rewrite Hrun. exact Hr.
Defined.

(** ** Height *)

(** *** Integers on doubles *)

Lemma digits2_pos_bounds (p : positive) :
  2 ^ (Z.pos (SpecFloat.digits2_pos p) - 1) <= Z.pos p
  < 2 ^ Z.pos (SpecFloat.digits2_pos p).
Proof.
  induction p as [p IH|p IH|]; cbn [SpecFloat.digits2_pos].
  - rewrite Pos2Z.inj_succ.
    replace (Z.succ (Z.pos (SpecFloat.digits2_pos p)) - 1)
      with (Z.succ (Z.pos (SpecFloat.digits2_pos p) - 1)) by lia.
    rewrite !Z.pow_succ_r by lia. lia.
  - rewrite Pos2Z.inj_succ.
    replace (Z.succ (Z.pos (SpecFloat.digits2_pos p)) - 1)
      with (Z.succ (Z.pos (SpecFloat.digits2_pos p) - 1)) by lia.
    rewrite !Z.pow_succ_r by lia. lia.
  - cbn. lia.
Qed.

Lemma digits2_pos_unique (p : positive) (d : Z) :
  2 ^ (d - 1) <= Z.pos p < 2 ^ d -> 0 < d -> Z.pos (SpecFloat.digits2_pos p) = d.
Proof.
  intros [Hlo Hhi] Hd. pose proof (digits2_pos_bounds p) as [Hlo' Hhi'].
  set (d' := Z.pos (SpecFloat.digits2_pos p)) in *.
  assert (0 < d') by (unfold d'; lia).
  destruct (Z.lt_trichotomy d' d) as [Hlt|[Heq|Hgt]]; [|done|].
  - assert (2 ^ d' <= 2 ^ (d - 1)) by (apply Z.pow_le_mono_r; lia). lia.
  - assert (2 ^ d <= 2 ^ (d' - 1)) by (apply Z.pow_le_mono_r; lia). lia.
Qed.

Lemma digits2_pos_scaled (v M : positive) (j : Z) :
  0 <= j -> Z.pos M = Z.pos v * 2 ^ j ->
  Z.pos (SpecFloat.digits2_pos M) = Z.pos (SpecFloat.digits2_pos v) + j.
Proof.
  intros Hj HM. pose proof (digits2_pos_bounds v) as Hv.
  assert (0 < 2 ^ j) by (apply Z.pow_pos_nonneg; lia).
  apply digits2_pos_unique; [|lia]. rewrite HM.
  replace (Z.pos (SpecFloat.digits2_pos v) + j - 1)
    with (Z.pos (SpecFloat.digits2_pos v) - 1 + j) by lia.
  rewrite !Z.pow_add_r by lia.
  split; [apply Z.mul_le_mono_nonneg_r; lia|apply Z.mul_lt_mono_pos_r; lia].
Qed.

Lemma digits_of_small (v : positive) :
  Z.pos v < 2 ^ 53 -> Z.pos (SpecFloat.digits2_pos v) <= 53.
Proof.
  intros Hv. pose proof (digits2_pos_bounds v) as Hb.
  destruct (Z.le_gt_cases (Z.pos (SpecFloat.digits2_pos v)) 53) as [?|Hgt]; [done|].
  assert (2 ^ 53 <= 2 ^ (Z.pos (SpecFloat.digits2_pos v) - 1))
    by (apply Z.pow_le_mono_r; lia).
  lia.
Qed.

Lemma iter_xO_value (p k : positive) :
  Z.pos (Pos.iter xO p k) = Z.pos p * 2 ^ Z.pos k.
Proof.
  induction k as [|k IH] using Pos.peano_ind.
  - cbn. lia.
  - rewrite Pos.iter_succ, Pos2Z.inj_succ, Z.pow_succ_r by lia.
    rewrite Pos2Z.inj_xO, IH. lia.
Qed.

Lemma shr_1_even (m : Z) :
  0 <= m -> SpecFloat.shr_1 (Double.unrounded (2 * m)) = Double.unrounded m.
Proof. intros Hm. destruct m as [|p|p]; [done|done|lia]. Qed.

Lemma pow2_xO (n : positive) : 2 ^ Z.pos n~0 = 2 ^ Z.pos n * 2 ^ Z.pos n.
Proof. rewrite <- Z.pow_add_r by lia. f_equal. lia. Qed.

Lemma pow2_xI (n : positive) : 2 ^ Z.pos n~1 = 2 * (2 ^ Z.pos n * 2 ^ Z.pos n).
Proof.
  rewrite <- Z.pow_add_r by lia. rewrite <- Z.pow_succ_r by lia. f_equal. lia.
Qed.

(** Shifting out [n] zero bits loses nothing. *)
Lemma iter_shr_exact (n : positive) (m : Z) :
  0 <= m ->
  SpecFloat.iter_pos SpecFloat.shr_1 n (Double.unrounded (m * 2 ^ Z.pos n))
  = Double.unrounded m.
Proof.
  revert m. induction n as [n IH|n IH|]; intros m Hm; cbn [SpecFloat.iter_pos].
  - assert (0 < 2 ^ Z.pos n) by (apply Z.pow_pos_nonneg; lia).
    replace (m * 2 ^ Z.pos n~1) with (2 * ((m * 2 ^ Z.pos n) * 2 ^ Z.pos n))
      by (rewrite pow2_xI; lia).
    rewrite shr_1_even by nia. rewrite IH by nia. by apply IH.
  - assert (0 < 2 ^ Z.pos n) by (apply Z.pow_pos_nonneg; lia).
    replace (m * 2 ^ Z.pos n~0) with ((m * 2 ^ Z.pos n) * 2 ^ Z.pos n)
      by (rewrite pow2_xO; lia).
    rewrite IH by nia. by apply IH.
  - rewrite Z.pow_1_r, Z.mul_comm. by apply shr_1_even.
Qed.

Lemma fexp_normal (x : Z) :
  -1074 <= x - 53 -> SpecFloat.fexp Double.prec Double.emax x = x - 53.
Proof.
  intros Hx. unfold SpecFloat.fexp, SpecFloat.emin, Double.prec, Double.emax. lia.
Qed.

Lemma shr_fexp_canonical (m : positive) (c : Z) :
  Z.pos (SpecFloat.digits2_pos m) = 53 -> -1074 <= c ->
  SpecFloat.shr_fexp Double.prec Double.emax (Z.pos m) c SpecFloat.loc_Exact
  = (Double.unrounded (Z.pos m), c).
Proof.
  intros Hd Hc. unfold SpecFloat.shr_fexp. cbn [SpecFloat.Zdigits2]. rewrite Hd.
  rewrite fexp_normal by lia. replace (53 + c - 53 - c) with 0 by lia. done.
Qed.

Lemma finite_of_unrounded (s : bool) (m : positive) (c : Z) :
  Z.pos (SpecFloat.digits2_pos m) = 53 -> -1074 <= c <= 971 ->
  (let '(mrs, e) :=
     SpecFloat.shr_fexp Double.prec Double.emax
       (SpecFloat.round_nearest_even (SpecFloat.shr_m (Double.unrounded (Z.pos m)))
          (SpecFloat.loc_of_shr_record (Double.unrounded (Z.pos m))))
       c SpecFloat.loc_Exact in
   match SpecFloat.shr_m mrs with
   | 0 => SpecFloat.S754_zero s
   | Z.pos m0 =>
       if e <=? Double.emax - Double.prec
       then SpecFloat.S754_finite s m0 e
       else SpecFloat.S754_infinity s
   | Z.neg _ => SpecFloat.S754_nan
   end) = SpecFloat.S754_finite s m c.
Proof.
  intros Hd Hc.
  cbn [Double.unrounded SpecFloat.shr_m SpecFloat.loc_of_shr_record
       SpecFloat.round_nearest_even].
  rewrite shr_fexp_canonical by lia. cbn [Double.unrounded SpecFloat.shr_m].
  assert ((c <=? Double.emax - Double.prec) = true) as ->
    by (apply Z.leb_le; unfold Double.emax, Double.prec; lia).
  done.
Qed.

(** A mantissa of 53 digits is left as it is. *)
Lemma round_aux_canonical (s : bool) (m : positive) (c : Z) :
  Z.pos (SpecFloat.digits2_pos m) = 53 -> -1074 <= c <= 971 ->
  SpecFloat.binary_round_aux Double.prec Double.emax s (Z.pos m) c SpecFloat.loc_Exact
  = SpecFloat.S754_finite s m c.
Proof.
  intros Hd Hc. unfold SpecFloat.binary_round_aux.
  rewrite shr_fexp_canonical by lia. by apply finite_of_unrounded.
Qed.

(** Zero bits beyond the 53 digits are shifted out without rounding. *)
Lemma round_aux_shift (s : bool) (M m : positive) (e n : Z) :
  0 < n -> Z.pos M = Z.pos m * 2 ^ n ->
  Z.pos (SpecFloat.digits2_pos m) = 53 -> -1074 <= e + n <= 971 ->
  SpecFloat.binary_round_aux Double.prec Double.emax s (Z.pos M) e SpecFloat.loc_Exact
  = SpecFloat.S754_finite s m (e + n).
Proof.
  intros Hn HM Hd Hc.
  assert (HdM : Z.pos (SpecFloat.digits2_pos M) = 53 + n)
    by (rewrite <- Hd; apply digits2_pos_scaled; [lia|done]).
  assert (Hshr : SpecFloat.shr_fexp Double.prec Double.emax (Z.pos M) e SpecFloat.loc_Exact
                 = (Double.unrounded (Z.pos m), e + n)).
  { unfold SpecFloat.shr_fexp. cbn [SpecFloat.Zdigits2]. rewrite HdM.
    rewrite fexp_normal by lia. replace (53 + n + e - 53 - e) with n by lia.
    destruct n as [|q|q]; [lia| |lia]. unfold SpecFloat.shr.
    cbn [SpecFloat.shr_record_of_loc]. fold (Double.unrounded (Z.pos M)).
    rewrite HM. by rewrite iter_shr_exact by lia. }
  unfold SpecFloat.binary_round_aux. rewrite Hshr. by apply finite_of_unrounded.
Qed.

(** Rounding [v * 2^k * 2^e], for [v] of at most 53 digits, keeps the
    value: the mantissa is [v] shifted to 53 digits. *)
Lemma binary_round_exact (s : bool) (v M : positive) (k e : Z) :
  let d := Z.pos (SpecFloat.digits2_pos v) in
  0 <= k -> Z.pos M = Z.pos v * 2 ^ k ->
  d <= 53 -> -1074 <= e + k + d - 53 <= 971 ->
  SpecFloat.binary_round Double.prec Double.emax s M e
  = SpecFloat.S754_finite s (Z.to_pos (Z.pos v * 2 ^ (53 - d))) (e + k + d - 53).
Proof.
  intros d Hk HM Hd Hc.
  assert (0 < d) by (unfold d; lia).
  assert (0 < 2 ^ k) by (apply Z.pow_pos_nonneg; lia).
  assert (0 < 2 ^ (53 - d)) by (apply Z.pow_pos_nonneg; lia).
  assert (HdM : Z.pos (SpecFloat.digits2_pos M) = d + k)
    by (by apply digits2_pos_scaled).
  set (m := Z.to_pos (Z.pos v * 2 ^ (53 - d))).
  assert (Hm : Z.pos m = Z.pos v * 2 ^ (53 - d)) by (unfold m; rewrite Z2Pos.id; nia).
  assert (Hdm : Z.pos (SpecFloat.digits2_pos m) = 53)
    by (rewrite (digits2_pos_scaled v m (53 - d)); [fold d; lia|lia|done]).
  unfold SpecFloat.binary_round. rewrite HdM. rewrite fexp_normal by lia.
  unfold SpecFloat.shl_align.
  destruct (d + k + e - 53 - e) as [|q|q] eqn:Hshift.
  - assert (k = 53 - d) as Hkd by lia.
    assert (M = m) as -> by (apply Pos2Z.inj; rewrite HM, Hm, Hkd; done).
    replace (e + k + d - 53) with e by lia. apply round_aux_canonical; [done|lia].
  - replace (e + k + d - 53) with (e + Z.pos q) by lia.
    apply round_aux_shift; [lia| |done|lia].
    rewrite HM, Hm. replace k with (53 - d + Z.pos q) by lia.
    rewrite Z.pow_add_r by lia. lia.
  - assert (Pos.iter xO M q = m) as ->.
    { apply Pos2Z.inj. rewrite iter_xO_value, HM, Hm.
      replace (53 - d) with (k + Z.pos q) by lia. rewrite Z.pow_add_r by lia. lia. }
    replace (e + k + d - 53) with (d + k + e - 53) by lia.
    apply round_aux_canonical; [done|lia].
Qed.

(** An integer below 2^53 in magnitude is a double. *)
Lemma of_Z_normal (z : Z) :
  Z.abs z < 2 ^ 53 ->
  Double.of_Z z
  = match z with
    | 0 => SpecFloat.S754_zero false
    | Z.pos v => Double.normal false v
    | Z.neg v => Double.normal true v
    end.
Proof.
  intros Hz. destruct z as [|v|v]; [done| |];
    pose proof (digits_of_small v ltac:(lia)) as Hd;
    unfold Double.of_Z, SpecFloat.binary_normalize, Double.normal;
    (rewrite (binary_round_exact _ v v 0 0);
     [f_equal; lia|lia|rewrite Z.pow_0_r; lia|lia|lia]).
Qed.

Lemma shl_align_value (mx : positive) (ex ez : Z) :
  ez <= ex ->
  Z.pos (fst (SpecFloat.shl_align mx ex ez)) = Z.pos mx * 2 ^ (ex - ez).
Proof.
  intros Hle. unfold SpecFloat.shl_align.
  destruct (ez - ex) as [|q|q] eqn:Hdiff; cbn [fst].
  - replace (ex - ez) with 0 by lia. rewrite Z.pow_0_r. lia.
  - lia.
  - rewrite iter_xO_value. f_equal. f_equal. lia.
Qed.

(** The aligned mantissa of the double of [v] is [v], scaled. *)
Lemma normal_aligned (v : positive) (ez : Z) :
  let d := Z.pos (SpecFloat.digits2_pos v) in
  d <= 53 -> ez <= d - 53 ->
  Z.pos (fst (SpecFloat.shl_align (Z.to_pos (Z.pos v * 2 ^ (53 - d))) (d - 53) ez))
  = Z.pos v * 2 ^ (- ez).
Proof.
  intros d Hd Hez.
  assert (0 < 2 ^ (53 - d)) by (apply Z.pow_pos_nonneg; lia).
  rewrite shl_align_value by done. rewrite Z2Pos.id by nia.
  rewrite <- Z.mul_assoc, <- Z.pow_add_r by lia. do 2 f_equal. lia.
Qed.

(** Rounding [w * 2^k] at exponent [-k] gives the double of [w]. *)
Lemma binary_normalize_scaled (w k : Z) :
  Z.abs w < 2 ^ 53 -> 0 <= k -> k <= 1074 ->
  SpecFloat.binary_normalize Double.prec Double.emax (w * 2 ^ k) (- k) false
  = Double.of_Z w.
Proof.
  intros Hw Hk Hk'. rewrite of_Z_normal by done.
  assert (0 < 2 ^ k) by (apply Z.pow_pos_nonneg; lia).
  destruct w as [|v|v]; [done| |].
  - pose proof (digits_of_small v Hw) as Hd.
    destruct (Z.pos v * 2 ^ k) as [|M|M] eqn:HM; [lia| |lia].
    unfold SpecFloat.binary_normalize, Double.normal.
    rewrite (binary_round_exact _ v M k (- k)); [f_equal; lia|lia|done|lia|lia].
  - pose proof (digits_of_small v Hw) as Hd.
    destruct (Z.neg v * 2 ^ k) as [|M|M] eqn:HM; [lia|lia|].
    unfold SpecFloat.binary_normalize, Double.normal.
    rewrite (binary_round_exact _ v M k (- k)); [f_equal; lia|lia|lia|lia|lia].
Qed.

Lemma add_normal (sx sy : bool) (vx vy : positive) :
  Z.pos vx < 2 ^ 53 -> Z.pos vy < 2 ^ 53 ->
  Z.abs (SpecFloat.cond_Zopp sx (Z.pos vx) + SpecFloat.cond_Zopp sy (Z.pos vy)) < 2 ^ 53 ->
  Double.add (Double.normal sx vx) (Double.normal sy vy)
  = Double.of_Z (SpecFloat.cond_Zopp sx (Z.pos vx) + SpecFloat.cond_Zopp sy (Z.pos vy)).
Proof.
  intros Hx Hy Hsum.
  pose proof (digits_of_small vx Hx). pose proof (digits_of_small vy Hy).
  unfold Double.add, SpecFloat.SFadd, Double.normal.
  set (ez := Z.min (Z.pos (SpecFloat.digits2_pos vx) - 53)
                   (Z.pos (SpecFloat.digits2_pos vy) - 53)).
  rewrite (normal_aligned vx ez), (normal_aligned vy ez) by lia.
  replace (SpecFloat.cond_Zopp sx (Z.pos vx * 2 ^ (- ez))
           + SpecFloat.cond_Zopp sy (Z.pos vy * 2 ^ (- ez)))
    with ((SpecFloat.cond_Zopp sx (Z.pos vx) + SpecFloat.cond_Zopp sy (Z.pos vy))
          * 2 ^ (- ez))
    by (destruct sx, sy; unfold SpecFloat.cond_Zopp; lia).
  replace ez with (- (- ez)) at 2 by lia.
  apply binary_normalize_scaled; [done|lia|lia].
Qed.

Lemma sub_normal (sx sy : bool) (vx vy : positive) :
  Z.pos vx < 2 ^ 53 -> Z.pos vy < 2 ^ 53 ->
  Z.abs (SpecFloat.cond_Zopp sx (Z.pos vx) - SpecFloat.cond_Zopp sy (Z.pos vy)) < 2 ^ 53 ->
  Double.sub (Double.normal sx vx) (Double.normal sy vy)
  = Double.of_Z (SpecFloat.cond_Zopp sx (Z.pos vx) - SpecFloat.cond_Zopp sy (Z.pos vy)).
Proof.
  intros Hx Hy Hsum.
  pose proof (digits_of_small vx Hx). pose proof (digits_of_small vy Hy).
  unfold Double.sub, SpecFloat.SFsub, Double.normal.
  set (ez := Z.min (Z.pos (SpecFloat.digits2_pos vx) - 53)
                   (Z.pos (SpecFloat.digits2_pos vy) - 53)).
  rewrite (normal_aligned vx ez), (normal_aligned vy ez) by lia.
  replace (SpecFloat.cond_Zopp sx (Z.pos vx * 2 ^ (- ez))
           - SpecFloat.cond_Zopp sy (Z.pos vy * 2 ^ (- ez)))
    with ((SpecFloat.cond_Zopp sx (Z.pos vx) - SpecFloat.cond_Zopp sy (Z.pos vy))
          * 2 ^ (- ez))
    by (destruct sx, sy; unfold SpecFloat.cond_Zopp; lia).
  replace ez with (- (- ez)) at 2 by lia.
  apply binary_normalize_scaled; [done|lia|lia].
Qed.

(** The sum of two integers is computed exactly when they and it are
    below 2^53 in magnitude. *)
Lemma add_exact (x y : Z) :
  Z.abs x < 2 ^ 53 -> Z.abs y < 2 ^ 53 -> Z.abs (x + y) < 2 ^ 53 ->
  Double.add (Double.of_Z x) (Double.of_Z y) = Double.of_Z (x + y).
Proof.
  intros Hx Hy Hsum. rewrite (of_Z_normal x), (of_Z_normal y) by done.
  destruct x as [|vx|vx], y as [|vy|vy];
    try (by rewrite of_Z_normal by done).
  - by apply (add_normal false false).
  - by apply (add_normal false true).
  - by apply (add_normal true false).
  - by apply (add_normal true true).
Qed.

(** So is their difference. *)
Lemma sub_exact (x y : Z) :
  Z.abs x < 2 ^ 53 -> Z.abs y < 2 ^ 53 -> Z.abs (x - y) < 2 ^ 53 ->
  Double.sub (Double.of_Z x) (Double.of_Z y) = Double.of_Z (x - y).
Proof.
  intros Hx Hy Hsum. rewrite (of_Z_normal x), (of_Z_normal y) by done.
  destruct x as [|vx|vx], y as [|vy|vy];
    try (by rewrite of_Z_normal by done).
  - by apply (sub_normal false false).
  - by apply (sub_normal false true).
  - by apply (sub_normal true false).
  - by apply (sub_normal true true).
Qed.

Lemma digits_of_product (vx vy : positive) :
  Z.pos (SpecFloat.digits2_pos vx) + Z.pos (SpecFloat.digits2_pos vy) - 1
  <= Z.pos (SpecFloat.digits2_pos (vx * vy))
  <= Z.pos (SpecFloat.digits2_pos vx) + Z.pos (SpecFloat.digits2_pos vy).
Proof.
  pose proof (digits2_pos_bounds vx) as [Hxl Hxu].
  pose proof (digits2_pos_bounds vy) as [Hyl Hyu].
  pose proof (digits2_pos_bounds (vx * vy)) as [Hl Hu].
  set (dx := Z.pos (SpecFloat.digits2_pos vx)) in *.
  set (dy := Z.pos (SpecFloat.digits2_pos vy)) in *.
  set (dw := Z.pos (SpecFloat.digits2_pos (vx * vy))) in *.
  assert (0 < dx) by (unfold dx; lia). assert (0 < dy) by (unfold dy; lia).
  assert (0 < dw) by (unfold dw; lia).
  rewrite Pos2Z.inj_mul in Hl, Hu.
  assert (0 < 2 ^ (dx - 1)) by (apply Z.pow_pos_nonneg; lia).
  assert (0 < 2 ^ (dy - 1)) by (apply Z.pow_pos_nonneg; lia).
  assert (2 ^ (dx - 1 + (dy - 1)) <= Z.pos vx * Z.pos vy)
    by (rewrite Z.pow_add_r by lia; apply Z.mul_le_mono_nonneg; lia).
  assert (Z.pos vx * Z.pos vy < 2 ^ (dx + dy))
    by (rewrite Z.pow_add_r by lia; apply Z.mul_lt_mono_nonneg; lia).
  split.
  - destruct (Z.le_gt_cases (dx + dy - 1) dw) as [?|Hgt]; [done|].
    assert (2 ^ dw <= 2 ^ (dx - 1 + (dy - 1))) by (apply Z.pow_le_mono_r; lia). lia.
  - destruct (Z.le_gt_cases dw (dx + dy)) as [?|Hgt]; [done|].
    assert (2 ^ (dx + dy) <= 2 ^ (dw - 1)) by (apply Z.pow_le_mono_r; lia). lia.
Qed.

(** The product of two integers is computed exactly when it is below
    2^53 in magnitude. *)
Lemma mul_normal (sx sy : bool) (vx vy : positive) :
  Z.pos (vx * vy) < 2 ^ 53 ->
  Double.mul (Double.normal sx vx) (Double.normal sy vy)
  = Double.normal (xorb sx sy) (vx * vy).
Proof.
  intros Hw.
  assert (Z.pos vx < 2 ^ 53) as Hx by (rewrite Pos2Z.inj_mul in Hw; nia).
  assert (Z.pos vy < 2 ^ 53) as Hy by (rewrite Pos2Z.inj_mul in Hw; nia).
  pose proof (digits_of_small vx Hx) as Hdx. pose proof (digits_of_small vy Hy) as Hdy.
  pose proof (digits_of_small _ Hw) as Hdw.
  pose proof (digits_of_product vx vy) as Hprod.
  unfold Double.mul, SpecFloat.SFmul, Double.normal.
  set (dx := Z.pos (SpecFloat.digits2_pos vx)) in *.
  set (dy := Z.pos (SpecFloat.digits2_pos vy)) in *.
  set (dw := Z.pos (SpecFloat.digits2_pos (vx * vy))) in *.
  assert (0 < dx) by (unfold dx; lia). assert (0 < dy) by (unfold dy; lia).
  assert (0 < 2 ^ (53 - dx)) by (apply Z.pow_pos_nonneg; lia).
  assert (0 < 2 ^ (53 - dy)) by (apply Z.pow_pos_nonneg; lia).
  assert (0 < 2 ^ (53 - dw)) by (apply Z.pow_pos_nonneg; lia).
  replace (dw - 53) with (dx - 53 + (dy - 53) + (53 + dw - dx - dy)) by lia.
  apply round_aux_shift; [lia| | |lia].
  - rewrite Pos2Z.inj_mul, !Z2Pos.id by nia. rewrite Pos2Z.inj_mul.
    replace (Z.pos vx * Z.pos vy * 2 ^ (53 - dw) * 2 ^ (53 + dw - dx - dy))
      with (Z.pos vx * Z.pos vy * (2 ^ (53 - dw) * 2 ^ (53 + dw - dx - dy))) by lia.
    rewrite <- Z.pow_add_r by lia.
    replace (Z.pos vx * 2 ^ (53 - dx) * (Z.pos vy * 2 ^ (53 - dy)))
      with (Z.pos vx * Z.pos vy * (2 ^ (53 - dx) * 2 ^ (53 - dy))) by lia.
    rewrite <- Z.pow_add_r by lia. do 2 f_equal. lia.
  - rewrite (digits2_pos_scaled (vx * vy) _ (53 - dw)); [fold dw; lia|lia|].
    rewrite Z2Pos.id; [done|]. rewrite Pos2Z.inj_mul in *. nia.
Qed.

(** A mantissa of at least 53 digits whose digits beyond the 53rd are
    zero is rounded without loss. *)
Lemma round_aux_exact (s : bool) (v M : positive) (k e : Z) :
  let d := Z.pos (SpecFloat.digits2_pos v) in
  0 <= k -> Z.pos M = Z.pos v * 2 ^ k ->
  d <= 53 -> 53 <= d + k -> -1074 <= e + k + d - 53 <= 971 ->
  SpecFloat.binary_round_aux Double.prec Double.emax s (Z.pos M) e SpecFloat.loc_Exact
  = SpecFloat.S754_finite s (Z.to_pos (Z.pos v * 2 ^ (53 - d))) (e + k + d - 53).
Proof.
  intros d Hk HM Hd Hlong Hc.
  assert (0 < 2 ^ (53 - d)) by (apply Z.pow_pos_nonneg; lia).
  set (m := Z.to_pos (Z.pos v * 2 ^ (53 - d))).
  assert (Hm : Z.pos m = Z.pos v * 2 ^ (53 - d)) by (unfold m; rewrite Z2Pos.id; nia).
  assert (Hdm : Z.pos (SpecFloat.digits2_pos m) = 53)
    by (rewrite (digits2_pos_scaled v m (53 - d)); [fold d; lia|lia|done]).
  destruct (Z.eq_dec (d + k) 53) as [Heq|Hne].
  - assert (M = m) as ->
      by (apply Pos2Z.inj; rewrite HM, Hm; do 2 f_equal; lia).
    replace (e + k + d - 53) with e by lia. apply round_aux_canonical; [done|lia].
  - replace (e + k + d - 53) with (e + (k + d - 53)) by lia.
    apply round_aux_shift; [lia| |done|lia].
    rewrite HM, Hm. rewrite <- Z.mul_assoc, <- Z.pow_add_r by lia. do 2 f_equal. lia.
Qed.

Lemma div_core_exact (mx my : positive) (ex ey Q : Z) :
  Z.pos (SpecFloat.digits2_pos mx) = 53 -> Z.pos (SpecFloat.digits2_pos my) = 53 ->
  -1021 <= ex - ey ->
  Z.pos mx * 2 ^ 53 = Q * Z.pos my ->
  SpecFloat.SFdiv_core_binary Double.prec Double.emax (Z.pos mx) ex (Z.pos my) ey
  = (Q, ex - ey - 53, SpecFloat.loc_Exact).
Proof.
  intros Hdx Hdy He HQ. unfold SpecFloat.SFdiv_core_binary.
  cbn [SpecFloat.Zdigits2]. rewrite Hdx, Hdy.
  rewrite fexp_normal by lia.
  replace (Z.min (53 + ex - (53 + ey) - 53) (ex - ey)) with (ex - ey - 53) by lia.
  replace (ex - ey - (ex - ey - 53)) with 53 by lia.
  rewrite Z.shiftl_mul_pow2 by lia. rewrite HQ.
  destruct (Z.div_eucl (Q * Z.pos my) (Z.pos my)) as [q r] eqn:Hdiv.
  assert (q = Q) as ->.
  { transitivity (Q * Z.pos my / Z.pos my); [unfold Z.div; by rewrite Hdiv|].
    apply Z.div_mul. lia. }
  assert (r = 0) as ->.
  { transitivity ((Q * Z.pos my) mod Z.pos my); [unfold Z.modulo; by rewrite Hdiv|].
    apply Z.mod_mul. lia. }
  do 2 f_equal. unfold SpecFloat.new_location.
  by destruct (Z.even (Z.pos my)).
Qed.

(** The quotient of two integers is computed exactly when it is an
    integer. *)
Lemma div_normal (sx sy : bool) (vz vy : positive) :
  Z.pos (vz * vy) < 2 ^ 53 ->
  Double.div (Double.normal sx (vz * vy)) (Double.normal sy vy)
  = Double.normal (xorb sx sy) vz.
Proof.
  intros Hx.
  assert (Z.pos vz < 2 ^ 53) as Hz by (rewrite Pos2Z.inj_mul in Hx; nia).
  assert (Z.pos vy < 2 ^ 53) as Hy by (rewrite Pos2Z.inj_mul in Hx; nia).
  pose proof (digits_of_small _ Hx) as Hdx. pose proof (digits_of_small vy Hy) as Hdy.
  pose proof (digits_of_small vz Hz) as Hdz.
  pose proof (digits_of_product vz vy) as Hprod.
  unfold Double.div, SpecFloat.SFdiv, Double.normal.
  set (dx := Z.pos (SpecFloat.digits2_pos (vz * vy))) in *.
  set (dy := Z.pos (SpecFloat.digits2_pos vy)) in *.
  set (dz := Z.pos (SpecFloat.digits2_pos vz)) in *.
  assert (0 < dy) by (unfold dy; lia). assert (0 < dz) by (unfold dz; lia).
  assert (0 < 2 ^ (53 - dx)) by (apply Z.pow_pos_nonneg; lia).
  assert (0 < 2 ^ (53 - dy)) by (apply Z.pow_pos_nonneg; lia).
  assert (0 < 2 ^ (53 - dx + dy)) by (apply Z.pow_pos_nonneg; lia).
  set (mx := Z.to_pos (Z.pos (vz * vy) * 2 ^ (53 - dx))).
  set (my := Z.to_pos (Z.pos vy * 2 ^ (53 - dy))).
  assert (Hmx : Z.pos mx = Z.pos vz * Z.pos vy * 2 ^ (53 - dx))
    by (unfold mx; rewrite Z2Pos.id; rewrite Pos2Z.inj_mul; nia).
  assert (Hmy : Z.pos my = Z.pos vy * 2 ^ (53 - dy))
    by (unfold my; rewrite Z2Pos.id; nia).
  set (M := Z.to_pos (Z.pos vz * 2 ^ (53 - dx + dy))).
  assert (HM : Z.pos M = Z.pos vz * 2 ^ (53 - dx + dy))
    by (unfold M; rewrite Z2Pos.id; nia).
  rewrite (div_core_exact mx my (dx - 53) (dy - 53) (Z.pos M)).
  - rewrite (round_aux_exact _ vz M (53 - dx + dy)); [f_equal; fold dz; lia| | | | |];
      fold dz; [lia|done|lia|lia|lia].
  - rewrite (digits2_pos_scaled (vz * vy) mx (53 - dx)); [fold dx; lia|lia|].
    rewrite Hmx, Pos2Z.inj_mul. done.
  - rewrite (digits2_pos_scaled vy my (53 - dy)); [fold dy; lia|lia|done].
  - lia.
  - rewrite Hmx, HM, Hmy.
    replace (Z.pos vz * Z.pos vy * 2 ^ (53 - dx) * 2 ^ 53)
      with (Z.pos vz * Z.pos vy * (2 ^ (53 - dx) * 2 ^ 53)) by lia.
    replace (Z.pos vz * 2 ^ (53 - dx + dy) * (Z.pos vy * 2 ^ (53 - dy)))
      with (Z.pos vz * Z.pos vy * (2 ^ (53 - dx + dy) * 2 ^ (53 - dy))) by lia.
    rewrite <- !Z.pow_add_r by lia. do 2 f_equal. lia.
Qed.

(** A product by a positive integer, and the quotient that undoes it. *)
Lemma mul_exact_pos (x k : Z) :
  0 < k < 2 ^ 53 -> Z.abs (x * k) < 2 ^ 53 ->
  Double.mul (Double.of_Z x) (Double.of_Z k) = Double.of_Z (x * k).
Proof.
  intros Hk Hxk.
  assert (Z.abs x < 2 ^ 53) by nia. assert (Z.abs k < 2 ^ 53) by lia.
  rewrite (of_Z_normal x), (of_Z_normal k), (of_Z_normal (x * k)) by done.
  destruct x as [|vx|vx], k as [|vk|vk]; try lia; [done| |].
  - apply (mul_normal false false). by rewrite Pos2Z.inj_mul.
  - apply (mul_normal true false). rewrite Pos2Z.inj_mul. lia.
Qed.

Lemma div_exact_pos (z k : Z) :
  0 < k < 2 ^ 53 -> Z.abs (z * k) < 2 ^ 53 ->
  Double.div (Double.of_Z (z * k)) (Double.of_Z k) = Double.of_Z z.
Proof.
  intros Hk Hzk.
  assert (Z.abs z < 2 ^ 53) by nia. assert (Z.abs k < 2 ^ 53) by lia.
  rewrite (of_Z_normal z), (of_Z_normal k), (of_Z_normal (z * k)) by done.
  destruct z as [|vz|vz], k as [|vk|vk]; try lia; [done| |].
  - apply (div_normal false false). by rewrite Pos2Z.inj_mul.
  - apply (div_normal true false). rewrite Pos2Z.inj_mul. lia.
Qed.

(** On integers below 2^52 in magnitude, and so on rows, both formulas
    count the rows from the ascent to the descent, on doubles as on the
    rationals. *)
Lemma double_heights_of_rows (a d : Z) :
  Z.abs a < 2 ^ 52 -> Z.abs d < 2 ^ 52 ->
  Double.Legacy.getHeight (Double.of_Z d) (Double.of_Z a) = Double.of_Z (d - a + 1)
  /\ Double.Primary.getHeight (Double.of_Z a) (Double.of_Z d) = Double.of_Z (d - a + 1).
Proof.
  intros Ha Hd.
  assert (2 ^ 53 = 2 * 2 ^ 52) as Hpow by reflexivity.
  unfold Double.Legacy.getHeight, Double.Primary.getHeight. split.
  - rewrite add_exact by lia. rewrite sub_exact by lia. f_equal. lia.
  - rewrite sub_exact by lia. rewrite add_exact by lia. done.
Qed.

(** On doubles the two formulas differ where a sum rounds: at an ascent
    and descent of 10^16, [descent + 1 - ascent] is 0 and
    [descent - ascent + 1] is 1; at the doubles nearest to 0.2 and 0.1
    they differ in the last place. *)
Lemma height_formulas_differ :
  let row := Double.of_Z (10 ^ 16) in
  let fifth := Double.div (Double.of_Z 2) (Double.of_Z 10) in
  let tenth := Double.div (Double.of_Z 1) (Double.of_Z 10) in
  Double.Legacy.getHeight row row = Double.of_Z 0
  /\ Double.Primary.getHeight row row = Double.of_Z 1
  /\ Double.Legacy.getHeight row row <> Double.Primary.getHeight row row
  /\ Double.Legacy.getHeight tenth fifth <> Double.Primary.getHeight fifth tenth.
Proof.
  intros row fifth tenth. split; [|split; [|split]].
  - vm_compute. reflexivity.
  - vm_compute. reflexivity.
  - vm_compute. discriminate.
  - vm_compute. discriminate.
Qed.

(** C8 — On integers below 2^52 in magnitude, which the rows a scan
    returns are, the two height formulas, [descent + 1 - ascent] and
    [descent - ascent + 1], give the same number, the count of rows from
    the ascent to the descent, and for a glyph of a single row both give
    1: on the doubles of the host, where each sum and difference of such
    integers is exact, and so on the rationals that stand for them. *)
Theorem height_formulas_agree (ascent descent : Z) :
  Z.abs ascent < 2 ^ 52 -> Z.abs descent < 2 ^ 52 ->
  (Double.Legacy.getHeight (Double.of_Z descent) (Double.of_Z ascent)
   = Double.Primary.getHeight (Double.of_Z ascent) (Double.of_Z descent)
   /\ Double.Legacy.getHeight (Double.of_Z descent) (Double.of_Z ascent)
      = Double.of_Z (descent - ascent + 1)
   /\ Double.Legacy.getHeight (Double.of_Z ascent) (Double.of_Z ascent) = Double.of_Z 1
   /\ Double.Primary.getHeight (Double.of_Z ascent) (Double.of_Z ascent)
      = Double.of_Z 1)
  /\ (Legacy.getHeight (of_Z descent) (of_Z ascent)
      = Primary.getHeight (Primary.Metrics (of_Z ascent) (of_Z descent))
      /\ Legacy.getHeight (of_Z descent) (of_Z ascent) = of_Z (descent - ascent + 1)
      /\ Legacy.getHeight (of_Z ascent) (of_Z ascent) = of_Z 1
      /\ Primary.getHeight (Primary.Metrics (of_Z ascent) (of_Z ascent)) = of_Z 1).
Proof.
  intros Ha Hd.
  destruct (double_heights_of_rows ascent descent Ha Hd) as [Hlegacy Hprimary].
  destruct (double_heights_of_rows ascent ascent Ha Ha) as [Hlegacy1 Hprimary1].
  replace (ascent - ascent + 1) with 1 in Hlegacy1, Hprimary1 by lia.
  split.
  - split; [by rewrite Hlegacy, Hprimary|]. split; [done|]. by split.
  - rewrite !legacy_height_of_rows, !primary_height_of_rows.
    replace (ascent - ascent + 1) with 1 by lia. done.
Qed.

Lemma height_formulas_agree_witness :
  Double.Legacy.getHeight (Double.of_Z 5) (Double.of_Z 3)
  = Double.Primary.getHeight (Double.of_Z 3) (Double.of_Z 5)
  /\ Double.Legacy.getHeight (Double.of_Z 5) (Double.of_Z 3) = Double.of_Z 3
  /\ Legacy.getHeight (of_Z 5) (of_Z 3) = of_Z 3.
Proof.
  destruct (height_formulas_agree 3 5) as ((Hsame & Hcount & _) & (_ & Hexact & _));
    [vm_compute; reflexivity|vm_compute; reflexivity|].
  split; [exact Hsame|]. split; [exact Hcount|exact Hexact].
Defined.

(** ** No foreground *)

(** The floor of a rational between two consecutive integers. *)
Lemma Qfloor_between (x : Q) (z : Z) :
  (inject_Z z <= x)%Q -> (x < inject_Z (z + 1))%Q -> Qfloor x = z.
Proof.
  intros Hlo Hhi.
  pose proof (Qfloor_le x) as Hfl. pose proof (Qlt_floor x) as Hfu.
  assert (Qfloor x < z + 1)
    by (rewrite Zlt_Qlt; eapply Qle_lt_trans; [exact Hfl|exact Hhi]).
  assert (z < Qfloor x + 1)
    by (rewrite Zlt_Qlt; eapply Qle_lt_trans; [exact Hlo|exact Hfu]).
  lia.
Qed.

(** Index -1 maps to row -1 on a raster at least one pixel wide. *)
Lemma primary_row_of_miss (width : number) :
  at_least_one_pixel width ->
  Primary.getYPosition (of_Z (-1)) width = of_Z (-1).
Proof.
  intros (w & -> & Hw). unfold Primary.getYPosition, of_Z.
  rewrite num_div_pos by reflexivity.
  rewrite num_div_pos by (apply Qsign_Gt; lra).
  unfold num_floor. do 2 f_equal. apply Qfloor_between.
  - apply Qle_shift_div_l; [lra|]. change (inject_Z (-1) / inject_Z 4)%Q with (- (1 # 4))%Q.
    change (inject_Z (-1)) with (- (1))%Q. lra.
  - apply Qlt_shift_div_r; [lra|]. change (inject_Z (-1) / inject_Z 4)%Q with (- (1 # 4))%Q.
    change (inject_Z (-1 + 1)) with 0%Q. lra.
Qed.

Lemma Z_div_minus_one (n : Z) : 0 < n -> -1 / n = -1.
Proof.
  intros Hn. symmetry. apply (Z.div_unique_pos (-1) n (-1) (n - 1)); lia.
Qed.

(** In the CommonJS variant the raster is never narrower than two
    pixels. *)
Lemma legacy_row_of_miss (z : Z) (t : jsstring) :
  0 < z -> t <> [] ->
  Legacy.getYPosition (of_Z (-1)) (Legacy.rasterWidth (of_Z z) t) = of_Z (-1).
Proof.
  intros Hz Ht.
  assert (0 < Z.of_nat (length t)) by (destruct t; [done|simpl; lia]).
  unfold Legacy.rasterWidth, of_Z, num_mul. rewrite <- !inject_Z_mult.
  change (Fin (inject_Z (-1))) with (of_Z (-1)).
  change (Fin (inject_Z (2 * z * Z.of_nat (length t))))
    with (of_Z (2 * z * Z.of_nat (length t))).
  rewrite legacy_row_is_div by nia. f_equal. apply Z_div_minus_one. nia.
Qed.

Lemma text_or_H_nonempty (text : option jsstring) : Legacy.text_or_H text <> [].
Proof. by destruct text as [[|c t]|]. Qed.

(** C9 — When the pixel buffer holds no foreground channel value, nothing
    is raised: both scans return -1, which the row formula maps to row -1
    (the raster being at least one pixel wide), so ascent and descent are
    -1 and the height is 1; [calculate] returns the record, with
    [(1 / devicePixelRatio) / fontSize] stored under [--cap-height].  The
    CommonJS variant does the same and stores [1 / fontSize]. *)
Theorem blank_raster_measures_one (host : Host) (s : state) (p : loc)
    (given : object) (text : option jsstring) :
  heap s !! p = Some given ->
  (forall fontSize data,
      let t := default (js "H") text in
      let phys := Primary.toPhysical host (Primary.logicalDimensions fontSize t) in
      Primary.getFontSize (given ∪ defaults) = inr fontSize ->
      test_whitespace t = false ->
      getImageData host (Primary.raster host (given ∪ defaults) fontSize t)
        (Primary.width phys) (Primary.height phys) = Some data ->
      no_foreground Primary.isNotWhite data ->
      at_least_one_pixel (Primary.width phys) ->
      findIndex Primary.isNotWhite data = -1
      /\ findLastIndex Primary.isNotWhite data = -1
      /\ Primary.getYPosition (of_Z (-1)) (Primary.width phys) = of_Z (-1)
      /\ Primary.getAscent data (Primary.width phys) = of_Z (-1)
      /\ Primary.getDescent data (Primary.width phys) = of_Z (-1)
      /\ Primary.getHeight (Primary.scan data phys) = of_Z 1
      /\ exists s' o,
           Primary.calculate host p text s = (s', inr p)
           /\ heap s' !! p = Some o
           /\ o !! "--cap-height"
              = Some (VNum (num_div (num_div (of_Z 1) (devicePixelRatio host))
                                    fontSize)))
  /\ (forall fontSize data,
        let t := Legacy.text_or_H text in
        let width := Legacy.rasterWidth fontSize t in
        Legacy.getFontSize (given ∪ defaults) = inr fontSize ->
        test_whitespace t = false ->
        getImageData host (Legacy.raster (given ∪ defaults) fontSize t)
          width (Legacy.rasterHeight fontSize) = Some data ->
        no_foreground Legacy.isBlack data ->
        findIndex Legacy.isBlack data = -1
        /\ findLastIndex Legacy.isBlack data = -1
        /\ Legacy.getYPosition (of_Z (-1)) width = of_Z (-1)
        /\ Legacy.getAscent data width = of_Z (-1)
        /\ Legacy.getDescent data width = of_Z (-1)
        /\ Legacy.getHeight (Legacy.getDescent data width)
                            (Legacy.getAscent data width) = of_Z 1
        /\ exists s' l o,
             Legacy.calculate host p text s = (s', inr l)
             /\ heap s' !! l = Some o
             /\ o !! "cap-height" = Some (VNum (num_div (of_Z 1) fontSize))).
Proof.
  intros Hgiven. split.
  - intros fontSize data t phys Hf Hws Hdata Hblank Hwide.
    pose proof (findIndex_none _ data Hblank) as Hfirst.
    pose proof (findLastIndex_none _ data Hblank) as Hlast.
    pose proof (primary_row_of_miss _ Hwide) as Hrow.
    assert (Ha : Primary.getAscent data (Primary.width phys) = of_Z (-1))
      by (unfold Primary.getAscent; by rewrite Hfirst).
    assert (Hd : Primary.getDescent data (Primary.width phys) = of_Z (-1))
      by (unfold Primary.getDescent; by rewrite Hlast).
    assert (Hh : Primary.getHeight (Primary.scan data phys) = of_Z 1)
      by (unfold Primary.scan; by rewrite Ha, Hd).
    repeat (split; [done|]).
    eexists _, _. split.
    + by apply (primary_calculate_run host s p given Hgiven text fontSize data).
    + cbn [heap]. rewrite lookup_insert_eq. split; [done|].
      rewrite lookup_insert_eq. fold t phys. by rewrite Hh.
  - intros fontSize data t width Hf Hws Hdata Hblank.
    pose proof (findIndex_none _ data Hblank) as Hfirst.
    pose proof (findLastIndex_none _ data Hblank) as Hlast.
    destruct (legacy_font_size_positive _ _ Hf) as (z & Hz & Hpos).
    assert (Hrow : Legacy.getYPosition (of_Z (-1)) width = of_Z (-1)).
    { unfold width. rewrite Hz. apply legacy_row_of_miss; [done|].
      apply text_or_H_nonempty. }
    assert (Ha : Legacy.getAscent data width = of_Z (-1))
      by (unfold Legacy.getAscent; by rewrite Hfirst).
    assert (Hd : Legacy.getDescent data width = of_Z (-1))
      by (unfold Legacy.getDescent; by rewrite Hlast).
    assert (Hh : Legacy.getHeight (Legacy.getDescent data width)
                                  (Legacy.getAscent data width) = of_Z 1)
      by (by rewrite Ha, Hd).
    repeat (split; [done|]).
    eexists _, _, _. split.
    + by apply (legacy_calculate_run host s p given Hgiven text fontSize data).
    + cbn [heap]. rewrite lookup_insert_eq. split; [done|].
      rewrite lookup_insert_eq. fold t width. by rewrite Hh.
Qed.

Lemma blank_raster_measures_one_witness :
  let host := blank_host (of_Z 2) in
  let one_px : object := {[ "font-size" := VStr (js "1px") ]} in
  (exists o,
      result_object (Primary.calculate host 0%nat None (store_of one_px)) = Some o
      /\ o !! "--cap-height" = Some (VNum (Fin (1 # 2))))
  /\ (exists o,
        result_object (Legacy.calculate host 0%nat None (store_of one_px)) = Some o
        /\ o !! "cap-height" = Some (VNum (Fin 1))).
Proof.
  intros host one_px.
  destruct (blank_raster_measures_one host (store_of one_px) 0%nat one_px None eq_refl)
    as [Hprimary Hlegacy].
  split.
  - destruct (Hprimary (of_Z 1) (replicate 64 255))
      as (_ & _ & _ & _ & _ & _ & s' & o & Hrun & Ho & Hcap).
    + reflexivity.
    + reflexivity.
    + reflexivity.
    + intros x Hx. apply elem_of_replicate in Hx as [-> _]. reflexivity.
    + exists 4%Q. split; [reflexivity|]. by vm_compute.
    + exists o. rewrite Hrun. split; [exact Ho|]. rewrite Hcap. reflexivity.
  - destruct (Hlegacy (of_Z 1) (replicate 16 255))
      as (_ & _ & _ & _ & _ & _ & s' & l & o & Hrun & Ho & Hcap).
    + reflexivity.
    + reflexivity.
    + reflexivity.
    + intros x Hx. apply elem_of_replicate in Hx as [-> _]. reflexivity.
    + exists o. rewrite Hrun. split; [exact Ho|]. rewrite Hcap. reflexivity.
Defined.

(** ** In-place result *)

(** C10 — In the ES6 variant a successful [calculate] returns the very
    reference it was given.  The object behind it has been changed in
    place: it now holds the given keys, the defaults for the keys that
    were missing, and under [--cap-height] the ratio
    [(height / devicePixelRatio) / fontSize] of the height scanned from
    the pixels the host returned for the raster.  No other object is
    touched and none is created. *)
Theorem calculate_returns_its_argument (host : Host) (s s' : state) (p l : loc)
    (given : object) (text : option jsstring) :
  heap s !! p = Some given ->
  Primary.calculate host p text s = (s', inr l) ->
  l = p
  /\ (exists fontSize data ratio o,
        let t := default (js "H") text in
        let phys := Primary.toPhysical host (Primary.logicalDimensions fontSize t) in
        Primary.getFontSize (given ∪ defaults) = inr fontSize
        /\ getImageData host (Primary.raster host (given ∪ defaults) fontSize t)
             (Primary.width phys) (Primary.height phys) = Some data
        /\ ratio = num_div (num_div (Primary.getHeight (Primary.scan data phys))
                                    (devicePixelRatio host))
                           fontSize
        /\ heap s' !! p = Some o
        /\ o = <["--cap-height" := VNum ratio]> (given ∪ defaults)
        /\ o !! "--cap-height" = Some (VNum ratio)
        /\ (forall k v, k <> "--cap-height" -> given !! k = Some v -> o !! k = Some v)
        /\ (forall k v, k <> "--cap-height" -> given !! k = None ->
                        defaults !! k = Some v -> o !! k = Some v))
  /\ (forall q, q <> p -> heap s' !! q = heap s !! q)
  /\ dom (heap s') = dom (heap s).
Proof.
  intros Hgiven Hrun.
  destruct (primary_calculate_inv host s p given Hgiven text s' l Hrun)
    as (fontSize & data & Hf & Hws & Hdata).
  rewrite (primary_calculate_run host s p given Hgiven text fontSize data Hf Hws Hdata)
    in Hrun.
  injection Hrun as <- <-. cbn [heap].
  split; [done|]. split; [|split].
  - exists fontSize, data. eexists _, _. cbv zeta.
    split; [exact Hf|]. split; [exact Hdata|]. split; [reflexivity|].
    split; [apply lookup_insert_eq|]. split; [done|].
    split; [apply lookup_insert_eq|]. split.
    + intros k v Hk Hv. rewrite lookup_insert_ne by done.
      by rewrite defaults_fill_lookup, Hv.
    + intros k v Hk Hnone Hv. rewrite lookup_insert_ne by done.
      by rewrite defaults_fill_lookup, Hnone.
  - intros q Hq. by rewrite lookup_insert_ne.
  - rewrite dom_insert_L. apply subseteq_union_1_L, singleton_subseteq_l.
    by eapply elem_of_dom_2.
Qed.

Lemma calculate_returns_its_argument_witness :
  let host := band_host (of_Z 2) 3 5 in
  let s := State (<[ 1%nat := defaults ]> {[ 0%nat := two_px ]}) None in
  snd (Primary.calculate host 0%nat None s) = inr 0%nat
  /\ heap (fst (Primary.calculate host 0%nat None s)) !! 1%nat = Some defaults
  /\ exists ratio,
       heap (fst (Primary.calculate host 0%nat None s)) !! 0%nat
       = Some (<["--cap-height" := VNum ratio]> (two_px ∪ defaults))
       /\ ratio ≈ Fin (3 # 4).
Proof.
  intros host s.
  assert (Hrun : Primary.calculate host 0%nat None s
                 = (fst (Primary.calculate host 0%nat None s), inr 0%nat))
    by (vm_compute; reflexivity).
  destruct (calculate_returns_its_argument host s _ 0%nat 0%nat two_px None
              eq_refl Hrun)
    as (_ & (fontSize & data & ratio & o & Hf & Hdata & Hratio & Ho & -> & _)
        & Hframe & _).
  cbv zeta in Hdata, Hratio.
  assert (Hsize : Primary.getFontSize (two_px ∪ defaults) = inr (of_Z 2))
    by (vm_compute; reflexivity).
  rewrite Hsize in Hf. injection Hf as <-.
  vm_compute in Hdata. injection Hdata as <-.
  split; [by rewrite Hrun|]. split.
  - transitivity (heap s !! 1%nat); [by apply (Hframe 1%nat)|reflexivity].
  - exists ratio. split; [exact Ho|]. rewrite Hratio. vm_compute. reflexivity.
Defined.

(** * Further properties *)

(** ** Bounds of the metrics *)

(** Both scans miss, or the forward one stops no later than the backward
    one, inside the list. *)
Lemma scans_ordered {A} (p : A -> bool) (l : list A) :
  (findIndex p l = -1 /\ findLastIndex p l = -1
   /\ forall x, x ∈ l -> p x = false)
  \/ (0 <= findIndex p l <= findLastIndex p l
      /\ findLastIndex p l < Z.of_nat (length l)).
Proof.
  pose proof (findIndex_spec p l) as Hfirst.
  inversion Hfirst as [Hall Heq|k x Hk Hx Hbefore Heq].
  - left. split; [done|]. split; [by apply findLastIndex_none|done].
  - right. destruct (scans_bracket p l k x Hk Hx) as [_ [Hlo Hhi]]. lia.
Qed.

(** The rows of the two scans on a raster of integer width. *)
Lemma row_pair_bounds (first last W H len : Z) :
  0 < W -> 0 <= H -> len = 4 * W * H ->
  (first = -1 /\ last = -1) \/ (0 <= first <= last /\ last < len) ->
  -1 <= first / (4 * W) <= last / (4 * W)
  /\ last / (4 * W) <= H - 1
  /\ (first / (4 * W) = -1 <-> first = -1)
  /\ (last / (4 * W) = -1 <-> last = -1).
Proof.
  intros HW HH -> [[-> ->]|[[H0 Hle] Hlt]].
  - rewrite Z_div_minus_one by lia. lia.
  - assert (0 <= first / (4 * W)) by (apply Z.div_pos; lia).
    assert (first / (4 * W) <= last / (4 * W)) by (apply Z.div_le_mono; lia).
    assert (last / (4 * W) < H) by (apply Z.div_lt_upper_bound; lia).
    lia.
Qed.

(** X1 — On a pixel buffer of [H] rows of positive integer width [W], the
    ascent and descent of both later variants are row numbers with
    [-1 <= ascent <= descent <= H - 1]; each is -1 exactly when the
    buffer holds no foreground value, and the height is
    [descent - ascent + 1], at least 1. *)
Theorem metrics_within_buffer (data : list Z) (W H : nat) :
  (0 < W)%nat -> length data = (4 * W * H)%nat ->
  (exists a d : Z,
      Primary.getAscent data (of_Z (Z.of_nat W)) = of_Z a
      /\ Primary.getDescent data (of_Z (Z.of_nat W)) = of_Z d
      /\ -1 <= a <= d /\ d <= Z.of_nat H - 1
      /\ (a = -1 <-> no_foreground Primary.isNotWhite data)
      /\ (d = -1 <-> no_foreground Primary.isNotWhite data)
      /\ Primary.getHeight
           (Primary.Metrics (Primary.getAscent data (of_Z (Z.of_nat W)))
                            (Primary.getDescent data (of_Z (Z.of_nat W))))
         = of_Z (d - a + 1))
  /\ (exists a d : Z,
        Legacy.getAscent data (of_Z (Z.of_nat W)) = of_Z a
        /\ Legacy.getDescent data (of_Z (Z.of_nat W)) = of_Z d
        /\ -1 <= a <= d /\ d <= Z.of_nat H - 1
        /\ (a = -1 <-> no_foreground Legacy.isBlack data)
        /\ (d = -1 <-> no_foreground Legacy.isBlack data)
        /\ Legacy.getHeight (Legacy.getDescent data (of_Z (Z.of_nat W)))
                            (Legacy.getAscent data (of_Z (Z.of_nat W)))
           = of_Z (d - a + 1)).
Proof.
  intros HW Hlen.
  assert (Hmiss : forall (fg : Z -> bool),
             findIndex fg data = -1 <-> no_foreground fg data).
  { intros fg. split; [|apply findIndex_none].
    intros Hm x Hx. destruct (fg x) eqn:Hfg; [|done].
    apply list_elem_of_lookup in Hx as [k Hk].
    destruct (scans_bracket fg data k x Hk Hfg) as [? _]. lia. }
  assert (Hmiss' : forall (fg : Z -> bool),
             findLastIndex fg data = -1 <-> no_foreground fg data).
  { intros fg. split; [|apply findLastIndex_none].
    intros Hm x Hx. destruct (fg x) eqn:Hfg; [|done].
    apply list_elem_of_lookup in Hx as [k Hk].
    destruct (scans_bracket fg data k x Hk Hfg) as [_ ?]. lia. }
  assert (Hrows : forall (fg : Z -> bool),
             let a := findIndex fg data / (4 * Z.of_nat W) in
             let d := findLastIndex fg data / (4 * Z.of_nat W) in
             -1 <= a <= d /\ d <= Z.of_nat H - 1
             /\ (a = -1 <-> no_foreground fg data)
             /\ (d = -1 <-> no_foreground fg data)).
  { intros fg a d.
    destruct (row_pair_bounds (findIndex fg data) (findLastIndex fg data)
                (Z.of_nat W) (Z.of_nat H) (Z.of_nat (length data)))
      as (Hord & Hup & Ha & Hd); [lia|lia|lia| |].
    - destruct (scans_ordered fg data) as [(? & ? & _)|[? ?]]; [by left|by right].
    - rewrite <- Hmiss at 1. rewrite <- Hmiss'. done. }
  split.
  - eexists _, _. unfold Primary.getAscent, Primary.getDescent.
    rewrite !primary_row_is_div by lia.
    split; [done|]. split; [done|].
    destruct (Hrows Primary.isNotWhite) as (? & ? & ? & ?).
    repeat (split; [done|]). apply primary_height_of_rows.
  - eexists _, _. unfold Legacy.getAscent, Legacy.getDescent.
    rewrite !legacy_row_is_div by lia.
    split; [done|]. split; [done|].
    destruct (Hrows Legacy.isBlack) as (? & ? & ? & ?).
    repeat (split; [done|]). apply legacy_height_of_rows.
Qed.

Lemma metrics_within_buffer_witness :
  exists a d : Z,
    Primary.getAscent (band_buffer 2 4 1 2 0 255) (of_Z 2) = of_Z a
    /\ Primary.getDescent (band_buffer 2 4 1 2 0 255) (of_Z 2) = of_Z d
    /\ -1 <= a <= d /\ d <= 3.
Proof.
  destruct (metrics_within_buffer (band_buffer 2 4 1 2 0 255) 2 4)
    as [(a & d & Ha & Hd & Hord & Hup & _) _]; [lia|reflexivity|].
  exists a, d. split; [exact Ha|]. split; [exact Hd|]. split; [exact Hord|].
  exact Hup.
Defined.

(** ** Outcomes of [calculate] *)

(** The ES6 [calculate] as a table: the font size is checked first, then
    the text, then the pixels are read. *)
Lemma primary_calculate_cases (host : Host) (s : state) (p : loc)
    (given : object) (text : option jsstring) :
  heap s !! p = Some given ->
  let props := given ∪ defaults in
  let t := default (js "H") text in
  let failed := State (<[p := props]> (heap s)) (container s) in
  Primary.calculate host p text s
  = match Primary.getFontSize props with
    | inl e => (failed, inl e)
    | inr fontSize =>
        if test_whitespace t then (failed, inl WhitespaceText)
        else
          let phys := Primary.toPhysical host (Primary.logicalDimensions fontSize t) in
          let context := Primary.raster host props fontSize t in
          match getImageData host context (Primary.width phys) (Primary.height phys) with
          | None => (failed, inl HostFailure)
          | Some data =>
              let m := Primary.scan data phys in
              let ratio := num_div (Primary.toPx host (Primary.getHeight m)) fontSize in
              (State (<[p := <["--cap-height" := VNum ratio]> props]> (heap s))
                     (displayed (Primary.marked host context m phys) (container s)),
               inr p)
          end
    end.
Proof.
  intros Hgiven props t failed.
  destruct (Primary.getFontSize props) as [e|fontSize] eqn:Hf.
  { by apply primary_calculate_font_error. }
  destruct (test_whitespace t) eqn:Hws.
  { by apply (primary_calculate_whitespace host s p given Hgiven text fontSize). }
  cbv zeta.
  destruct (getImageData host (Primary.raster host props fontSize t) _ _)
    as [data|] eqn:Hdata.
  - by apply primary_calculate_run.
  - by apply (primary_calculate_host_failure host s p given Hgiven text fontSize).
Qed.

(** The CommonJS [calculate] as a table, on the new object it creates. *)
Lemma legacy_calculate_cases (host : Host) (s : state) (p : loc)
    (given : object) (text : option jsstring) :
  heap s !! p = Some given ->
  let merged := given ∪ defaults in
  let l := fresh (dom (heap s)) in
  let t := Legacy.text_or_H text in
  let failed := State (<[l := merged]> (heap s)) (container s) in
  Legacy.calculate host p text s
  = match Legacy.getFontSize merged with
    | inl e => (failed, inl e)
    | inr fontSize =>
        if test_whitespace t then (failed, inl WhitespaceText)
        else
          let width := Legacy.rasterWidth fontSize t in
          let context := Legacy.raster merged fontSize t in
          match getImageData host context width (Legacy.rasterHeight fontSize) with
          | None => (failed, inl HostFailure)
          | Some data =>
              let height := Legacy.getHeight (Legacy.getDescent data width)
                                             (Legacy.getAscent data width) in
              (State (<[l := <["cap-height" := VNum (num_div height fontSize)]> merged]>
                        (heap s))
                     (displayed context (container s)),
               inr l)
          end
    end.
Proof.
  intros Hgiven merged l t failed.
  destruct (Legacy.getFontSize merged) as [e|fontSize] eqn:Hf.
  { by apply legacy_calculate_font_error. }
  destruct (test_whitespace t) eqn:Hws.
  { by apply (legacy_calculate_whitespace host s p given Hgiven text fontSize). }
  cbv zeta.
  destruct (getImageData host (Legacy.raster merged fontSize t) _ _)
    as [data|] eqn:Hdata.
  - by apply legacy_calculate_run.
  - by apply (legacy_calculate_host_failure host s p given Hgiven text fontSize).
Qed.

(** What a successful ES6 run returns. *)
Lemma primary_success_record (host : Host) (s s1 : state) (p l : loc)
    (given : object) (text : option jsstring) :
  heap s !! p = Some given ->
  Primary.calculate host p text s = (s1, inr l) ->
  l = p
  /\ exists ratio,
       heap s1 !! p = Some (<["--cap-height" := VNum ratio]> (given ∪ defaults)).
Proof.
  intros Hgiven Hrun.
  rewrite (primary_calculate_cases host s p given text Hgiven) in Hrun.
  cbv zeta in Hrun.
  destruct (Primary.getFontSize _); [done|]. destruct (test_whitespace _); [done|].
  destruct (getImageData _ _ _ _); [|done].
  injection Hrun as <- <-. split; [done|]. eexists. cbn [heap].
  apply lookup_insert_eq.
Qed.

(** The ES6 [calculate] writes to the given object only. *)
Lemma primary_calculate_frame (host : Host) (s s1 : state) (p q : loc)
    (given : object) (text : option jsstring) (r : error + loc) :
  heap s !! p = Some given ->
  Primary.calculate host p text s = (s1, r) ->
  q <> p -> heap s1 !! q = heap s !! q.
Proof.
  intros Hgiven Hrun Hq.
  rewrite (primary_calculate_cases host s p given text Hgiven) in Hrun.
  cbv zeta in Hrun.
  destruct (Primary.getFontSize _); [|destruct (test_whitespace _);
    [|destruct (getImageData _ _ _ _)]];
    injection Hrun as <- <-; cbn [heap]; by rewrite lookup_insert_ne.
Qed.

(** X2 — The ES6 [calculate] checks in a fixed order.  An invalid font
    size (after the defaults are filled in) is thrown whatever the text
    is; with a valid font size a text with whitespace is thrown before
    any pixel is read.  Whenever it throws, the given record has received
    the missing defaults and nothing else has changed, the container
    included.  It returns a record exactly when the font size is valid,
    the text has no whitespace and the host returns the pixels. *)
Theorem primary_error_precedence (host : Host) (s : state) (p : loc)
    (given : object) (text : option jsstring) :
  heap s !! p = Some given ->
  let props := given ∪ defaults in
  let t := default (js "H") text in
  let r := Primary.calculate host p text s in
  (forall e, Primary.getFontSize props = inl e -> snd r = inl e)
  /\ (forall f, Primary.getFontSize props = inr f -> test_whitespace t = true ->
                snd r = inl WhitespaceText)
  /\ (forall e, snd r = inl e ->
                fst r = State (<[p := props]> (heap s)) (container s))
  /\ ((exists l, snd r = inr l)
      <-> exists f data,
            let phys := Primary.toPhysical host (Primary.logicalDimensions f t) in
            Primary.getFontSize props = inr f /\ test_whitespace t = false
            /\ getImageData host (Primary.raster host props f t)
                 (Primary.width phys) (Primary.height phys) = Some data).
Proof.
  intros Hgiven props t r. unfold r.
  rewrite (primary_calculate_cases host s p given text Hgiven). cbv zeta.
  fold props t. split; [|split; [|split]].
  - by intros e ->.
  - by intros f -> ->.
  - intros e. destruct (Primary.getFontSize props); [done|].
    destruct (test_whitespace t); [done|].
    by destruct (getImageData _ _ _ _).
  - split.
    + intros [l Hl]. destruct (Primary.getFontSize props) as [|f]; [done|].
      destruct (test_whitespace t); [done|].
      destruct (getImageData _ _ _ _) as [data|] eqn:Hdata; [|done].
      by exists f, data.
    + intros (f & data & Hf & Hws & Hdata). rewrite Hf, Hws, Hdata. by eexists.
Qed.

Lemma primary_error_precedence_witness :
  let host := band_host (of_Z 1) 1 2 in
  let bad : object := {[ "font-size" := VStr (js "px") ]} in
  snd (Primary.calculate host 0%nat (Some (js "a b")) (store_of bad)) = inl ZeroFontSize
  /\ fst (Primary.calculate host 0%nat (Some (js "a b")) (store_of bad))
     = State (<[0%nat := bad ∪ defaults]> (heap (store_of bad))) None.
Proof.
  intros host bad.
  destruct (primary_error_precedence host (store_of bad) 0%nat bad (Some (js "a b"))
              eq_refl) as (Hfont & _ & Hfailed & _).
  pose proof (Hfont ZeroFontSize eq_refl) as Hsnd.
  split; [exact Hsnd|]. exact (Hfailed ZeroFontSize Hsnd).
Defined.

(** X3 — The CommonJS [calculate] checks in the same order, font size,
    then whitespace, then the pixels, on a new object that holds the
    given properties over the defaults.  Whenever it throws, that object
    is all it leaves behind: the given record and the container are as
    they were.  It returns a record exactly when the font size is valid,
    the text has no whitespace and the host returns the pixels. *)
Theorem legacy_error_precedence (host : Host) (s : state) (p : loc)
    (given : object) (text : option jsstring) :
  heap s !! p = Some given ->
  let merged := given ∪ defaults in
  let t := Legacy.text_or_H text in
  let r := Legacy.calculate host p text s in
  (forall e, Legacy.getFontSize merged = inl e -> snd r = inl e)
  /\ (forall f, Legacy.getFontSize merged = inr f -> test_whitespace t = true ->
                snd r = inl WhitespaceText)
  /\ (forall e, snd r = inl e ->
                fst r = State (<[fresh (dom (heap s)) := merged]> (heap s)) (container s)
                /\ heap (fst r) !! p = Some given)
  /\ ((exists l, snd r = inr l)
      <-> exists f data,
            Legacy.getFontSize merged = inr f /\ test_whitespace t = false
            /\ getImageData host (Legacy.raster merged f t)
                 (Legacy.rasterWidth f t) (Legacy.rasterHeight f) = Some data).
Proof.
  intros Hgiven merged t r. unfold r.
  destruct (legacy_merge_fresh s p given Hgiven) as [Hne _].
  rewrite (legacy_calculate_cases host s p given text Hgiven). cbv zeta.
  fold merged t. split; [|split; [|split]].
  - by intros e ->.
  - by intros f -> ->.
  - intros e. destruct (Legacy.getFontSize merged); [|destruct (test_whitespace t);
      [|destruct (getImageData _ _ _ _)]]; try done;
      (intros _; split; [done|]; cbn [fst heap]; by rewrite lookup_insert_ne).
  - split.
    + intros [l Hl]. destruct (Legacy.getFontSize merged) as [|f]; [done|].
      destruct (test_whitespace t); [done|].
      destruct (getImageData _ _ _ _) as [data|] eqn:Hdata; [|done].
      by exists f, data.
    + intros (f & data & Hf & Hws & Hdata). rewrite Hf, Hws, Hdata. by eexists.
Qed.

Lemma legacy_error_precedence_witness :
  let host := band_host (of_Z 1) 1 2 in
  let bad : object := {[ "font-size" := VStr (js "px") ]} in
  snd (Legacy.calculate host 0%nat (Some (js "a b")) (store_of bad)) = inl InvalidFontSize
  /\ heap (fst (Legacy.calculate host 0%nat (Some (js "a b")) (store_of bad))) !! 0%nat
     = Some bad.
Proof.
  intros host bad.
  destruct (legacy_error_precedence host (store_of bad) 0%nat bad (Some (js "a b"))
              eq_refl) as (Hfont & _ & Hfailed & _).
  pose proof (Hfont InvalidFontSize eq_refl) as Hsnd.
  split; [exact Hsnd|]. exact (proj2 (Hfailed InvalidFontSize Hsnd)).
Defined.

(** ** What [calculate] leaves alone *)

(** X4 — The CommonJS [calculate] never changes an object that exists
    when it is called, the given one included, whatever the outcome; it
    creates at most one object. *)
Theorem legacy_calculate_preserves_objects (host : Host) (s : state) (p : loc)
    (text : option jsstring) (q : loc) (o : object) :
  heap s !! q = Some o ->
  heap (fst (Legacy.calculate host p text s)) !! q = Some o
  /\ dom (heap (fst (Legacy.calculate host p text s)))
     ⊆ dom (heap s) ∪ {[ fresh (dom (heap s)) ]}.
Proof.
  intros Hq.
  destruct (heap s !! p) as [given|] eqn:Hgiven.
  - assert (fresh (dom (heap s)) <> q) as Hne.
    { intros Heq. apply (is_fresh (dom (heap s))). rewrite Heq.
      by eapply elem_of_dom_2. }
    rewrite (legacy_calculate_cases host s p given text Hgiven). cbv zeta.
    destruct (Legacy.getFontSize _); [|destruct (test_whitespace _);
      [|destruct (getImageData _ _ _ _)]];
      cbn [fst heap]; rewrite lookup_insert_ne by done;
      (split; [done|]); by rewrite dom_insert_L, (comm_L (∪)).
  - assert (Legacy.calculate host p text s = (s, inl HostFailure)) as ->.
    { unfold Legacy.calculate, Legacy.mergeWithDefaults, mbind, M_bind, read.
      by rewrite Hgiven. }
    cbn [fst]. split; [done|apply union_subseteq_l].
Qed.

Lemma legacy_calculate_preserves_objects_witness :
  heap (fst (Legacy.calculate (band_host (of_Z 1) 1 2) 0%nat None (store_of two_px)))
    !! 0%nat = Some two_px.
Proof.
  apply (legacy_calculate_preserves_objects (band_host (of_Z 1) 1 2)
           (store_of two_px) 0%nat None 0%nat two_px).
  reflexivity.
Defined.



(** ** Calling [calculate] again *)

(** A filled record is a fixed point of filling, also with one more key. *)
Lemma filled_is_filled (given : object) (k : string) (v : value) :
  <[k := v]> (given ∪ defaults) ∪ defaults = <[k := v]> (given ∪ defaults).
Proof.
  rewrite <- insert_union_l. f_equal.
  rewrite <- (assoc_L (∪)). by rewrite (idemp_L (∪) defaults).
Qed.

(** Neither variant reads the key it writes. *)
Lemma primary_ignores_cap_height (o : object) (v : value) :
  Primary.getFontSize (<["--cap-height" := v]> o) = Primary.getFontSize o
  /\ Primary.composeFontProperty (<["--cap-height" := v]> o)
     = Primary.composeFontProperty o.
Proof.
  unfold Primary.getFontSize, Primary.composeFontProperty, get, font_keys.
  cbn [fmap list_fmap]. split; rewrite !lookup_insert_ne; done.
Qed.

Lemma legacy_ignores_cap_height (o : object) (v : value) :
  Legacy.getFontSize (<["cap-height" := v]> o) = Legacy.getFontSize o
  /\ Legacy.composeFontProperty (<["cap-height" := v]> o)
     = Legacy.composeFontProperty o.
Proof.
  unfold Legacy.getFontSize, Legacy.composeFontProperty, get, font_keys.
  cbn [fmap list_fmap]. split; rewrite !lookup_insert_ne; done.
Qed.

Lemma primary_raster_ignores_cap_height (host : Host) (o : object) (v : value)
    (fontSize : number) (t : jsstring) :
  Primary.raster host (<["--cap-height" := v]> o) fontSize t
  = Primary.raster host o fontSize t.
Proof.
  unfold Primary.raster, Primary.drawContext.
  by rewrite (proj2 (primary_ignores_cap_height o v)).
Qed.

Lemma legacy_raster_ignores_cap_height (o : object) (v : value)
    (fontSize : number) (t : jsstring) :
  Legacy.raster (<["cap-height" := v]> o) fontSize t = Legacy.raster o fontSize t.
Proof.
  unfold Legacy.raster, Legacy.drawContext.
  by rewrite (proj2 (legacy_ignores_cap_height o v)).
Qed.

(** X6 — In the ES6 variant, calling [calculate] again on the record a
    successful call returned succeeds, stores the same ratio and leaves
    every object as it is: the record is a fixed point.  Only the display
    grows, by the same canvas once more. *)
Theorem primary_calculate_again (host : Host) (s s1 : state) (p l : loc)
    (given : object) (text : option jsstring) :
  heap s !! p = Some given ->
  Primary.calculate host p text s = (s1, inr l) ->
  exists c,
    container s1 = displayed c (container s)
    /\ Primary.calculate host l text s1
       = (State (heap s1) (displayed c (container s1)), inr l).
Proof.
  intros Hgiven Hrun.
  rewrite (primary_calculate_cases host s p given text Hgiven) in Hrun.
  cbv zeta in Hrun.
  destruct (Primary.getFontSize (given ∪ defaults)) as [e|fontSize] eqn:Hf; [done|].
  destruct (test_whitespace (default (js "H") text)) eqn:Hws; [done|].
  destruct (getImageData host _ _ _) as [data|] eqn:Hdata; [|done].
  injection Hrun as <- <-. eexists. split; [reflexivity|].
  set (ratio := num_div _ fontSize).
  set (o1 := <["--cap-height" := VNum ratio]> (given ∪ defaults)).
  set (s1 := State (<[p := o1]> (heap s)) _).
  assert (Hs1 : heap s1 !! p = Some o1) by apply lookup_insert_eq.
  assert (Ho1 : o1 ∪ defaults = o1) by apply filled_is_filled.
  assert (Hf1 : Primary.getFontSize o1 = inr fontSize)
    by (unfold o1; by rewrite (proj1 (primary_ignores_cap_height _ _))).
  assert (Hr1 : forall t, Primary.raster host o1 fontSize t
                          = Primary.raster host (given ∪ defaults) fontSize t)
    by (intros t; apply primary_raster_ignores_cap_height).
  assert (Hfix : <["--cap-height" := VNum ratio]> o1 = o1)
    by (unfold o1; apply insert_insert_eq).
  rewrite (primary_calculate_cases host s1 p o1 text Hs1). cbv zeta.
  rewrite Ho1, Hf1, Hws, Hr1, Hdata. fold ratio. rewrite Hfix.
  by rewrite (insert_id _ _ _ Hs1).
Qed.

Lemma primary_calculate_again_witness :
  let host := band_host (of_Z 2) 3 5 in
  let s1 := fst (Primary.calculate host 0%nat None (store_of two_px)) in
  heap (fst (Primary.calculate host 0%nat None s1)) = heap s1
  /\ snd (Primary.calculate host 0%nat None s1) = inr 0%nat.
Proof.
  intros host s1.
  destruct (primary_calculate_again host (store_of two_px) s1 0%nat 0%nat two_px None)
    as (c & _ & ->); [reflexivity|vm_compute; reflexivity|]. by split.
Defined.

(** X7 — In the CommonJS variant, after a successful [calculate] a second
    call with the same arguments succeeds and returns a new object equal
    to the first result, and so does a call on the first result itself;
    the first result is not changed by either. *)
Theorem legacy_calculate_again (host : Host) (s s1 : state) (p l : loc)
    (given : object) (text : option jsstring) :
  heap s !! p = Some given ->
  Legacy.calculate host p text s = (s1, inr l) ->
  exists o,
    heap s1 !! l = Some o
    /\ (forall again, again = p \/ again = l ->
          exists s2 l2,
            Legacy.calculate host again text s1 = (s2, inr l2)
            /\ l2 <> l /\ heap s2 !! l2 = Some o /\ heap s2 !! l = Some o).
Proof.
  intros Hgiven Hrun.
  destruct (legacy_merge_fresh s p given Hgiven) as [Hlp Hfresh].
  rewrite (legacy_calculate_cases host s p given text Hgiven) in Hrun.
  cbv zeta in Hrun.
  destruct (Legacy.getFontSize (given ∪ defaults)) as [e|fontSize] eqn:Hf; [done|].
  destruct (test_whitespace (Legacy.text_or_H text)) eqn:Hws; [done|].
  destruct (getImageData host _ _ _) as [data|] eqn:Hdata; [|done].
  injection Hrun as <- <-.
  set (ratio := num_div _ fontSize).
  set (o := <["cap-height" := VNum ratio]> (given ∪ defaults)).
  set (l := fresh (dom (heap s))) in *.
  set (s1 := State (<[l := o]> (heap s)) _).
  assert (Hl : heap s1 !! l = Some o) by apply lookup_insert_eq.
  assert (Hp : heap s1 !! p = Some given)
    by (unfold s1; cbn [heap]; by rewrite lookup_insert_ne).
  assert (Hnew : fresh (dom (heap s1)) <> l).
  { intros Heq. apply (is_fresh (dom (heap s1))). rewrite Heq.
    by eapply elem_of_dom_2. }
  exists o. split; [done|]. intros again [->| ->].
  - rewrite (legacy_calculate_cases host s1 p given text Hp). cbv zeta.
    rewrite Hf, Hws, Hdata. fold ratio. fold o.
    eexists _, _. split; [reflexivity|]. split; [done|]. cbn [heap].
    split; [apply lookup_insert_eq|]. by rewrite lookup_insert_ne.
  - assert (Ho : o ∪ defaults = o) by apply filled_is_filled.
    assert (Hfo : Legacy.getFontSize o = inr fontSize)
      by (unfold o; by rewrite (proj1 (legacy_ignores_cap_height _ _))).
    assert (Hro : forall t, Legacy.raster o fontSize t
                            = Legacy.raster (given ∪ defaults) fontSize t)
      by (intros t; apply legacy_raster_ignores_cap_height).
    assert (Hfix : <["cap-height" := VNum ratio]> o = o)
      by (unfold o; apply insert_insert_eq).
    rewrite (legacy_calculate_cases host s1 l o text Hl). cbv zeta.
    rewrite Ho, Hfo, Hws, Hro, Hdata. fold ratio. rewrite Hfix.
    eexists _, _. split; [reflexivity|]. split; [done|]. cbn [heap].
    split; [apply lookup_insert_eq|]. by rewrite lookup_insert_ne.
Qed.

Lemma legacy_calculate_again_witness :
  let host := band_host (of_Z 2) 3 5 in
  let s1 := fst (Legacy.calculate host 0%nat None (store_of two_px)) in
  exists o,
    heap s1 !! 1%nat = Some o
    /\ result_object (Legacy.calculate host 0%nat None s1) = Some o
    /\ result_object (Legacy.calculate host 1%nat None s1) = Some o.
Proof.
  intros host s1.
  destruct (legacy_calculate_again host (store_of two_px) s1 0%nat 1%nat two_px None)
    as (o & Ho & Hagain); [reflexivity|vm_compute; reflexivity|].
  exists o. split; [exact Ho|]. split.
  - destruct (Hagain 0%nat) as (s2 & l2 & -> & _ & Hl2 & _); [by left|]. exact Hl2.
  - destruct (Hagain 1%nat) as (s2 & l2 & -> & _ & Hl2 & _); [by right|]. exact Hl2.
Defined.

(** ** The listener and the element inspector *)

Lemma defaults_keys (k : string) : is_Some (defaults !! k) <-> k ∈ font_keys.
Proof.
  unfold defaults, font_keys. rewrite !lookup_insert_is_Some, lookup_empty.
  rewrite !elem_of_cons, elem_of_nil. split.
  - intros [->|[_ [->|[_ [->|[_ [->|[_ [? ?]]]]]]]]]; [tauto..|done].
  - intros [->|[->|[->|[->|[]]]]].
    + by left.
    + right. split; [done|]. by left.
    + right. split; [done|]. right. split; [done|]. by left.
    + right. split; [done|]. right. split; [done|]. right. split; [done|]. by left.
Qed.

(** [_.pick] copies the paths the object has and nothing else. *)
Lemma pick_lookup (o : object) (paths : list string) (k : string) :
  Primary.pick o paths !! k = if decide (k ∈ paths) then o !! k else None.
Proof.
  unfold Primary.pick.
  assert (Hgen : forall picked : object,
             foldl (fun (picked : object) k' =>
                      match o !! k' with
                      | Some v => <[k' := v]> picked
                      | None => picked
                      end) picked paths !! k
             = if decide (k ∈ paths)
               then match o !! k with Some v => Some v | None => picked !! k end
               else picked !! k).
  { induction paths as [|k' paths IH]; intros picked; cbn [foldl].
    - case_decide as Hin; [by apply elem_of_nil in Hin|done].
    - rewrite IH.
      assert (Hcons : k ∈ k' :: paths <-> k = k' \/ k ∈ paths) by apply elem_of_cons.
      destruct (decide (k = k')) as [->|Hne].
      + destruct (o !! k') eqn:Hk.
        * rewrite lookup_insert_eq. repeat case_decide; tauto.
        * repeat case_decide; tauto.
      + assert (Hpicked : match o !! k' with
                          | Some v => <[k' := v]> picked
                          | None => picked
                          end !! k = picked !! k)
          by (destruct (o !! k'); [by rewrite lookup_insert_ne|done]).
        rewrite Hpicked. repeat case_decide; tauto. }
  rewrite Hgen, lookup_empty.
  destruct (decide (k ∈ paths)); [by destruct (o !! k)|done].
Qed.

(** X8 — [inspect] measures the four font properties of an element's
    computed style and nothing else of it: the record it returns is a new
    object whose keys are among the four font keys and [--cap-height],
    each font key holding the computed value when the style has one and
    the default otherwise; no object that existed before is changed. *)
Theorem inspect_picks_font_keys (host : Host) (Element : Type)
    (getComputedStyle : Element -> object) (element : Element)
    (text : option jsstring) (s : state) :
  let style := getComputedStyle element in
  let picked := fresh (dom (heap s)) in
  let s0 := State (<[picked := Primary.pick style font_keys]> (heap s)) (container s) in
  Primary.inspect host Element getComputedStyle element text s
  = Primary.calculate host picked text s0
  /\ (forall s1 l,
        Primary.inspect host Element getComputedStyle element text s = (s1, inr l) ->
        l = picked /\ heap s !! l = None
        /\ exists o,
             heap s1 !! l = Some o
             /\ (forall k, is_Some (o !! k) <-> k ∈ font_keys \/ k = "--cap-height")
             /\ (forall k, k ∈ font_keys ->
                           o !! k = match style !! k with
                                    | Some v => Some v
                                    | None => defaults !! k
                                    end))
  /\ (forall s1 r q o,
        Primary.inspect host Element getComputedStyle element text s = (s1, r) ->
        heap s !! q = Some o -> heap s1 !! q = Some o).
Proof.
  intros style picked s0.
  assert (Hrun : Primary.inspect host Element getComputedStyle element text s
                 = Primary.calculate host picked text s0) by reflexivity.
  assert (Hnew : heap s !! picked = None)
    by (apply not_elem_of_dom, is_fresh).
  assert (Hs0 : heap s0 !! picked = Some (Primary.pick style font_keys))
    by apply lookup_insert_eq.
  split; [exact Hrun|]. rewrite Hrun. split.
  - intros s1 l Hcalc.
    destruct (primary_success_record host s0 s1 picked l _ text Hs0 Hcalc)
      as (Hl & ratio & Ho).
    subst l.
    split; [done|]. split; [done|]. exists (<["--cap-height" := VNum ratio]>
      (Primary.pick style font_keys ∪ defaults)).
    split; [done|]. split.
    + intros k. rewrite lookup_insert_is_Some.
      rewrite defaults_fill_lookup, pick_lookup.
      pose proof (defaults_keys k) as Hk.
      assert ("--cap-height" ∉ font_keys) as Hcapkey
        by (unfold font_keys; rewrite !elem_of_cons, elem_of_nil;
            intros [?|[?|[?|[?|[]]]]]; done).
      destruct (decide (k ∈ font_keys)) as [Hin|Hnin].
      * split; [by left|]. intros _. right. split; [by intros <-|].
        destruct (style !! k); [by eexists|by apply Hk].
      * split.
        -- intros [<-|[_ Hsome]]; [by right|]. by apply Hk in Hsome.
        -- intros [?| ->]; [done|by left].
    + intros k Hin. rewrite lookup_insert_ne
        by (intros <-; revert Hin; unfold font_keys;
            rewrite !elem_of_cons, elem_of_nil; intros [?|[?|[?|[?|[]]]]]; done).
      rewrite defaults_fill_lookup, pick_lookup. by rewrite decide_True by done.
  - intros s1 r q o Hcalc Hq.
    assert (picked <> q) by (intros ->; congruence).
    rewrite (primary_calculate_cases host s0 picked _ text Hs0) in Hcalc.
    cbv zeta in Hcalc.
    destruct (Primary.getFontSize _); [|destruct (test_whitespace _);
      [|destruct (getImageData _ _ _ _)]];
      injection Hcalc as <- <-; cbn [heap];
      unfold s0; cbn [heap]; by rewrite !lookup_insert_ne by done.
Qed.

Lemma inspect_picks_font_keys_witness :
  let host := band_host (of_Z 1) 1 2 in
  let style : object :=
    <["color" := VStr (js "red")]> {[ "font-size" := VStr (js "2px") ]} in
  exists o,
    result_object (Primary.inspect host unit (fun _ => style) tt None (State ∅ None))
    = Some o
    /\ o !! "color" = None
    /\ o !! "font-size" = Some (VStr (js "2px"))
    /\ o !! "font-family" = Some (VStr (js "serif")).
Proof.
  intros host style.
  destruct (inspect_picks_font_keys host unit (fun _ => style) tt None (State ∅ None))
    as (_ & Hresult & _).
  destruct (Hresult
              (fst (Primary.inspect host unit (fun _ => style) tt None (State ∅ None)))
              0%nat) as (_ & _ & o & Ho & Hkeys & Hvalues); [vm_compute; reflexivity|].
  exists o. split; [exact Ho|]. split; [|split].
  - destruct (o !! "color") eqn:Hcolor; [|done].
    assert (is_Some (o !! "color")) as Hsome by (by rewrite Hcolor).
    apply Hkeys in Hsome as [Hin| ?]; [|done].
    unfold font_keys in Hin. rewrite !elem_of_cons, elem_of_nil in Hin.
    by destruct Hin as [?|[?|[?|[?|[]]]]].
  - rewrite (Hvalues "font-size"); [reflexivity|].
    unfold font_keys. rewrite !elem_of_cons. tauto.
  - rewrite (Hvalues "font-family"); [reflexivity|].
    unfold font_keys. rewrite !elem_of_cons. tauto.
Defined.

(** X9 — The ES6 listener of [fontActive].  When the fvd string parses,
    it runs [calculate] on a new object: the parsed properties with the
    family name set, which replaces any family the fvd gave; the callback
    gets that same object, holding the family name, the other parsed
    properties, the defaults for the rest and the ratio.  When the string
    is not an fvd, the parser returns [null], no family name is set, and
    the callback gets a new object holding the defaults, so the family
    [serif], and their ratio.  In both cases the callback is not run when
    [calculate] throws, and objects that existed before are not
    changed. *)
Theorem primary_font_active (host : Host) (fvd_parse : jsstring -> option object)
    (A : Type) (callback : loc -> M A) (text : option jsstring)
    (familyName fvd : jsstring) (s : state) :
  let parsed := fresh (dom (heap s)) in
  let described :=
    match fvd_parse fvd with
    | Some properties => <["font-family" := VStr familyName]> properties
    | None => ∅
    end in
  let s0 := State (<[parsed := described]> (heap s)) (container s) in
  Primary.fontActive host fvd_parse callback text familyName fvd s
  = match Primary.calculate host parsed text s0 with
    | (s1, inl e) => (s1, inl e)
    | (s1, inr l) => callback l s1
    end
  /\ (forall s1 l,
        Primary.calculate host parsed text s0 = (s1, inr l) ->
        l = parsed
        /\ exists o,
             heap s1 !! l = Some o
             /\ is_Some (o !! "--cap-height")
             /\ match fvd_parse fvd with
                | Some properties =>
                    o !! "font-family" = Some (VStr familyName)
                    /\ (forall k v, k <> "font-family" -> k <> "--cap-height" ->
                                    properties !! k = Some v -> o !! k = Some v)
                | None =>
                    o !! "font-family" = Some (VStr (js "serif"))
                    /\ (forall k, k <> "--cap-height" -> o !! k = defaults !! k)
                end)
  /\ (forall s1 r q o,
        Primary.calculate host parsed text s0 = (s1, r) ->
        heap s !! q = Some o -> heap s1 !! q = Some o).
Proof.
  intros parsed described s0.
  assert (Hs0 : heap s0 !! parsed = Some described) by apply lookup_insert_eq.
  split; [|split].
  - unfold Primary.fontActive, Primary.calculateNull. subst s0 described.
    destruct (fvd_parse fvd) as [properties|].
    + unfold mbind, M_bind, alloc, read, write.
      cbn [heap container]. rewrite lookup_insert_eq. cbn [heap container].
      rewrite insert_insert_eq. fold parsed.
      by destruct (Primary.calculate host parsed text _) as [s1 [e|l]].
    + unfold mbind at 1 2. unfold M_bind, alloc. cbn [heap container]. fold parsed.
      by destruct (Primary.calculate host parsed text _) as [s1 [e|l]].
  - intros s1 l Hcalc.
    destruct (primary_success_record host s0 s1 parsed l _ text Hs0 Hcalc)
      as (Hl & ratio & Ho).
    subst l. split; [done|]. eexists. split; [exact Ho|].
    split; [by rewrite lookup_insert_eq|].
    subst described. destruct (fvd_parse fvd) as [properties|].
    + split.
      * rewrite lookup_insert_ne by done. rewrite defaults_fill_lookup.
        by rewrite lookup_insert_eq.
      * intros k v Hk1 Hk2 Hv.
        rewrite lookup_insert_ne by done. rewrite defaults_fill_lookup.
        by rewrite lookup_insert_ne, Hv.
    + split.
      * rewrite lookup_insert_ne by done. by rewrite defaults_fill_lookup.
      * intros k Hk. rewrite lookup_insert_ne by done.
        by rewrite defaults_fill_lookup, lookup_empty.
  - intros s1 r q o Hcalc Hq.
    assert (parsed <> q).
    { intros Heq. apply (is_fresh (dom (heap s))). fold parsed. rewrite Heq.
      by eapply elem_of_dom_2. }
    rewrite (primary_calculate_cases host s0 parsed _ text Hs0) in Hcalc.
    cbv zeta in Hcalc.
    destruct (Primary.getFontSize _); [|destruct (test_whitespace _);
      [|destruct (getImageData _ _ _ _)]];
      injection Hcalc as <- <-; cbn [heap];
      unfold s0; cbn [heap]; by rewrite !lookup_insert_ne by done.
Qed.

Lemma primary_font_active_witness :
  let host := band_host (of_Z 1) 1 2 in
  let italic : object :=
    <["font-family" := VStr (js "fantasy")]>
      (<["font-size" := VStr (js "2px")]> {[ "font-style" := VStr (js "italic") ]}) in
  let parse : jsstring -> option object := fun fvd =>
    match fvd with
    | [] => None
    | _ => Some italic
    end in
  (exists o,
     Primary.fontActive host parse read None (js "Lato") (js "i4") (State ∅ None)
     = (fst (Primary.calculate host 0%nat None
               (State {[ 0%nat := <["font-family" := VStr (js "Lato")]> italic ]} None)),
        inr o)
     /\ o !! "font-family" = Some (VStr (js "Lato"))
     /\ o !! "font-style" = Some (VStr (js "italic")))
  /\ (exists o,
        result_object (Primary.calculate host 0%nat None (State {[ 0%nat := ∅ ]} None))
        = Some o
        /\ o !! "font-family" = Some (VStr (js "serif"))
        /\ o !! "font-size" = Some (VStr (js "100px"))).
Proof.
  intros host italic parse. split.
  - destruct (primary_font_active host parse object read None (js "Lato") (js "i4")
                (State ∅ None)) as (Hrun & Hrecord & _).
    destruct (Hrecord
                (fst (Primary.calculate host 0%nat None
                        (State {[ 0%nat := <["font-family" := VStr (js "Lato")]> italic ]}
                               None)))
                0%nat) as (_ & o & Ho & _ & Hfamily & Hother); [vm_compute; reflexivity|].
    exists o. split; [|split].
    + rewrite Hrun.
      change (fresh (dom (heap (State ∅ None)))) with 0%nat.
      change (parse (js "i4")) with (Some italic).
      change (<[0%nat := <["font-family" := VStr (js "Lato")]> italic]> (heap (State ∅ None)))
        with ({[ 0%nat := <["font-family" := VStr (js "Lato")]> italic ]} : gmap loc object).
      cbn [container].
      destruct (Primary.calculate host 0%nat None _) as [s1 [e|l]] eqn:Hcalc.
      * exfalso. revert Hcalc. vm_compute. discriminate.
      * assert (l = 0%nat) as -> by (revert Hcalc; vm_compute; congruence).
        cbn [fst] in *. unfold read. by rewrite Ho.
    + exact Hfamily.
    + apply Hother; done.
  - destruct (primary_font_active host parse object read None (js "Lato") []
                (State ∅ None)) as (_ & Hrecord & _).
    destruct (Hrecord
                (fst (Primary.calculate host 0%nat None (State {[ 0%nat := ∅ ]} None)))
                0%nat) as (_ & o & Ho & _ & Hfamily & Hother); [vm_compute; reflexivity|].
    exists o. split; [|split].
    + unfold result_object.
      destruct (Primary.calculate host 0%nat None _) as [s1 [e|l]] eqn:Hcalc.
      * exfalso. revert Hcalc. vm_compute. discriminate.
      * assert (l = 0%nat) as -> by (revert Hcalc; vm_compute; congruence).
        exact Ho.
    + exact Hfamily.
    + by rewrite Hother.
Defined.

(** What a successful CommonJS run returns. *)
Lemma legacy_success_record (host : Host) (s s1 : state) (p l : loc)
    (given : object) (text : option jsstring) :
  heap s !! p = Some given ->
  Legacy.calculate host p text s = (s1, inr l) ->
  l = fresh (dom (heap s)) /\ l <> p
  /\ heap s1 !! p = Some given
  /\ exists ratio,
       heap s1 !! l = Some (<["cap-height" := VNum ratio]> (given ∪ defaults)).
Proof.
  intros Hgiven Hrun.
  destruct (legacy_merge_fresh s p given Hgiven) as [Hne _].
  rewrite (legacy_calculate_cases host s p given text Hgiven) in Hrun.
  cbv zeta in Hrun.
  destruct (Legacy.getFontSize _); [done|]. destruct (test_whitespace _); [done|].
  destruct (getImageData _ _ _ _); [|done].
  injection Hrun as <- <-. split; [done|]. split; [done|]. cbn [heap].
  split; [by rewrite lookup_insert_ne|]. eexists. apply lookup_insert_eq.
Qed.

(** X10 — The CommonJS listener of [fontActive].  When the fvd string
    parses, it sets the family name on the parsed properties, replacing
    any family the fvd gave, and runs [calculate] on them; the callback
    gets a second new object, holding the family name, the other parsed
    properties, the defaults for the rest and the ratio, while the parsed
    object keeps only what was parsed and the family name.  When the
    string is not an fvd, the parser returns [null], no family name is
    set, and the callback gets the one new object there is: the defaults,
    so the family [serif], with their ratio.  In both cases the callback
    is not run when [calculate] throws. *)
Theorem legacy_font_active (host : Host) (fvd_parse : jsstring -> option object)
    (A : Type) (callback : loc -> M A) (text : option jsstring)
    (familyName fvd : jsstring) (s : state) :
  let parsed := fresh (dom (heap s)) in
  match fvd_parse fvd with
  | Some properties =>
      let described := <["font-family" := VStr familyName]> properties in
      let s0 := State (<[parsed := described]> (heap s)) (container s) in
      Legacy.fontActive host fvd_parse callback text familyName fvd s
      = match Legacy.calculate host parsed text s0 with
        | (s1, inl e) => (s1, inl e)
        | (s1, inr l) => callback l s1
        end
      /\ (forall s1 l,
            Legacy.calculate host parsed text s0 = (s1, inr l) ->
            l <> parsed
            /\ heap s1 !! parsed = Some described
            /\ exists o,
                 heap s1 !! l = Some o
                 /\ o !! "font-family" = Some (VStr familyName)
                 /\ is_Some (o !! "cap-height")
                 /\ (forall k v, k <> "font-family" -> k <> "cap-height" ->
                                 properties !! k = Some v -> o !! k = Some v))
  | None =>
      Legacy.fontActive host fvd_parse callback text familyName fvd s
      = match Legacy.calculateNull host text s with
        | (s1, inl e) => (s1, inl e)
        | (s1, inr l) => callback l s1
        end
      /\ (forall s1 l,
            Legacy.calculateNull host text s = (s1, inr l) ->
            l = parsed
            /\ (forall q, q <> l -> heap s1 !! q = heap s !! q)
            /\ exists o,
                 heap s1 !! l = Some o
                 /\ o !! "font-family" = Some (VStr (js "serif"))
                 /\ is_Some (o !! "cap-height")
                 /\ (forall k, k <> "cap-height" -> o !! k = defaults !! k))
  end.
Proof.
  intros parsed.
  destruct (fvd_parse fvd) as [properties|] eqn:Hparse.
  - intros described s0.
    assert (Hs0 : heap s0 !! parsed = Some described) by apply lookup_insert_eq.
    split.
    + unfold Legacy.fontActive. rewrite Hparse.
      unfold mbind, M_bind, alloc, read, write.
      cbn [heap container]. rewrite lookup_insert_eq. cbn [heap container].
      rewrite insert_insert_eq. fold parsed described s0.
      by destruct (Legacy.calculate host parsed text s0) as [s1 [e|l]].
    + intros s1 l Hcalc.
      destruct (legacy_success_record host s0 s1 parsed l _ text Hs0 Hcalc)
        as (_ & Hne & Hkept & ratio & Ho).
      split; [done|]. split; [done|]. eexists. split; [exact Ho|]. split.
      * rewrite lookup_insert_ne by done. rewrite defaults_fill_lookup.
        unfold described. by rewrite lookup_insert_eq.
      * split; [by rewrite lookup_insert_eq|]. intros k v Hk1 Hk2 Hv.
        rewrite lookup_insert_ne by done. rewrite defaults_fill_lookup.
        unfold described. by rewrite lookup_insert_ne, Hv.
  - split.
    + unfold Legacy.fontActive. rewrite Hparse. unfold mbind at 1. unfold M_bind.
      by destruct (Legacy.calculateNull host text s) as [s1 [e|l]].
    + intros s1 l Hcalc.
      rewrite (legacy_calculate_null_cases host s text) in Hcalc. cbv zeta in Hcalc.
      destruct (Legacy.getFontSize defaults); [done|].
      destruct (test_whitespace _); [done|].
      destruct (getImageData _ _ _ _); [|done].
      injection Hcalc as <- <-. cbn [heap]. fold parsed.
      split; [done|]. split; [intros q Hq; by rewrite lookup_insert_ne|].
      eexists. split; [apply lookup_insert_eq|]. split; [done|].
      split; [by rewrite lookup_insert_eq|].
      intros k Hk. by rewrite lookup_insert_ne.
Qed.

Lemma legacy_font_active_witness :
  let host := band_host (of_Z 1) 1 2 in
  let italic : object :=
    <["font-family" := VStr (js "fantasy")]>
      (<["font-size" := VStr (js "2px")]> {[ "font-style" := VStr (js "italic") ]}) in
  let parse : jsstring -> option object := fun fvd =>
    match fvd with
    | [] => None
    | _ => Some italic
    end in
  let s0 := State {[ 0%nat := <["font-family" := VStr (js "Lato")]> italic ]} None in
  (exists o,
     heap (fst (Legacy.calculate host 0%nat None s0)) !! 1%nat = Some o
     /\ o !! "font-family" = Some (VStr (js "Lato"))
     /\ o !! "font-style" = Some (VStr (js "italic")))
  /\ (exists o,
        result_object (Legacy.calculateNull host None (State ∅ None)) = Some o
        /\ o !! "font-family" = Some (VStr (js "serif"))
        /\ o !! "font-size" = Some (VStr (js "100px"))).
Proof.
  intros host italic parse s0. split.
  - destruct (legacy_font_active host parse object read None (js "Lato") (js "i4")
                (State ∅ None)) as (_ & Hrecord).
    destruct (Hrecord (fst (Legacy.calculate host 0%nat None s0)) 1%nat)
      as (_ & _ & o & Ho & Hfamily & _ & Hother); [vm_compute; reflexivity|].
    exists o. split; [exact Ho|]. split; [exact Hfamily|]. by apply Hother.
  - destruct (legacy_font_active host parse object read None (js "Lato") []
                (State ∅ None)) as (_ & Hrecord).
    assert (Hrun : Legacy.calculateNull host None (State ∅ None)
                   = (fst (Legacy.calculateNull host None (State ∅ None)), inr 0%nat))
      by (vm_compute; reflexivity).
    destruct (Hrecord _ _ Hrun) as (_ & _ & o & Ho & Hfamily & _ & Hother).
    exists o. unfold result_object. rewrite Hrun.
    split; [exact Ho|]. split; [exact Hfamily|]. by rewrite Hother.
Defined.

(** ** Pixels and dots *)

Lemma inject_Z_pos (z : Z) : 0 < z -> (0 < inject_Z z)%Q.
Proof. intros Hz. change 0%Q with (inject_Z 0). by rewrite <- Zlt_Qlt. Qed.

(** With the ratio 1.1 the round trip is off by one unit in the last
    place at 30. *)
Lemma fractional_ratio_rounds :
  let DPR := Double.div (Double.of_Z 11) (Double.of_Z 10) in
  Double.Primary.toPx DPR (Double.Primary.toDot DPR (Double.of_Z 30))
  <> Double.of_Z 30.
Proof. vm_compute. discriminate. Qed.

(** X11 — With a device pixel ratio that is a positive integer [k],
    [toDot] multiplies by [k] and [toPx] undoes it, on every integer [v]
    whose product with [k] is below 2^53: on the doubles of the host,
    where this product and its quotient by [k] are exact, and so on the
    rationals that stand for them.  So the rectangle that marks the cap
    height on a raster of an integer logical width is as wide as that
    raster, and starts at the left edge. *)
Theorem px_dot_round_trip (host : Host) (k : Z) :
  devicePixelRatio host = of_Z k -> 0 < k < 2 ^ 53 ->
  (forall v : Z,
      Z.abs (v * k) < 2 ^ 53 ->
      (Double.Primary.toDot (Double.of_Z k) (Double.of_Z v) = Double.of_Z (v * k)
       /\ Double.Primary.toPx (Double.of_Z k)
            (Double.Primary.toDot (Double.of_Z k) (Double.of_Z v))
          = Double.of_Z v)
      /\ Primary.toDot host (of_Z v) = of_Z (v * k)
      /\ Primary.toPx host (Primary.toDot host (of_Z v)) ≈ of_Z v)
  /\ (forall context m (w h : Z),
        Z.abs (w * k) < 2 ^ 53 ->
        let dims := Primary.Dimensions (of_Z w) (of_Z h) in
        exists y w' h',
          canvas_ops (Primary.marked host context m (Primary.toPhysical host dims))
          = canvas_ops context
            ++ [SetFillStyle "rgba(255, 85, 51, .1)"; FillRect (of_Z 0) y w' h']
          /\ w' ≈ of_Z w
          /\ y = Primary.toPx host (Primary.ascent m)
          /\ h' = Primary.toPx host (Primary.getHeight m)).
Proof.
  intros Hdpr Hk.
  assert (Hdot : forall v, Primary.toDot host (of_Z v) = of_Z (v * k)).
  { intros v. unfold Primary.toDot, Primary.DPR. rewrite Hdpr.
    unfold of_Z, num_mul. by rewrite <- inject_Z_mult. }
  assert (Hpx : forall v, Primary.toPx host (Primary.toDot host (of_Z v)) ≈ of_Z v).
  { intros v. rewrite Hdot. unfold Primary.toPx, Primary.DPR. rewrite Hdpr.
    unfold of_Z. rewrite num_div_pos by (apply Qsign_Gt, inject_Z_pos; lia).
    cbn [num_equiv]. rewrite inject_Z_mult. field.
    intros Hzero. pose proof (inject_Z_pos k ltac:(lia)) as Hpos.
    rewrite Hzero in Hpos. by apply Qlt_irrefl in Hpos. }
  split.
  - intros v Hv. split; [|split; [apply Hdot|apply Hpx]].
    unfold Double.Primary.toPx, Double.Primary.toDot.
    rewrite mul_exact_pos by done. split; [done|]. by apply div_exact_pos.
  - intros context m w h _ dims. eexists _, _, _. split; [|split; [|split]].
    + unfold Primary.marked, draw. cbn [canvas_ops]. by rewrite <- app_assoc.
    + apply Hpx.
    + done.
    + done.
Qed.

Lemma px_dot_round_trip_witness :
  Double.Primary.toPx (Double.of_Z 2) (Double.Primary.toDot (Double.of_Z 2) (Double.of_Z 7))
  = Double.of_Z 7
  /\ Primary.toDot (band_host (of_Z 2) 1 2) (of_Z 7) = of_Z 14
  /\ Primary.toPx (band_host (of_Z 2) 1 2) (Primary.toDot (band_host (of_Z 2) 1 2) (of_Z 7))
     ≈ of_Z 7.
Proof.
  destruct (px_dot_round_trip (band_host (of_Z 2) 1 2) 2) as (Hpx & _);
    [reflexivity|lia|].
  destruct (Hpx 7) as ((_ & Hdouble) & Hdot & Hround); [vm_compute; reflexivity|].
  split; [exact Hdouble|]. split; [exact Hdot|exact Hround].
Defined.

(** ** Printing and reading a font size *)

Lemma js_cons (c : ascii) (s : string) : js (String c s) = N_of_ascii c :: js s.
Proof. reflexivity. Qed.

(** Reading the printed digits of a decimal number, with digits read
    before. *)
Lemma digits_of_uint_acc (u : Decimal.uint) (acc : positive) :
  fold_left (fun acc c => 10 * acc + (Z.of_N c - 48))
    (js (NilEmpty.string_of_uint u)) (Z.pos acc)
  = Z.pos (Pos.of_uint_acc u acc).
Proof.
  revert acc. induction u as [|u IH|u IH|u IH|u IH|u IH|u IH|u IH|u IH|u IH|u IH];
    intros acc; cbn [NilEmpty.string_of_uint Pos.of_uint_acc];
    [reflexivity|rewrite js_cons; cbn [fold_left]; rewrite <- IH; f_equal;
                 vm_compute (Z.of_N (N_of_ascii _)); lia..].
Qed.

Lemma digits_of_uint (u : Decimal.uint) :
  digits_value (js (NilEmpty.string_of_uint u)) = Z.of_N (Pos.of_uint u).
Proof.
  unfold digits_value.
  induction u as [|u IH|u IH|u IH|u IH|u IH|u IH|u IH|u IH|u IH|u IH];
    cbn [NilEmpty.string_of_uint Pos.of_uint];
    [reflexivity|rewrite js_cons; cbn [fold_left]; exact IH
    |rewrite js_cons; cbn [fold_left]; apply (digits_of_uint_acc u)..].
Qed.

Lemma uint_digits (u : Decimal.uint) :
  Forall (fun c => is_digit c = true) (js (NilEmpty.string_of_uint u)).
Proof.
  induction u; cbn [NilEmpty.string_of_uint]; [constructor|rewrite js_cons..];
    by constructor.
Qed.

Lemma strip_non_digits_app (a b : jsstring) :
  strip_non_digits (a ++ b) = strip_non_digits a ++ strip_non_digits b.
Proof. unfold strip_non_digits. apply List.filter_app. Qed.

Lemma strip_digits (s : jsstring) :
  Forall (fun c => is_digit c = true) s -> strip_non_digits s = s.
Proof.
  induction 1 as [|c s Hc _ IH]; [done|]. unfold strip_non_digits in *. simpl.
  by rewrite Hc, IH.
Qed.

Lemma strip_no_digits (s : jsstring) :
  Forall (fun c => is_digit c = false) s -> strip_non_digits s = [].
Proof.
  induction 1 as [|c s Hc _ IH]; [done|]. unfold strip_non_digits in *. simpl.
  by rewrite Hc, IH.
Qed.

(** A positive integer prints as its decimal digits, which read back as
    the integer. *)
Lemma print_positive (n : Z) :
  0 < n ->
  Forall (fun c => is_digit c = true) (number_to_string (of_Z n))
  /\ number_to_string (of_Z n) <> []
  /\ digits_value (number_to_string (of_Z n)) = n.
Proof.
  intros Hn. destruct n as [|p|p]; [lia| |lia].
  assert (number_to_string (of_Z (Z.pos p))
          = js (NilEmpty.string_of_uint (Pos.to_uint p))) as ->.
  { unfold number_to_string, of_Z, inject_Z. cbn [Qnum Qden].
    rewrite Z.mod_1_r, Z.div_1_r. cbn [Z.ltb Z.compare Z.abs Z.eqb Z.to_int].
    rewrite app_nil_r. cbn [app NilZero.string_of_int NilZero.string_of_uint].
    change (NilZero.string_of_int (Z.to_int (Z.abs (Z.pos p))))
      with (NilZero.string_of_uint (Pos.to_uint p)).
    pose proof (Unsigned.to_uint_nonnil p). by destruct (Pos.to_uint p). }
  split; [apply uint_digits|]. split.
  - pose proof (Unsigned.to_uint_nonnil p).
    destruct (Pos.to_uint p);
      [done|cbn [NilEmpty.string_of_uint]; by rewrite js_cons..].
  - by rewrite digits_of_uint, Unsigned.of_to.
Qed.

(** X12 — Printing and extraction round-trip: a font size given as a
    positive integer [n] of at most 2^53, which a double holds exactly
    and prints in full, as a number or as its decimal digits with any
    characters other than digits before and after them (a unit, spaces),
    is extracted as [n] by both variants, whatever else the record holds.
    Characters other than digits do not count wherever they stand, so a
    decimal point is dropped with them. *)
Theorem font_size_round_trip (o : object) (n : Z) (before after : jsstring) :
  0 < n <= 2 ^ 53 ->
  Forall (fun c => is_digit c = false) before ->
  Forall (fun c => is_digit c = false) after ->
  let printed := number_to_string (of_Z n) in
  Primary.getFontSize (<["font-size" := VNum (of_Z n)]> o) = inr (of_Z n)
  /\ Primary.getFontSize (<["font-size" := VStr (before ++ printed ++ after)]> o)
     = inr (of_Z n)
  /\ Legacy.getFontSize (<["font-size" := VNum (of_Z n)]> o) = inr (of_Z n)
  /\ Legacy.getFontSize (<["font-size" := VStr (before ++ printed ++ after)]> o)
     = inr (of_Z n)
  /\ (forall (a b : jsstring) (c : N),
        is_digit c = false ->
        Primary.getFontSize (<["font-size" := VStr (a ++ c :: b)]> o)
        = Primary.getFontSize (<["font-size" := VStr (a ++ b)]> o)
        /\ Legacy.getFontSize (<["font-size" := VStr (a ++ c :: b)]> o)
           = Legacy.getFontSize (<["font-size" := VStr (a ++ b)]> o)).
Proof.
  intros [Hn _] Hbefore Hafter printed.
  destruct (print_positive n Hn) as (Hdigits & Hne & Hvalue). fold printed in Hdigits, Hne, Hvalue.
  assert (Hstrip : strip_non_digits (before ++ printed ++ after) = printed).
  { rewrite !strip_non_digits_app, (strip_no_digits before), (strip_no_digits after),
      (strip_digits printed), app_nil_r by done. done. }
  assert (Hzero : is_zero (of_Z n) = false).
  { destruct (is_zero (of_Z n)) eqn:Hz; [|done]. apply is_zero_of_Z in Hz. lia. }
  assert (Hparse : parseFloat printed = of_Z n).
  { unfold parseFloat. rewrite Hvalue. by destruct printed. }
  unfold Primary.getFontSize, Legacy.getFontSize, get.
  rewrite !lookup_insert_eq. cbn [default from_option id to_string].
  fold printed. rewrite Hstrip, (strip_digits printed Hdigits), Hparse.
  unfold toNumber. rewrite Hvalue, Hzero. cbn [isNaN of_Z].
  repeat (split; [done|]).
  intros a b c Hc. rewrite !lookup_insert_eq. cbn [default from_option id to_string].
  assert (strip_non_digits (a ++ c :: b) = strip_non_digits (a ++ b)) as ->; [|done].
  rewrite !strip_non_digits_app. f_equal. unfold strip_non_digits. simpl.
  by rewrite Hc.
Qed.

Lemma font_size_round_trip_witness :
  Primary.getFontSize {[ "font-size" := VStr (js " " ++ number_to_string (of_Z 16) ++ js "px") ]}
  = inr (of_Z 16)
  /\ Legacy.getFontSize {[ "font-size" := VNum (of_Z 16) ]} = inr (of_Z 16).
Proof.
  destruct (font_size_round_trip ∅ 16 (js " ") (js "px")) as (_ & Hp & Hl & _).
  - lia.
  - repeat constructor.
  - repeat constructor.
  - split; [exact Hp|exact Hl].
Defined.

(** ** Bounds of the ratio *)






(** ** The ratio is at most the multiplier *)

Lemma band_buffer_length (W H r0 r1 : nat) (fg bg : Z) :
  length (band_buffer W H r0 r1 fg bg) = (4 * W * H)%nat.
Proof.
  unfold band_buffer.
  assert (Hgen : forall start,
             length (mjoin ((fun r => solid_row W
                                        (if (r0 <=? r)%nat && (r <=? r1)%nat
                                         then fg else bg)) <$> seq start H))
             = (4 * W * H)%nat).
  { induction H as [|H IH]; intros start; [simpl; lia|].
    cbn [seq]. rewrite fmap_cons.
    match goal with
    | |- context [mjoin (?x :: ?l)] => change (mjoin (x :: l)) with (x ++ mjoin l)
    end.
    rewrite length_app, IH. unfold solid_row. rewrite length_replicate. lia. }
  apply Hgen.
Qed.

(** The height of a scan is at most the number of rows of the buffer. *)
Lemma height_within_rows (first last W H len : Z) :
  0 < W -> 1 <= H -> len = 4 * W * H ->
  (first = -1 /\ last = -1) \/ (0 <= first <= last /\ last < len) ->
  1 <= last / (4 * W) - first / (4 * W) + 1 <= H.
Proof.
  intros HW HH Hlen Hscan.
  destruct (row_pair_bounds first last W H len HW ltac:(lia) Hlen Hscan)
    as (Hord & Hup & Hfirst & Hlast).
  destruct Hscan as [[-> ->]|[[H0 _] _]].
  - rewrite Z_div_minus_one by lia. lia.
  - assert (0 <= first / (4 * W)) by (apply Z.div_pos; lia). lia.
Qed.

Lemma ratio_at_most_two (h z k : Z) :
  0 < z -> 0 < k -> h <= 2 * z * k ->
  (inject_Z h / inject_Z k / inject_Z z <= 2)%Q.
Proof.
  intros Hz Hk Hh.
  apply Qle_shift_div_r; [by apply inject_Z_pos|].
  apply Qle_shift_div_r; [by apply inject_Z_pos|].
  change 2%Q with (inject_Z 2). rewrite <- !inject_Z_mult, <- Zle_Qle. lia.
Qed.

(** X14 — When the host returns the whole rectangle it is asked for (four
    values for each of its pixels), the ratio a successful [calculate]
    stores is at most 2, the factor by which the raster is taller than the
    font size: in the CommonJS variant always, in the ES6 variant for a
    positive integer device pixel ratio and a text that is not empty. *)
Theorem ratio_at_most_multiplier (host : Host) (s : state) (p : loc)
    (given : object) (text : option jsstring) :
  heap s !! p = Some given ->
  (forall c (w h : Z) data,
      getImageData host c (of_Z w) (of_Z h) = Some data ->
      Z.of_nat (length data) = 4 * w * h) ->
  (forall s1 l k,
      Primary.calculate host p text s = (s1, inr l) ->
      devicePixelRatio host = of_Z k -> 0 < k ->
      default (js "H") text <> [] ->
      exists r : Q,
        heap s1 !! l = Some (<["--cap-height" := VNum (Fin r)]> (given ∪ defaults))
        /\ (r <= 2)%Q)
  /\ (forall s1 l,
        Legacy.calculate host p text s = (s1, inr l) ->
        exists r : Q,
          heap s1 !! l = Some (<["cap-height" := VNum (Fin r)]> (given ∪ defaults))
          /\ (r <= 2)%Q).
Proof.
  intros Hgiven Hwhole. split.
  - intros s1 l k Hrun Hdpr Hk Htext.
    rewrite (primary_calculate_cases host s p given text Hgiven) in Hrun.
    cbv zeta in Hrun.
    destruct (Primary.getFontSize _) as [|fontSize] eqn:Hf; [done|].
    destruct (test_whitespace _); [done|].
    destruct (getImageData _ _ _ _) as [data|] eqn:Hdata; [|done].
    injection Hrun as <- <-.
    destruct (primary_font_size_positive _ _ Hf) as (z & -> & Hz).
    set (n := Z.of_nat (length (default (js "H") text))) in *.
    assert (0 < n) by (unfold n; destruct (default (js "H") text); [done|simpl; lia]).
    assert (Hphys : Primary.toPhysical host
                      (Primary.logicalDimensions (of_Z z) (default (js "H") text))
                    = Primary.Dimensions (of_Z (2 * z * n * k)) (of_Z (2 * z * k))).
    { unfold Primary.toPhysical, Primary.toDot, Primary.DPR,
        Primary.logicalDimensions, Primary.MULTIPLIER. rewrite Hdpr.
      cbn [Primary.width Primary.height]. unfold of_Z, num_mul. fold n.
      by rewrite <- !inject_Z_mult. }
    rewrite Hphys in Hdata |- *. cbn [Primary.width Primary.height] in Hdata.
    apply Hwhole in Hdata.
    unfold Primary.scan, Primary.getAscent, Primary.getDescent.
    cbn [Primary.width]. rewrite !primary_row_is_div by nia.
    rewrite primary_height_of_rows.
    unfold Primary.toPx, Primary.DPR. rewrite Hdpr. unfold of_Z.
    rewrite num_div_pos by (by apply Qsign_Gt, inject_Z_pos).
    rewrite num_div_pos by (by apply Qsign_Gt, inject_Z_pos).
    eexists. cbn [heap]. split; [apply lookup_insert_eq|].
    apply ratio_at_most_two; [done|done|].
    apply (height_within_rows _ _ (2 * z * n * k) (2 * z * k)
             (Z.of_nat (length data))); [nia|nia|lia|].
    destruct (scans_ordered Primary.isNotWhite data) as [(? & ? & _)|[? ?]];
      [by left|by right].
  - intros s1 l Hrun.
    rewrite (legacy_calculate_cases host s p given text Hgiven) in Hrun.
    cbv zeta in Hrun.
    destruct (Legacy.getFontSize _) as [|fontSize] eqn:Hf; [done|].
    destruct (test_whitespace _); [done|].
    destruct (getImageData _ _ _ _) as [data|] eqn:Hdata; [|done].
    injection Hrun as <- <-.
    destruct (legacy_font_size_positive _ _ Hf) as (z & -> & Hz).
    set (n := Z.of_nat (length (Legacy.text_or_H text))) in *.
    assert (0 < n)
      by (unfold n; pose proof (text_or_H_nonempty text);
          destruct (Legacy.text_or_H text); [done|simpl; lia]).
    assert (Hwidth : Legacy.rasterWidth (of_Z z) (Legacy.text_or_H text)
                     = of_Z (2 * z * n))
      by (unfold Legacy.rasterWidth, of_Z, num_mul; fold n;
          by rewrite <- !inject_Z_mult).
    assert (Hheight : Legacy.rasterHeight (of_Z z) = of_Z (2 * z))
      by (unfold Legacy.rasterHeight, of_Z, num_mul; by rewrite <- !inject_Z_mult).
    rewrite Hwidth, Hheight in Hdata. rewrite Hwidth. apply Hwhole in Hdata.
    unfold Legacy.getAscent, Legacy.getDescent.
    rewrite !legacy_row_is_div by nia. rewrite legacy_height_of_rows.
    unfold of_Z. rewrite num_div_pos by (by apply Qsign_Gt, inject_Z_pos).
    eexists. cbn [heap]. split; [apply lookup_insert_eq|].
    apply Qle_shift_div_r; [by apply inject_Z_pos|].
    change 2%Q with (inject_Z 2). rewrite <- inject_Z_mult, <- Zle_Qle.
    apply (height_within_rows _ _ (2 * z * n) (2 * z) (Z.of_nat (length data)));
      [nia|nia|lia|].
    destruct (scans_ordered Legacy.isBlack data) as [(? & ? & _)|[? ?]];
      [by left|by right].
Qed.

(** The synthetic band host returns the whole rectangle. *)
Lemma band_host_whole_rectangle (dpr : number) (r0 r1 : nat) (c : canvas)
    (w h : Z) (data : list Z) :
  getImageData (band_host dpr r0 r1) c (of_Z w) (of_Z h) = Some data ->
  Z.of_nat (length data) = 4 * w * h.
Proof.
  unfold band_host. cbn [getImageData]. unfold pixels, of_Z. rewrite !Qfloor_Z.
  destruct ((Z.to_nat w =? 0)%nat || (Z.to_nat h =? 0)%nat) eqn:Hempty; [done|].
  apply orb_false_elim in Hempty as [Hw Hh].
  apply Nat.eqb_neq in Hw, Hh. intros [= <-].
  rewrite band_buffer_length. lia.
Qed.

Lemma ratio_at_most_multiplier_witness :
  let host := band_host (of_Z 2) 0 9 in
  (exists r : Q,
      result_object (Primary.calculate host 0%nat None (store_of two_px))
      = Some (<["--cap-height" := VNum (Fin r)]> (two_px ∪ defaults))
      /\ (r <= 2)%Q)
  /\ (exists r : Q,
        result_object (Legacy.calculate host 0%nat None (store_of two_px))
        = Some (<["cap-height" := VNum (Fin r)]> (two_px ∪ defaults))
        /\ (r <= 2)%Q).
Proof.
  intros host.
  destruct (ratio_at_most_multiplier host (store_of two_px) 0%nat two_px None eq_refl
              (band_host_whole_rectangle (of_Z 2) 0 9))
    as [Hprimary Hlegacy].
  split.
  - assert (Hrun : Primary.calculate host 0%nat None (store_of two_px)
                   = (fst (Primary.calculate host 0%nat None (store_of two_px)),
                      inr 0%nat)) by (vm_compute; reflexivity).
    destruct (Hprimary _ _ 2 Hrun) as (r & Hr & Hle);
      [reflexivity|lia|discriminate|].
    exists r. unfold result_object. rewrite Hrun. by split.
  - assert (Hrun : Legacy.calculate host 0%nat None (store_of two_px)
                   = (fst (Legacy.calculate host 0%nat None (store_of two_px)),
                      inr 1%nat)) by (vm_compute; reflexivity).
    destruct (Hlegacy _ _ Hrun) as (r & Hr & Hle).
    exists r. unfold result_object. rewrite Hrun. by split.
Defined.

(** ** The font shorthand *)

(** X15 — Both later variants render with the same font: on a record
    filled with the defaults each composes the shorthand
    [style weight size family], the four values separated by single
    spaces, given values before defaults, and sets it on the context it
    draws the text with. *)
Theorem font_shorthand_of_filled (given : object) :
  let o := given ∪ defaults in
  exists style weight size family,
    o !! "font-style" = Some style /\ o !! "font-weight" = Some weight
    /\ o !! "font-size" = Some size /\ o !! "font-family" = Some family
    /\ Primary.composeFontProperty o
       = to_string style ++ js " " ++ to_string weight ++ js " "
           ++ to_string size ++ js " " ++ to_string family
    /\ Legacy.composeFontProperty o = Primary.composeFontProperty o
    /\ (forall host fontSize t,
          In (SetFont (Primary.composeFontProperty o))
             (canvas_ops (Primary.raster host o fontSize t)))
    /\ (forall fontSize t,
          In (SetFont (Legacy.composeFontProperty o))
             (canvas_ops (Legacy.raster o fontSize t))).
Proof.
  intros o.
  assert (Hfilled : forall k, k ∈ font_keys -> is_Some (o !! k)).
  { intros k Hk. unfold o. rewrite defaults_fill_lookup.
    destruct (given !! k); [by eexists|]. by apply defaults_keys. }
  destruct (Hfilled "font-style") as [style Hstyle];
    [unfold font_keys; rewrite !elem_of_cons; tauto|].
  destruct (Hfilled "font-weight") as [weight Hweight];
    [unfold font_keys; rewrite !elem_of_cons; tauto|].
  destruct (Hfilled "font-size") as [size Hsize];
    [unfold font_keys; rewrite !elem_of_cons; tauto|].
  destruct (Hfilled "font-family") as [family Hfamily];
    [unfold font_keys; rewrite !elem_of_cons; tauto|].
  exists style, weight, size, family.
  repeat (split; [done|]).
  assert (Hp : Primary.composeFontProperty o
               = to_string style ++ js " " ++ to_string weight ++ js " "
                   ++ to_string size ++ js " " ++ to_string family).
  { unfold Primary.composeFontProperty, font_keys. cbn [fmap list_fmap].
    rewrite Hstyle, Hweight, Hsize, Hfamily. reflexivity. }
  assert (Hl : Legacy.composeFontProperty o = Primary.composeFontProperty o).
  { rewrite Hp. unfold Legacy.composeFontProperty, font_keys. cbn [fmap list_fmap].
    rewrite Hstyle, Hweight, Hsize, Hfamily. reflexivity. }
  split; [exact Hp|]. split; [exact Hl|]. split.
  - intros host fontSize t. simpl. tauto.
  - intros fontSize t. simpl. tauto.
Qed.

(** ** The first variant's row formula *)

Lemma original_row_is_quot (i W : Z) :
  0 < W ->
  Original.getYPosition (of_Z i) (of_Z W)
  = of_Z ((Z.quot i (4 * W) + 2 ^ 31) mod 2 ^ 32 - 2 ^ 31).
Proof.
  intros HW. destruct W as [|p|p]; [lia| |lia].
  unfold Original.getYPosition, of_Z.
  change (num_mul (Fin (inject_Z (Z.pos p))) (Fin (inject_Z 4)))
    with (Fin (inject_Z (Z.pos p) * inject_Z 4)).
  rewrite <- inject_Z_mult. rewrite num_div_pos by (by apply Qsign_inject_Z_pos).
  unfold Original.toInt32, of_Z. do 4 f_equal.
  change (Z.pos p * 4) with (Z.pos (p * 4)).
  unfold Qdiv, Qinv, Qmult, inject_Z. cbn [Qnum Qden].
  rewrite Z.mul_1_r.
  replace (Z.pos (1 * (p * 4))) with (4 * Z.pos p) by lia. done.
Qed.

(** X16 — The first variant truncates where the later ones floor.  On an
    index that was found the row is the same as long as it is below 2^31;
    on the index -1 of a scan that found nothing, truncation gives row 0
    where the floor gives row -1.  So on a buffer with no black value the
    first variant reports ascent 0 and descent 0, and all variants report
    the height 1; on a buffer with a black value its metrics are those of
    the CommonJS variant. *)
Theorem original_truncates (data : list Z) (W H : nat) :
  (0 < W)%nat -> length data = (4 * W * H)%nat -> Z.of_nat H < 2 ^ 31 ->
  let width := of_Z (Z.of_nat W) in
  (forall i, 0 <= i -> i / (4 * Z.of_nat W) < 2 ^ 31 ->
             Original.getYPosition (of_Z i) width = Legacy.getYPosition (of_Z i) width)
  /\ Original.getYPosition (of_Z (-1)) width = of_Z 0
  /\ Legacy.getYPosition (of_Z (-1)) width = of_Z (-1)
  /\ (no_foreground Original.isBlack data ->
      Original.getAscent data width = of_Z 0
      /\ Original.getDescent data width = of_Z 0
      /\ Original.getHeight (Original.getDescent data width)
                            (Original.getAscent data width) = of_Z 1
      /\ Legacy.getHeight (Legacy.getDescent data width)
                          (Legacy.getAscent data width) = of_Z 1)
  /\ (~ no_foreground Original.isBlack data ->
      Original.getAscent data width = Legacy.getAscent data width
      /\ Original.getDescent data width = Legacy.getDescent data width).
Proof.
  intros HW Hlen HH width.
  assert (Hfound : forall i, 0 <= i -> i / (4 * Z.of_nat W) < 2 ^ 31 ->
             Original.getYPosition (of_Z i) width = Legacy.getYPosition (of_Z i) width).
  { intros i Hi Hrow. unfold width.
    rewrite original_row_is_quot, legacy_row_is_div by lia. f_equal.
    rewrite Z.quot_div_nonneg by lia.
    assert (0 <= i / (4 * Z.of_nat W)) by (apply Z.div_pos; lia).
    rewrite Z.mod_small by lia. lia. }
  assert (Hmiss : Original.getYPosition (of_Z (-1)) width = of_Z 0).
  { unfold width. rewrite original_row_is_quot by lia. f_equal.
    assert (Z.quot (-1) (4 * Z.of_nat W) = 0) as ->; [|done].
    apply Z.quot_small_iff; lia. }
  assert (Hfloor : Legacy.getYPosition (of_Z (-1)) width = of_Z (-1)).
  { unfold width. rewrite legacy_row_is_div by lia. f_equal.
    apply Z_div_minus_one. lia. }
  split; [exact Hfound|]. split; [exact Hmiss|]. split; [exact Hfloor|]. split.
  - intros Hblank.
    unfold Original.getAscent, Original.getDescent, Legacy.getAscent, Legacy.getDescent.
    change Legacy.isBlack with Original.isBlack.
    rewrite (findIndex_none _ data Hblank), (findLastIndex_none _ data Hblank).
    rewrite Hmiss, Hfloor. by repeat split.
  - intros Hsome.
    unfold Original.getAscent, Original.getDescent, Legacy.getAscent, Legacy.getDescent.
    change Legacy.isBlack with Original.isBlack.
    destruct (scans_ordered Original.isBlack data) as [(_ & _ & Hall)|[[H0 Hle] Hlt]];
      [done|].
    assert (forall i, 0 <= i < Z.of_nat (length data) ->
                      i / (4 * Z.of_nat W) < 2 ^ 31) as Hrows.
    { intros i Hi. apply Z.div_lt_upper_bound; [lia|]. nia. }
    split; apply Hfound; try lia; apply Hrows; lia.
Qed.

Lemma original_truncates_witness :
  Original.getAscent (replicate 32 255) (of_Z 2) = of_Z 0
  /\ Original.getAscent (band_buffer 2 4 1 2 0 255) (of_Z 2)
     = Legacy.getAscent (band_buffer 2 4 1 2 0 255) (of_Z 2).
Proof.
  split.
  - destruct (original_truncates (replicate 32 255) 2 4) as (_ & _ & _ & Hblank & _);
      [lia|reflexivity|lia|].
    apply Hblank. intros x Hx. apply elem_of_replicate in Hx as [-> _]. reflexivity.
  - destruct (original_truncates (band_buffer 2 4 1 2 0 255) 2 4)
      as (_ & _ & _ & _ & Hsome); [lia|reflexivity|lia|].
    apply Hsome. intros Hnone.
    assert (0 ∈ band_buffer 2 4 1 2 0 255) as Hin
      by (apply list_elem_of_lookup; by exists 8%nat).
    by specialize (Hnone 0 Hin).
Defined.

(** ** The two policies on a raster without greys *)

(** A scan depends on the policy only through the values it meets. *)
Lemma findIndex_from_ext {A} (p q : A -> bool) (l : list A) (i : Z) :
  (forall x, x ∈ l -> p x = q x) -> findIndex_from p l i = findIndex_from q l i.
Proof.
  revert i. induction l as [|a l IH]; intros i Hpq; [done|].
  cbn [findIndex_from]. rewrite (Hpq a) by (by left).
  destruct (q a); [done|]. apply IH. intros x Hx. apply Hpq. by right.
Qed.

Lemma scans_ext {A} (p q : A -> bool) (l : list A) :
  (forall x, x ∈ l -> p x = q x) ->
  findIndex p l = findIndex q l /\ findLastIndex p l = findLastIndex q l.
Proof.
  intros Hpq. unfold findLastIndex, findIndex. split.
  - by apply findIndex_from_ext.
  - rewrite (findIndex_from_ext p q (reverse l)); [done|].
    intros x Hx. apply Hpq. by apply elem_of_reverse.
Qed.

(** X17 — On a raster without greys, where every channel value is 0 or
    above the threshold (192 to 255), the threshold scanner of the ES6
    variant and the exact-match scanner of the CommonJS variant measure
    the same ascent, descent and height, for every positive integer
    width; and whatever the values, their two row formulas agree on every
    index. *)
Theorem scanners_agree_without_grey (data : list Z) (W : nat) :
  (0 < W)%nat ->
  (forall x, x ∈ data -> x = 0 \/ 192 <= x) ->
  let width := of_Z (Z.of_nat W) in
  Primary.getAscent data width = Legacy.getAscent data width
  /\ Primary.getDescent data width = Legacy.getDescent data width
  /\ Primary.getHeight (Primary.Metrics (Primary.getAscent data width)
                                        (Primary.getDescent data width))
     ≈ Legacy.getHeight (Legacy.getDescent data width) (Legacy.getAscent data width)
  /\ (forall i, Primary.getYPosition (of_Z i) width = Legacy.getYPosition (of_Z i) width).
Proof.
  intros HW Hpure width.
  assert (Hsame : forall x, x ∈ data -> Primary.isNotWhite x = Legacy.isBlack x).
  { intros x Hx. unfold Legacy.isBlack.
    destruct (Hpure x Hx) as [->|Hhigh]; [reflexivity|].
    replace (x =? 0) with false by (symmetry; apply Z.eqb_neq; lia).
    destruct (Primary.isNotWhite x) eqn:Hfg; [|done].
    assert (HP : Primary.isNotWhite x = true <-> x <= 191).
    { unfold Primary.isNotWhite, Primary.THRESHOLD, of_Z, num_mul, num_ltb.
      change (inject_Z 255) with 255%Q.
      destruct (inject_Z x ?= 255 * (3 # 4))%Q eqn:Hc.
      - split; [done|]. intros Hle. apply Qeq_alt in Hc. unfold Qeq in Hc.
        simpl in Hc. lia.
      - split; [|done]. intros _. apply Qlt_alt in Hc. unfold Qlt in Hc.
        simpl in Hc. lia.
      - split; [done|]. intros Hle. apply Qgt_alt in Hc. unfold Qlt in Hc.
        simpl in Hc. lia. }
    apply HP in Hfg. lia. }
  destruct (scans_ext Primary.isNotWhite Legacy.isBlack data Hsame) as [Hfirst Hlast].
  assert (Hrow : forall i, Primary.getYPosition (of_Z i) width
                           = Legacy.getYPosition (of_Z i) width)
    by (intros i; unfold width; by rewrite primary_row_is_div, legacy_row_is_div by lia).
  assert (Ha : Primary.getAscent data width = Legacy.getAscent data width)
    by (unfold Primary.getAscent, Legacy.getAscent; by rewrite Hfirst, Hrow).
  assert (Hd : Primary.getDescent data width = Legacy.getDescent data width)
    by (unfold Primary.getDescent, Legacy.getDescent; by rewrite Hlast, Hrow).
  split; [exact Ha|]. split; [exact Hd|]. split; [|exact Hrow].
  rewrite Ha, Hd.
  destruct (Legacy.getAscent data width) as [a| | |],
    (Legacy.getDescent data width) as [d| | |]; simpl; try done. ring.
Qed.

Lemma scanners_agree_without_grey_witness :
  Primary.getAscent (band_buffer 2 4 1 2 0 255) (of_Z 2)
  = Legacy.getAscent (band_buffer 2 4 1 2 0 255) (of_Z 2).
Proof.
  apply (scanners_agree_without_grey (band_buffer 2 4 1 2 0 255) 2); [lia|].
  intros x Hx. apply list_elem_of_In in Hx. vm_compute in Hx.
  repeat (destruct Hx as [<-|Hx]; [lia|]). done.
Defined.

(** ** The empty text in the ES6 variant *)

(** On a raster of width zero the row of an index is not a number, or
    infinite. *)
Lemma primary_row_on_zero_width (i : Z) (w : Q) :
  Qsign w = Eq ->
  Primary.getYPosition (of_Z i) (Fin w)
  = if i <? 0 then NInf else if i =? 0 then NaN else PInf.
Proof.
  intros Hw. unfold Primary.getYPosition, of_Z.
  rewrite num_div_pos by reflexivity. unfold num_div. rewrite Hw.
  assert (Qsign (inject_Z i / inject_Z 4) = (i ?= 0)) as ->.
  { unfold Qsign, Qdiv, Qmult, Qinv, inject_Z. cbn [Qnum Qden].
    by rewrite Z.mul_1_r. }
  destruct i as [|q|q]; reflexivity.
Qed.

(** X18 — The ES6 variant does not replace an empty text by ["H"]: with
    a device pixel ratio that is a number it asks the host for a
    rectangle of width zero, and if the host answers at all, the height
    is not a number and [calculate] returns the record with NaN stored
    under [--cap-height]. *)
Theorem primary_empty_text_stores_nan (host : Host) (s s1 : state) (p l : loc)
    (given : object) (d : Q) :
  heap s !! p = Some given ->
  devicePixelRatio host = Fin d ->
  Primary.calculate host p (Some []) s = (s1, inr l) ->
  (exists fontSize w data,
      Primary.getFontSize (given ∪ defaults) = inr fontSize
      /\ Primary.width (Primary.toPhysical host (Primary.logicalDimensions fontSize []))
         = Fin w
      /\ (w == 0)%Q
      /\ getImageData host (Primary.raster host (given ∪ defaults) fontSize [])
           (Fin w)
           (Primary.height (Primary.toPhysical host
                              (Primary.logicalDimensions fontSize [])))
         = Some data)
  /\ heap s1 !! l = Some (<["--cap-height" := VNum NaN]> (given ∪ defaults)).
Proof.
  intros Hgiven Hdpr Hrun.
  rewrite (primary_calculate_cases host s p given (Some []) Hgiven) in Hrun.
  cbv zeta in Hrun. cbn [default from_option id] in Hrun.
  destruct (Primary.getFontSize _) as [|fontSize] eqn:Hf; [done|].
  destruct (test_whitespace _); [done|].
  destruct (getImageData _ _ _ _) as [data|] eqn:Hdata; [|done].
  injection Hrun as <- <-.
  destruct (primary_font_size_positive _ _ Hf) as (z & -> & Hz).
  set (w := (inject_Z 2 * inject_Z z * inject_Z 0 * d)%Q).
  assert (Hwidth : Primary.width
                     (Primary.toPhysical host (Primary.logicalDimensions (of_Z z) []))
                   = Fin w)
    by (unfold Primary.toPhysical, Primary.toDot, Primary.DPR; by rewrite Hdpr).
  assert (Hw0 : (w == 0)%Q) by (unfold w; ring).
  assert (Hsign : Qsign w = Eq) by (by apply Qsign_Eq).
  split.
  - exists (of_Z z), w, data. split; [done|]. split; [done|]. split; [done|].
    by rewrite <- Hwidth.
  - cbn [heap]. rewrite lookup_insert_eq. do 3 f_equal.
    assert (Primary.getHeight
              (Primary.scan data
                 (Primary.toPhysical host (Primary.logicalDimensions (of_Z z) [])))
            = NaN) as ->.
    { unfold Primary.scan, Primary.getAscent, Primary.getDescent.
      rewrite Hwidth, !primary_row_on_zero_width by done.
      destruct (scans_ordered Primary.isNotWhite data) as [(-> & -> & _)|[[H0 Hle] _]];
        [reflexivity|].
      replace (findIndex Primary.isNotWhite data <? 0) with false
        by (symmetry; apply Z.ltb_ge; lia).
      replace (findLastIndex Primary.isNotWhite data <? 0) with false
        by (symmetry; apply Z.ltb_ge; lia).
      destruct (findIndex Primary.isNotWhite data =? 0),
        (findLastIndex Primary.isNotWhite data =? 0); reflexivity. }
    unfold Primary.toPx, Primary.DPR. by rewrite Hdpr.
Qed.

Lemma primary_empty_text_stores_nan_witness :
  let host := {| devicePixelRatio := of_Z 1;
                 getImageData := fun _ _ _ => Some (replicate 8 255) |} in
  heap (fst (Primary.calculate host 0%nat (Some []) (store_of two_px))) !! 0%nat
  = Some (<["--cap-height" := VNum NaN]> (two_px ∪ defaults)).
Proof.
  intros host.
  apply (primary_empty_text_stores_nan host (store_of two_px) _ 0%nat 0%nat two_px 1).
  - reflexivity.
  - reflexivity.
  - vm_compute. reflexivity.
Defined.
